(** * Classify: image quality analysis and scoring engine

    A shallow embedding of the numeric core of the RAW classifier:
    [sharpnessAnalyzer.js], [histogramAnalyzer.js], [compositionAnalyzer.js],
    [scoringEngine.js] and [config/default.js], with the statistics of
    [reportGenerator.js] and the grouping functions of [imageAnalyzer.js].

    JavaScript numbers are modelled by [JS.num]: an exact rational, or one of
    the three IEEE special values NaN, +Infinity, -Infinity.  The arithmetic
    follows IEEE 754 on the special values (0/0 = NaN, x/0 = +-Infinity,
    comparisons with NaN are false); on finite values it is exact, so the
    rounding error of binary64 and the sign of zero are not modelled.

    Because of this, the theorems on computed averages, variances and
    percentages do not rest on the side of a threshold on which an exact value
    falls: they relate the values a function returns to one another, take the
    computed score as a variable, or leave a margin around the threshold. *)

From Stdlib Require Import Reals Lra.
From Stdlib Require Import ZArith QArith Qround Qabs Qminmax List String Bool.
From Stdlib Require Import Permutation Sorted.
From Stdlib Require Import DecimalString Lia Lqa.
Import ListNotations.

Local Open Scope Z_scope.

(* ================================================================= *)
(** ** JavaScript numbers *)

Module JS.

Inductive num : Type :=
| Fin (q : Q)
| PInf
| NInf
| NaN.

Definition fin (q : Q) : num := Fin (Qred q).
Definition ofZ (z : Z) : num := Fin (inject_Z z).

Definition Qsgn (q : Q) : comparison := (0 ?= q)%Q.

Definition neg (a : num) : num :=
  match a with
  | Fin q => fin (- q)
  | PInf => NInf
  | NInf => PInf
  | NaN => NaN
  end.

Definition add (a b : num) : num :=
  match a, b with
  | NaN, _ | _, NaN => NaN
  | Fin p, Fin q => fin (p + q)
  | PInf, NInf | NInf, PInf => NaN
  | PInf, _ | _, PInf => PInf
  | NInf, _ | _, NInf => NInf
  end.

Definition sub (a b : num) : num := add a (neg b).

(** The sign of an infinity multiplied or divided by a finite value. *)
Definition signed (pos : bool) (c : comparison) : num :=
  match c with
  | Eq => NaN
  | Lt => if pos then PInf else NInf
  | Gt => if pos then NInf else PInf
  end.

Definition mul (a b : num) : num :=
  match a, b with
  | NaN, _ | _, NaN => NaN
  | Fin p, Fin q => fin (p * q)
  | PInf, Fin q | Fin q, PInf => signed true (Qsgn q)
  | NInf, Fin q | Fin q, NInf => signed false (Qsgn q)
  | PInf, PInf | NInf, NInf => PInf
  | PInf, NInf | NInf, PInf => NInf
  end.

Definition div (a b : num) : num :=
  match a, b with
  | NaN, _ | _, NaN => NaN
  | Fin p, Fin q =>
      match Qsgn q with
      | Eq => signed true (Qsgn p)
      | _ => fin (p / q)
      end
  | Fin _, _ => Fin 0
  | PInf, Fin q =>
      match Qsgn q with Gt => NInf | _ => PInf end
  | NInf, Fin q =>
      match Qsgn q with Gt => PInf | _ => NInf end
  | _, _ => NaN
  end.

(** [cmp] is [None] exactly when one side is NaN: every JS comparison is then
    false. *)
Definition cmp (a b : num) : option comparison :=
  match a, b with
  | NaN, _ | _, NaN => None
  | Fin p, Fin q => Some (p ?= q)%Q
  | PInf, PInf | NInf, NInf => Some Eq
  | PInf, _ | _, NInf => Some Gt
  | NInf, _ | _, PInf => Some Lt
  end.

Definition lt (a b : num) : bool :=
  match cmp a b with Some Lt => true | _ => false end.
Definition gt (a b : num) : bool :=
  match cmp a b with Some Gt => true | _ => false end.
Definition le (a b : num) : bool :=
  match cmp a b with Some Lt | Some Eq => true | _ => false end.
Definition ge (a b : num) : bool :=
  match cmp a b with Some Gt | Some Eq => true | _ => false end.
(** [a === b] on numbers. *)
Definition eq (a b : num) : bool :=
  match cmp a b with Some Eq => true | _ => false end.

(** [Math.abs], [Math.max], [Math.min], [Math.round], [Math.floor]. *)
Definition abs (a : num) : num :=
  match a with
  | Fin q => fin (Qabs q)
  | PInf | NInf => PInf
  | NaN => NaN
  end.

Definition max (a b : num) : num :=
  match cmp a b with
  | None => NaN
  | Some Lt => b
  | _ => a
  end.

Definition min (a b : num) : num :=
  match cmp a b with
  | None => NaN
  | Some Gt => b
  | _ => a
  end.

Definition round (a : num) : num :=
  match a with
  | Fin q => ofZ (Qfloor (q + (1 # 2)))
  | _ => a
  end.

Definition floor (a : num) : num :=
  match a with
  | Fin q => ofZ (Qfloor q)
  | _ => a
  end.

(** Truthiness of a number: [0] and [NaN] are falsy. *)
Definition truthy (a : num) : bool :=
  match a with
  | NaN => false
  | Fin q => negb (Qeq_bool q 0)
  | _ => true
  end.

(** [a || d] on numbers. *)
Definition orElse (a d : num) : num := if truthy a then a else d.

Definition isFinite (a : num) : bool :=
  match a with Fin _ => true | _ => false end.

(** [Math.sqrt].  IEEE rounds the root to the nearest double; the model is
    exact on squares of rationals and otherwise truncates the root at a
    resolution of 2^-60 of the denominator. *)
Definition sqrt_scale : Z := 2 ^ 60.

Definition sqrt (a : num) : num :=
  match a with
  | Fin q =>
      match Qsgn q with
      | Gt => NaN
      | _ =>
          let r := Qred q in
          let d := Zpos (Qden r) in
          fin (Qmake (Z.sqrt (Qnum r * d * sqrt_scale * sqrt_scale))
                     (Z.to_pos (d * sqrt_scale)))
      end
  | PInf => PInf
  | _ => NaN
  end.

(** Integer-valued loop ranges: [range lo hi] lists [lo, lo+1, .., hi-1]. *)
Definition range (lo hi : Z) : list Z :=
  map (fun i => lo + Z.of_nat i) (seq 0 (Z.to_nat (hi - lo))).

(** [for (v = lo; v < hi; v += step)] with a positive step. *)
Definition rangeStep (lo hi step : Z) : list Z :=
  map (fun i => lo + step * Z.of_nat i)
      (seq 0 (Z.to_nat ((hi - lo + step - 1) / step))).

(** Indexing a typed array or buffer: out of range reads give [undefined],
    which every arithmetic operation turns into NaN. *)
Definition get (data : list Z) (idx : Z) : num :=
  if idx <? 0 then NaN
  else match nth_error data (Z.to_nat idx) with
       | Some v => ofZ v
       | None => NaN
       end.

(** Indexing with a computed number: only an integer in range hits. *)
Definition getN (data : list Z) (idx : num) : num :=
  match idx with
  | Fin q => if Qeq_bool (inject_Z (Qfloor q)) q then get data (Qfloor q)
             else NaN
  | _ => NaN
  end.

(** The few results that come out of [Math.atan2], [Math.sin] and
    [Math.cos] are modelled as real numbers; [None] stands for NaN. *)
Definition real : Type := option R.

Definition rlift2 (f : R -> R -> R) (a b : real) : real :=
  match a, b with
  | Some x, Some y => Some (f x y)
  | _, _ => None
  end.

Definition rmap (f : R -> R) (a : real) : real := option_map f a.

(** [Math.atan2(y, x)] on finite arguments ([Math.atan2(0, 0)] is 0); pixel
    differences are never infinite, and anything else gives NaN. *)
Definition atan2 (y x : num) : real :=
  match y, x with
  | Fin y, Fin x =>
      Some (match Qsgn x with
            | Lt => atan (Q2R y / Q2R x)
            | Gt => match Qsgn y with
                    | Gt => atan (Q2R y / Q2R x) - PI
                    | _ => atan (Q2R y / Q2R x) + PI
                    end
            | Eq => match Qsgn y with
                    | Lt => PI / 2
                    | Gt => - PI / 2
                    | Eq => 0
                    end
            end)%R
  | _, _ => None
  end.

(** [a > b] on reals, false on NaN. *)
Definition rgt (a : real) (b : R) : bool :=
  match a with
  | Some x => if Rlt_dec b x then true else false
  | None => false
  end.

(** [Math.round] on reals. *)
Definition rround (a : real) : real :=
  rmap (fun x => IZR (Int_part (x + / 2))) a.

End JS.

Declare Scope js_scope.
Delimit Scope js_scope with js.
Bind Scope js_scope with JS.num.
Infix "+" := JS.add : js_scope.
Infix "-" := JS.sub : js_scope.
Infix "*" := JS.mul : js_scope.
Infix "/" := JS.div : js_scope.
Infix "<?" := JS.lt : js_scope.
Infix ">?" := JS.gt : js_scope.
Infix "<=?" := JS.le : js_scope.
Infix ">=?" := JS.ge : js_scope.
Arguments JS.fin q%_Q.
Arguments JS.ofZ z%_Z.

(** A decoded pixel buffer as the external decoder hands it over: row-major
    8-bit samples, [channels] per pixel. *)
Record PixelBuffer : Type := mkBuffer {
  data : list Z;
  width : Z;
  height : Z;
  channels : Z
}.

Definition wellFormed (b : PixelBuffer) : Prop :=
  0 < width b /\ 0 < height b /\ 0 < channels b /\
  Z.of_nat (List.length (data b)) = width b * height b * channels b /\
  Forall (fun v => 0 <= v <= 255) (data b).

(** [Array.prototype.sort] with a numeric comparator, as a stable insertion
    sort: [x] stays in front of [y] unless the comparator is positive.  (With
    a comparator that returns NaN the order is implementation-defined in JS;
    the model then keeps the original order.) *)
Fixpoint insertBy {A : Type} (c : A -> A -> JS.num) (x : A) (l : list A)
  : list A :=
  match l with
  | [] => [x]
  | y :: l' => if JS.gt (c x y) (JS.fin 0) then y :: insertBy c x l'
               else x :: l
  end.

Definition sortBy {A : Type} (c : A -> A -> JS.num) (l : list A) : list A :=
  fold_right (insertBy c) [] l.

(* ================================================================= *)
(** ** sharpnessAnalyzer.js *)

Module Sharpness.
Import JS.
Local Open Scope string_scope.
Local Open Scope js_scope.

(** One pass of the two nested interior loops
    [for y in 1..height-2, for x in 1..width-2], threading an accumulator. *)
Definition interior {A : Type} (width height : Z)
  (body : A -> Z -> Z -> A) (init : A) : A :=
  fold_left (fun acc y =>
    fold_left (fun acc x => body acc x y) (range 1 (width - 1)) acc)
    (range 1 (height - 1)) init.

Definition laplacianAt (data : list Z) (width idx : Z) : num :=
  get data (idx - width) + get data (idx - 1) + fin (-4) * get data idx
  + get data (idx + 1) + get data (idx + width).

Definition calculateLaplacianVariance (data : list Z) (width height : Z) : num :=
  let '(sum, sumSq, count) :=
    interior width height
      (fun '(sum, sumSq, count) x y =>
         let idx := (y * width + x)%Z in
         let absLaplacian := abs (laplacianAt data width idx) in
         (sum + absLaplacian, sumSq + absLaplacian * absLaplacian,
          count + fin 1))
      (fin 0, fin 0, fin 0) in
  let mean := sum / count in
  (sumSq / count) - (mean * mean).

(** [new Uint8Array(..)] filled from [data]; a read that misses stores 0. *)
Definition extractRegion (data : list Z) (stride startX startY
                          regionWidth regionHeight : Z) : list Z :=
  flat_map (fun y =>
    map (fun x =>
           let idx := ((startY + y) * stride + (startX + x))%Z in
           nth (Z.to_nat idx) (if (idx <? 0)%Z then [] else data) 0%Z)
        (range 0 regionWidth))
    (range 0 regionHeight).

Definition getRegionPosition (x y gridSize : Z) : string :=
  let midPoint := (gridSize / 2)%Z in
  let vertical := if (y <? midPoint)%Z then "top"
                  else if (y >? midPoint)%Z then "bottom" else "middle" in
  let horizontal := if (x <? midPoint)%Z then "left"
                    else if (x >? midPoint)%Z then "right" else "center" in
  if (vertical =? "middle") && (horizontal =? "center") then "center"
  else if vertical =? "middle" then horizontal
  else if horizontal =? "center" then vertical
  else vertical ++ "-" ++ horizontal.

Record Region : Type := mkRegion {
  r_x : Z;
  r_y : Z;
  r_sharpness : num;
  r_position : string;
  r_normalizedSharpness : num
}.

Record Regions : Type := mkRegions {
  grid : list Region;
  rg_max : num;
  rg_min : num;
  rg_variance : num
}.

Definition round2 (a : num) : num := round (a * fin 100) / fin 100.

Definition analyzeRegions (data : list Z) (width height gridSize : Z) : Regions :=
  let regionWidth := (width / gridSize)%Z in
  let regionHeight := (height / gridSize)%Z in
  let '(regions, maxSharpness, minSharpness) :=
    fold_left (fun acc gy =>
      fold_left (fun '(regions, maxSharpness, minSharpness) gx =>
        let startX := (gx * regionWidth)%Z in
        let startY := (gy * regionHeight)%Z in
        let regionData :=
          extractRegion data width startX startY regionWidth regionHeight in
        let sharpness :=
          calculateLaplacianVariance regionData regionWidth regionHeight in
        ((regions ++ [mkRegion gx gy (round2 sharpness)
                               (getRegionPosition gx gy gridSize) NaN])%list,
         max maxSharpness sharpness, min minSharpness sharpness))
        (range 0 gridSize) acc)
      (range 0 gridSize) ([], fin 0, PInf) in
  let range := orElse (maxSharpness - minSharpness) (fin 1) in
  mkRegions
    (map (fun r =>
       mkRegion (r_x r) (r_y r) (r_sharpness r) (r_position r)
         (round (((r_sharpness r - minSharpness) / range) * fin 100)))
       regions)
    (round2 maxSharpness) (round2 minSharpness)
    (round2 (maxSharpness - minSharpness)).

Definition calculateDirectionalGradient (data : list Z) (width height : Z)
  (direction : string) : num :=
  let '(sum, count) :=
    interior width height
      (fun '(sum, count) x y =>
         let idx := (y * width + x)%Z in
         let gradient :=
           if direction =? "horizontal"
           then abs (get data (idx + 1) - get data (idx - 1))
           else abs (get data (idx + width) - get data (idx - width)) in
         (sum + gradient, count + fin 1))
      (fin 0, fin 0) in
  sum / count.

(** [Math.random] is an oracle: [rand n] is the value returned by the
    [n]-th call made during the run, a double in [0, 1). *)
Definition Random : Type := nat -> Q.

Definition sampleCount : nat := 20.

(** The gradient [(gx, gy)] sampled by iteration [i] of the loop, which draws
    the column first and the row second. *)
Definition sampleGradient (data : list Z) (width height : Z) (rand : Random)
  (i : nat) : num * num :=
  let x := floor (fin (rand (2 * i)%nat) * ofZ (width - 2)) + fin 1 in
  let y := floor (fin (rand (2 * i + 1)%nat) * ofZ (height - 2)) + fin 1 in
  let idx := y * ofZ width + x in
  let gx := getN data (idx + fin 1) - getN data (idx - fin 1) in
  let gy := getN data (idx + ofZ width) - getN data (idx - ofZ width) in
  (gx, gy).

Definition sampleAngle (data : list Z) (width height : Z) (rand : Random)
  (i : nat) : real :=
  let '(gx, gy) := sampleGradient data width height rand i in
  atan2 gy gx.

(** The length of the mean resultant vector of the sampled angles. *)
Definition resultantLength (samples : list real) : real :=
  let '(sumSin, sumCos) :=
    fold_left (fun '(sumSin, sumCos) angle =>
                 (rlift2 Rplus sumSin (rmap sin angle),
                  rlift2 Rplus sumCos (rmap cos angle)))
              samples (Some 0%R, Some 0%R) in
  rmap (fun s => (s / INR sampleCount)%R)
       (rmap R_sqrt.sqrt
             (rlift2 Rplus (rlift2 Rmult sumSin sumSin)
                           (rlift2 Rmult sumCos sumCos))).

Definition analyzeGradientConsistency (data : list Z) (width height : Z)
  (rand : Random) : real :=
  resultantLength (map (sampleAngle data width height rand) (seq 0 sampleCount)).

Record Metrics : Type := mkMetrics {
  m_horizontalGradient : num;
  m_verticalGradient : num;
  m_gradientRatio : num;
  m_consistency : real;
  m_avgGradient : num
}.

Record Blur : Type := mkBlur {
  b_type : string;
  b_severity : num;
  b_direction : option string;
  b_metrics : option Metrics
}.

Definition detectBlurType (data : list Z) (width height : Z)
  (overallSharpness : num) (rand : Random) : Blur :=
  let horizontalGradient :=
    calculateDirectionalGradient data width height "horizontal" in
  let verticalGradient :=
    calculateDirectionalGradient data width height "vertical" in
  let gradientRatio := horizontalGradient / orElse verticalGradient (fin 1) in
  let gradientConsistency :=
    analyzeGradientConsistency data width height rand in
  let avgGradient := (horizontalGradient + verticalGradient) / fin 2 in
  let '(blurType, severity, direction) :=
    if (overallSharpness >? fin 100) || (avgGradient >? fin 20)
    then ("none", fin 0, None)
    else if (abs (gradientRatio - fin 1) >? fin 0.5)
            && (overallSharpness <? fin 50) && (avgGradient <? fin 15)
    then ("motion",
          max (fin 0) (min (fin 1) (fin 1 - overallSharpness / fin 50)),
          Some (if gradientRatio >? fin 1 then "horizontal" else "vertical"))
    else if (overallSharpness <? fin 40)
            && rgt gradientConsistency (9 / 10)%R
            && (avgGradient <? fin 12)
    then ("defocus",
          max (fin 0) (min (fin 1) (fin 1 - overallSharpness / fin 40)),
          None)
    else if overallSharpness <? fin 80
    then ("soft", fin 0.2, None)
    else ("none", fin 0, None) in
  mkBlur blurType (min (fin 1) (max (fin 0) severity)) direction
    (Some (mkMetrics (round horizontalGradient) (round verticalGradient)
             (round2 gradientRatio)
             (rmap (fun r => (r / 100)%R)
                   (rround (rmap (fun r => (r * 100)%R) gradientConsistency)))
             (round avgGradient))).

Record Edges : Type := mkEdges {
  averageStrength : num;
  strongEdgeRatio : num;
  e_assessment : string
}.

Definition sobelX (data : list Z) (width idx : Z) : num :=
  neg (get data (idx - width - 1)) + get data (idx - width + 1)
  + fin (-2) * get data (idx - 1) + fin 2 * get data (idx + 1)
  + neg (get data (idx + width - 1)) + get data (idx + width + 1).

Definition sobelY (data : list Z) (width idx : Z) : num :=
  neg (get data (idx - width - 1)) - fin 2 * get data (idx - width)
  - get data (idx - width + 1)
  + get data (idx + width - 1) + fin 2 * get data (idx + width)
  + get data (idx + width + 1).

Definition analyzeEdges (data : list Z) (width height : Z) : Edges :=
  let '(edgeSum, strongEdges, weakEdges, count) :=
    interior width height
      (fun '(edgeSum, strongEdges, weakEdges, count) x y =>
         let idx := (y * width + x)%Z in
         let gx := sobelX data width idx in
         let gy := sobelY data width idx in
         let magnitude := sqrt (gx * gx + gy * gy) in
         let '(strongEdges, weakEdges) :=
           if magnitude >? fin 100 then (strongEdges + fin 1, weakEdges)
           else if magnitude >? fin 30 then (strongEdges, weakEdges + fin 1)
           else (strongEdges, weakEdges) in
         (edgeSum + magnitude, strongEdges, weakEdges, count + fin 1))
      (fin 0, fin 0, fin 0, fin 0) in
  let avgEdgeStrength := edgeSum / count in
  let strongEdgeRatio := strongEdges / count in
  mkEdges (round avgEdgeStrength)
          (round (strongEdgeRatio * fin 10000) / fin 100)
          (if avgEdgeStrength >? fin 50 then "strong"
           else if avgEdgeStrength >? fin 25 then "moderate" else "weak").

Record FocusPlane : Type := mkFocusPlane {
  fp_position : string;
  sharpestRegions : list string;
  fp_center : num * num
}.

Definition determineFocusPlane (regionAnalysis : Regions) : FocusPlane :=
  let regions := grid regionAnalysis in
  let sorted := sortBy (fun a b => r_sharpness b - r_sharpness a) regions in
  let sharpest := firstn 5 sorted in
  let '(sumX, sumY, totalWeight) :=
    fold_left (fun '(sumX, sumY, totalWeight) region =>
                 let weight := r_sharpness region in
                 (sumX + ofZ (r_x region) * weight,
                  sumY + ofZ (r_y region) * weight,
                  totalWeight + weight))
              sharpest (fin 0, fin 0, fin 0) in
  let centerX := sumX / totalWeight in
  let centerY := sumY / totalWeight in
  let gridSize := sqrt (ofZ (Z.of_nat (List.length regions))) in
  let midPoint := (gridSize - fin 1) / fin 2 in
  let position :=
    if (abs (centerX - midPoint) <? fin 0.7)
       && (abs (centerY - midPoint) <? fin 0.7)
    then "center"
    else if centerY <? midPoint - fin 0.5
    then (if centerX <? midPoint then "top-left"
          else if centerX >? midPoint then "top-right" else "top")
    else if centerY >? midPoint + fin 0.5
    then (if centerX <? midPoint then "bottom-left"
          else if centerX >? midPoint then "bottom-right" else "bottom")
    else (if centerX <? midPoint then "left" else "right") in
  mkFocusPlane position (map r_position sharpest)
               (round2 centerX, round2 centerY).

Definition calculateSharpnessScore (overallSharpness : num)
  (blurAnalysis : Blur) (edgeAnalysis : Edges) (focusPlane : FocusPlane)
  : num :=
  let edgeStrength := orElse (averageStrength edgeAnalysis) (fin 0) in
  let strongEdgeRatio := orElse (strongEdgeRatio edgeAnalysis) (fin 0) in
  let score :=
    if edgeStrength >? fin 80
    then fin 90 + min (fin 10) ((edgeStrength - fin 80) / fin 4)
    else if edgeStrength >? fin 60
    then fin 78 + ((edgeStrength - fin 60) / fin 20) * fin 12
    else if edgeStrength >? fin 40
    then fin 65 + ((edgeStrength - fin 40) / fin 20) * fin 13
    else if edgeStrength >? fin 25
    then fin 52 + ((edgeStrength - fin 25) / fin 15) * fin 13
    else if edgeStrength >? fin 15
    then fin 40 + ((edgeStrength - fin 15) / fin 10) * fin 12
    else fin 30 + (edgeStrength / fin 15) * fin 10 in
  let score :=
    if strongEdgeRatio >? fin 5 then score + fin 5
    else if strongEdgeRatio >? fin 2 then score + fin 3
    else score in
  let score :=
    if overallSharpness >? fin 500 then score + fin 3
    else if overallSharpness >? fin 300 then score + fin 2
    else score in
  let score :=
    if (b_type blurAnalysis =? "motion")
       && (b_severity blurAnalysis >? fin 0.6)
    then score - (b_severity blurAnalysis - fin 0.6) * fin 25
    else if (b_type blurAnalysis =? "defocus")
            && (b_severity blurAnalysis >? fin 0.6)
    then score - (b_severity blurAnalysis - fin 0.6) * fin 20
    else score in
  let score :=
    if fp_position focusPlane =? "center" then score + fin 2 else score in
  max (fin 0) (min (fin 100) (round score)).

Definition getSharpnessAssessment (score : num) : string :=
  if score >=? fin 90 then "tack-sharp"
  else if score >=? fin 75 then "sharp"
  else if score >=? fin 60 then "acceptable"
  else if score >=? fin 40 then "soft"
  else if score >=? fin 20 then "very-soft"
  else "unusable".

Record Overall : Type := mkOverall {
  o_variance : num;
  o_score : num;
  o_assessment : string
}.

(** The result of [analyzeSharpness] (the [dimensions] entry, which echoes the
    decoder's metadata, is left out). *)
Record SharpnessResult : Type := mkSharpness {
  overall : Overall;
  regions : Regions;
  blur : Blur;
  edges : Edges;
  focusPlane : FocusPlane
}.

Definition createEmptyAnalysis : SharpnessResult :=
  mkSharpness (mkOverall (fin 0) (fin 0) "unknown")
              (mkRegions [] (fin 0) (fin 0) (fin 0))
              (mkBlur "unknown" (fin 0) None None)
              (mkEdges (fin 0) (fin 0) "unknown")
              (mkFocusPlane "unknown" [] (fin 0, fin 0)).

(** [analyzeSharpness] after the decoder has produced the grayscale buffer
    ([None] is the missing image); [gridSize] defaults to 5.  None of the
    operations below throws, so the [catch] branch is not reached. *)
Definition analyzeSharpnessWith (gridSize : Z) (imageBuffer : option PixelBuffer)
  (rand : Random) : SharpnessResult :=
  match imageBuffer with
  | None => createEmptyAnalysis
  | Some info =>
      let overallSharpness :=
        calculateLaplacianVariance (data info) (width info) (height info) in
      let regionAnalysis :=
        analyzeRegions (data info) (width info) (height info) gridSize in
      let blurAnalysis :=
        detectBlurType (data info) (width info) (height info)
                       overallSharpness rand in
      let edgeAnalysis := analyzeEdges (data info) (width info) (height info) in
      let focusPlane := determineFocusPlane regionAnalysis in
      let score :=
        calculateSharpnessScore overallSharpness blurAnalysis edgeAnalysis
                                focusPlane in
      mkSharpness (mkOverall (round2 overallSharpness) score
                             (getSharpnessAssessment score))
                  regionAnalysis blurAnalysis edgeAnalysis focusPlane
  end.

Definition analyzeSharpness : option PixelBuffer -> Random -> SharpnessResult :=
  analyzeSharpnessWith 5.

(** [quickSharpnessCheck] on the decoded grayscale buffer ([None] is the
    missing image); the result carries [variance] once it is computed. *)
Record QuickCheck : Type := mkQuickCheck {
  ok : bool;
  issue : option string;
  qc_variance : option num
}.

Definition quickSharpnessCheck (imageBuffer : option PixelBuffer) : QuickCheck :=
  match imageBuffer with
  | None => mkQuickCheck false (Some "no-image") None
  | Some info =>
      let variance :=
        calculateLaplacianVariance (data info) (width info) (height info) in
      if variance <? fin 50
      then mkQuickCheck false (Some "very-blurry") (Some variance)
      else if variance <? fin 150
      then mkQuickCheck true (Some "soft") (Some variance)
      else mkQuickCheck true None (Some variance)
  end.

End Sharpness.

(* ================================================================= *)
(** ** histogramAnalyzer.js *)

Module Histogram.
Import JS.
Local Open Scope string_scope.
Local Open Scope js_scope.

(** [hist[i]] on an array of numbers; a miss reads [undefined]. *)
Definition at_ (hist : list num) (i : nat) : num := nth i hist NaN.

(** [arr.slice(lo, hi).reduce((a, b) => a + b, 0)]. *)
Definition sumSlice (arr : list num) (lo hi : nat) : num :=
  fold_left add (firstn (hi - lo) (skipn lo arr)) (fin 0).

(** [hist[k]++] for a computed key: only an integer key inside the array
    touches a bucket. *)
Definition bump (hist : list num) (k : num) : list num :=
  match k with
  | Fin q =>
      let z := Qfloor q in
      if Qeq_bool (inject_Z z) q && (0 <=? z)%Z
         && (z <? Z.of_nat (List.length hist))%Z
      then firstn (Z.to_nat z) hist
           ++ (at_ hist (Z.to_nat z) + fin 1) :: skipn (S (Z.to_nat z)) hist
      else hist
  | _ => hist
  end%list.

Record Histograms : Type := mkHistograms {
  red : list num;
  green : list num;
  blue : list num;
  luminance : list num;
  totalPixels : num
}.

Definition luminanceOf (r g b : num) : num :=
  round (fin 0.299 * r + fin 0.587 * g + fin 0.114 * b).

(** [computeHistogram] on the decoded (resized) buffer. *)
Definition computeHistogram (info : PixelBuffer) : Histograms :=
  let zeros := repeat (fin 0) 256 in
  let totalPixels := ofZ (width info * height info) in
  let '(hr, hg, hb, hl) :=
    fold_left (fun '(hr, hg, hb, hl) i =>
                 let r := get (data info) i in
                 let g := get (data info) (i + 1) in
                 let b := get (data info) (i + 2) in
                 (bump hr r, bump hg g, bump hb b,
                  bump hl (luminanceOf r g b)))
              (rangeStep 0 (Z.of_nat (List.length (data info))) (channels info))
              (zeros, zeros, zeros, zeros) in
  let normalize := map (fun v => (v / totalPixels) * fin 100) in
  mkHistograms (normalize hr) (normalize hg) (normalize hb) (normalize hl)
               totalPixels.

(** [calculateVariance]. *)
Definition calculateVariance (arr : list num) : num :=
  let len := ofZ (Z.of_nat (List.length arr)) in
  let mean := fold_left add arr (fin 0) / len in
  let squaredDiffs := map (fun v => (v - mean) * (v - mean)) arr in
  fold_left add squaredDiffs (fin 0) / len.

(** [Math.max(...xs)]. *)
Definition maxOf (xs : list num) : num := fold_left max xs NInf.

Definition analyzeHistogramShape (luminance : list num) : string :=
  let peaks :=
    filter (fun i =>
              let center := at_ luminance i in
              (center >? fin 0.5)
              && eq center (maxOf (firstn 11 (skipn (i - 5) luminance))))
           (seq 5 246) in
  match peaks with
  | [peakPos] =>
      if (peakPos <? 80)%nat then "low-key"
      else if (180 <? peakPos)%nat then "high-key"
      else "normal"
  | [p0; p1] =>
      if (100 <? (p0 - p1) + (p1 - p0))%nat then "bimodal-contrast"
      else "bimodal"
  | _ :: _ :: _ :: _ => "multi-modal"
  | [] =>
      if calculateVariance luminance <? fin 0.1 then "flat" else "normal"
  end.

Record Zones : Type := mkZones {
  shadows : num;
  midtones : num;
  highlights : num
}.

Record Exposure : Type := mkExposure {
  meanBrightness : num;
  assessment : string;
  deviation : num;
  zones : option Zones;
  shape : option string
}.

Definition round2 (a : num) : num := round (a * fin 100) / fin 100.

(** The luminance-weighted mean brightness of [analyzeExposure], before it is
    rounded for the report. *)
Definition meanBrightnessOf (luminance : list num) : num :=
  let '(weightedSum, totalWeight) :=
    fold_left (fun '(weightedSum, totalWeight) i =>
                 (weightedSum + ofZ (Z.of_nat i) * at_ luminance i,
                  totalWeight + at_ luminance i))
              (seq 0 256) (fin 0, fin 0) in
  weightedSum / totalWeight.

(** The assessment label and deviation chosen from the mean brightness. *)
Definition assess (meanBrightness : num) : string * num :=
  if meanBrightness <? fin 80
  then ("underexposed", (fin 80 - meanBrightness) / fin 80)
  else if meanBrightness >? fin 180
  then ("overexposed", (meanBrightness - fin 180) / fin 75)
  else if (meanBrightness >=? fin 100) && (meanBrightness <=? fin 160)
  then ("well-exposed", fin 0)
  else if meanBrightness <? fin 100
  then ("slightly-under", (fin 100 - meanBrightness) / fin 100)
  else ("slightly-over", (meanBrightness - fin 160) / fin 60).

Definition analyzeExposure (histogram : Histograms) : Exposure :=
  let luminance := luminance histogram in
  let meanBrightness := meanBrightnessOf luminance in
  let shadows := sumSlice luminance 0 64 in
  let midtones := sumSlice luminance 64 192 in
  let highlights := sumSlice luminance 192 256 in
  let '(assessment, deviation) := assess meanBrightness in
  mkExposure (round meanBrightness) assessment (min (fin 1) deviation)
             (Some (mkZones (round2 shadows) (round2 midtones)
                            (round2 highlights)))
             (Some (analyzeHistogramShape luminance)).

Definition getSeverity (percentage : num) : string :=
  if percentage <? fin 1 then "none"
  else if percentage <? fin 5 then "minor"
  else if percentage <? fin 15 then "moderate"
  else if percentage <? fin 30 then "severe"
  else "critical".

Record Tail : Type := mkTail {
  clipped : num;
  nearClip : num;
  severity : option string
}.

Record Clipping : Type := mkClipping {
  c_shadows : Tail;
  c_highlights : Tail;
  totalClipped : num;
  recoverable : bool
}.

Definition analyzeClipping (histogram : Histograms) : Clipping :=
  let luminance := luminance histogram in
  let shadowClipped := sumSlice luminance 0 6 in
  let highlightClipped := sumSlice luminance 250 256 in
  let nearShadowClip := sumSlice luminance 6 20 in
  let nearHighlightClip := sumSlice luminance 235 250 in
  mkClipping
    (mkTail (round2 shadowClipped) (round2 nearShadowClip)
            (Some (getSeverity shadowClipped)))
    (mkTail (round2 highlightClipped) (round2 nearHighlightClip)
            (Some (getSeverity highlightClipped)))
    (round2 (shadowClipped + highlightClipped))
    ((shadowClipped <? fin 5) && (highlightClipped <? fin 5)).

(** [estimatedStops], a rounded [Math.log2], is left out of the record. *)
Record DynamicRange : Type := mkDynamicRange {
  dr_min : num;
  dr_max : num;
  dr_range : num;
  percentage : num;
  dr_assessment : string
}.

Definition analyzeDynamicRange (histogram : Histograms) : DynamicRange :=
  let luminance := luminance histogram in
  let used := fun i => at_ luminance i >? fin 0.1 in
  let minUsed :=
    match find used (seq 0 256) with Some i => i | None => 0%nat end in
  let maxUsed :=
    match find used (rev (seq 0 256)) with Some i => i | None => 255%nat end in
  let rangeUsed := ofZ (Z.of_nat maxUsed) - ofZ (Z.of_nat minUsed) in
  let rangePercentage := (rangeUsed / fin 255) * fin 100 in
  mkDynamicRange (ofZ (Z.of_nat minUsed)) (ofZ (Z.of_nat maxUsed)) rangeUsed
    (round rangePercentage)
    (if rangePercentage >? fin 80 then "excellent"
     else if rangePercentage >? fin 60 then "good"
     else if rangePercentage >? fin 40 then "moderate"
     else if rangePercentage >? fin 20 then "limited"
     else "very-limited").

Definition calculateExposureScore (exposure : Exposure) (clipping : Clipping)
  (dynamicRange : DynamicRange) : num :=
  let score := fin 85 - deviation exposure * fin 20 in
  let score :=
    if clipped (c_shadows clipping) >? fin 2
    then score - min (fin 15) ((clipped (c_shadows clipping) - fin 2) * fin 1.5)
    else score in
  let score :=
    if clipped (c_highlights clipping) >? fin 2
    then score - min (fin 20) ((clipped (c_highlights clipping) - fin 2) * fin 2)
    else score in
  let score :=
    if dr_assessment dynamicRange =? "very-limited" then score - fin 10
    else if dr_assessment dynamicRange =? "limited" then score - fin 5
    else score in
  let score :=
    match zones exposure with
    | Some z => if midtones z >? fin 50 then score + fin 5 else score
    | None => score
    end in
  let score :=
    if dr_assessment dynamicRange =? "excellent" then score + fin 5
    else if dr_assessment dynamicRange =? "good" then score + fin 3
    else score in
  max (fin 0) (min (fin 100) (round score)).

(** The result of [analyzeHistogram]; the per-channel [stats] and the
    [contrast] entry, which come from the decoder's statistics, are left
    out. *)
Record HistogramResult : Type := mkHistogram {
  histogram : option Histograms;
  exposure : Exposure;
  clipping : Clipping;
  dynamicRange : DynamicRange;
  score : num
}.

Definition createEmptyAnalysis : HistogramResult :=
  mkHistogram None
    (mkExposure (fin 0) "unknown" (fin 1) None None)
    (mkClipping (mkTail (fin 0) NaN None) (mkTail (fin 0) NaN None)
                (fin 0) true)
    (mkDynamicRange NaN NaN (fin 0) (fin 0) "unknown")
    (fin 0).

Definition analyzeHistogram (imageBuffer : option PixelBuffer)
  : HistogramResult :=
  match imageBuffer with
  | None => createEmptyAnalysis
  | Some info =>
      let histogram := computeHistogram info in
      let exposureAnalysis := analyzeExposure histogram in
      let clippingAnalysis := analyzeClipping histogram in
      let dynamicRange := analyzeDynamicRange histogram in
      mkHistogram (Some histogram) exposureAnalysis clippingAnalysis
        dynamicRange
        (calculateExposureScore exposureAnalysis clippingAnalysis dynamicRange)
  end.

End Histogram.

(* ================================================================= *)
(** ** compositionAnalyzer.js *)

Module Composition.
Import JS.
Local Open Scope string_scope.
Local Open Scope js_scope.

Record Point : Type := mkPoint {
  p_x : Z;
  p_y : Z;
  strength : num
}.

Definition blockSize : Z := 30.

(** [findInterestPoints], with its default threshold of 50. *)
Definition findInterestPointsWith (threshold : num) (data : list Z)
  (width height : Z) : list Point :=
  let points :=
    fold_left (fun points by_ =>
      fold_left (fun points bx =>
        let '(maxContrast, maxX, maxY) :=
          fold_left (fun acc y =>
            fold_left (fun '(maxContrast, maxX, maxY) x =>
              let idx := (y * width + x)%Z in
              let contrast :=
                abs (get data idx - get data (idx + 1))
                + abs (get data idx - get data (idx + width)) in
              if contrast >? maxContrast then (contrast, x, y)
              else (maxContrast, maxX, maxY))
              (range bx (Z.min (bx + blockSize) (width - 1))) acc)
            (range by_ (Z.min (by_ + blockSize) (height - 1)))
            (fin 0, bx, by_) in
        if maxContrast >? threshold
        then (points ++ [mkPoint maxX maxY maxContrast])%list
        else points)
        (rangeStep 0 width blockSize) points)
      (rangeStep 0 height blockSize) [] in
  firstn 10 (sortBy (fun a b => strength b - strength a) points).

Definition findInterestPoints : list Z -> Z -> Z -> list Point :=
  findInterestPointsWith (fin 50).

Record ThirdsLines : Type := mkThirdsLines {
  tl_vertical : bool;
  tl_horizontal : bool
}.

Definition analyzeThirdsLines (interestPoints : list Point) (width height : Z)
  : ThirdsLines :=
  let verticalLines := [ofZ width / fin 3; (ofZ width * fin 2) / fin 3] in
  let horizontalLines := [ofZ height / fin 3; (ofZ height * fin 2) / fin 3] in
  let tolerance := ofZ (Z.min width height) * fin 0.05 in
  let '(verticalAlignment, horizontalAlignment) :=
    fold_left (fun '(va, ha) point =>
      let va :=
        fold_left (fun va line =>
                     if abs (ofZ (p_x point) - line) <? tolerance
                     then va + strength point else va)
                  verticalLines va in
      let ha :=
        fold_left (fun ha line =>
                     if abs (ofZ (p_y point) - line) <? tolerance
                     then ha + strength point else ha)
                  horizontalLines ha in
      (va, ha))
      interestPoints (fin 0, fin 0) in
  mkThirdsLines (verticalAlignment >? fin 100) (horizontalAlignment >? fin 100).

Record RuleOfThirds : Type := mkRuleOfThirds {
  alignment : num;
  nearestPowerPoint : option string;
  interestPointCount : nat;
  thirdsLines : option ThirdsLines;
  rt_assessment : string
}.

Definition analyzeRuleOfThirds (data : list Z) (width height : Z)
  : RuleOfThirds :=
  let w := ofZ width in
  let h := ofZ height in
  let powerPoints :=
    [ (w / fin 3, h / fin 3, "top-left");
      ((w * fin 2) / fin 3, h / fin 3, "top-right");
      (w / fin 3, (h * fin 2) / fin 3, "bottom-left");
      ((w * fin 2) / fin 3, (h * fin 2) / fin 3, "bottom-right") ] in
  let interestPoints := findInterestPoints data width height in
  let '(nearestPowerPoint, minDistance) :=
    fold_left (fun acc interest =>
      fold_left (fun '(nearest, minDistance) '(px, py, name) =>
        let dx := ofZ (p_x interest) - px in
        let dy := ofZ (p_y interest) - py in
        let dist := sqrt (dx * dx + dy * dy) in
        if dist <? minDistance then (Some name, dist)
        else (nearest, minDistance))
        powerPoints acc)
      interestPoints (None, PInf) in
  let maxDist := sqrt ((w / fin 6) * (w / fin 6) + (h / fin 6) * (h / fin 6)) in
  let alignment := max (fin 0) (fin 1 - minDistance / maxDist) in
  mkRuleOfThirds (round (alignment * fin 100)) nearestPowerPoint
    (List.length interestPoints)
    (Some (analyzeThirdsLines interestPoints width height))
    (if alignment >? fin 0.7 then "strong"
     else if alignment >? fin 0.4 then "moderate" else "weak").

Definition calculateQuadrantWeight (data : list Z) (stride x1 y1 x2 y2 : Z)
  : num :=
  let '(weight, count) :=
    fold_left (fun acc y =>
      fold_left (fun '(weight, count) x =>
                   (weight + get data (y * stride + x), count + fin 1))
                (range x1 x2) acc)
      (range y1 y2) (fin 0, fin 0) in
  if count >? fin 0 then weight / count else fin 0.

Record Quadrants : Type := mkQuadrants {
  topLeft : num;
  topRight : num;
  bottomLeft : num;
  bottomRight : num
}.

Record Balance : Type := mkBalance {
  quadrants : option Quadrants;
  bl_horizontal : num;
  bl_vertical : num;
  bl_overall : num;
  bl_type : string
}.

Definition analyzeVisualBalance (data : list Z) (width height : Z) : Balance :=
  let midX := (width / 2)%Z in
  let midY := (height / 2)%Z in
  let q :=
    mkQuadrants (calculateQuadrantWeight data width 0 0 midX midY)
                (calculateQuadrantWeight data width midX 0 width midY)
                (calculateQuadrantWeight data width 0 midY midX height)
                (calculateQuadrantWeight data width midX midY width height) in
  let leftWeight := topLeft q + bottomLeft q in
  let rightWeight := topRight q + bottomRight q in
  let topWeight := topLeft q + topRight q in
  let bottomWeight := bottomLeft q + bottomRight q in
  let horizontalBalance :=
    fin 1 - abs (leftWeight - rightWeight) / (leftWeight + rightWeight) in
  let verticalBalance :=
    fin 1 - abs (topWeight - bottomWeight) / (topWeight + bottomWeight) in
  let balanceType :=
    if (horizontalBalance >? fin 0.8) && (verticalBalance >? fin 0.8)
    then "symmetrical"
    else if (horizontalBalance >? fin 0.6) && (verticalBalance >? fin 0.6)
    then "balanced"
    else if (horizontalBalance <? fin 0.4) || (verticalBalance <? fin 0.4)
    then "dynamic"
    else "asymmetrical" in
  mkBalance (Some q)
    (round (horizontalBalance * fin 100))
    (round (verticalBalance * fin 100))
    (round (((horizontalBalance + verticalBalance) / fin 2) * fin 100))
    balanceType.

Record WeightDistribution : Type := mkWeightDistribution {
  centerOfMass : num * num;
  wd_offset : num * num;
  centered : bool
}.

Definition analyzeWeightDistribution (data : list Z) (width height : Z)
  : WeightDistribution :=
  let '(sumX, sumY, totalWeight) :=
    fold_left (fun acc y =>
      fold_left (fun '(sumX, sumY, totalWeight) x =>
                   let weight := get data (y * width + x) in
                   (sumX + ofZ x * weight, sumY + ofZ y * weight,
                    totalWeight + weight))
                (range 0 width) acc)
      (range 0 height) (fin 0, fin 0, fin 0) in
  let cx := sumX / totalWeight / ofZ width in
  let cy := sumY / totalWeight / ofZ height in
  let offsetX := abs (cx - fin 0.5) in
  let offsetY := abs (cy - fin 0.5) in
  mkWeightDistribution
    (round (cx * fin 100), round (cy * fin 100))
    (round (offsetX * fin 100), round (offsetY * fin 100))
    ((offsetX <? fin 0.1) && (offsetY <? fin 0.1)).

Record Symmetry : Type := mkSymmetry {
  sy_horizontal : num;
  sy_vertical : num;
  sy_overall : num;
  sy_type : string
}.

(** The loop bounds [x < width / 2] and [y < height / 2] compare an integer
    with a fraction: the last iteration is [(width - 1) / 2] rounded down. *)
Definition analyzeSymmetry (data : list Z) (width height : Z) : Symmetry :=
  let '(horizontalDiff, count) :=
    fold_left (fun acc y =>
      fold_left (fun '(horizontalDiff, count) x =>
                   let left := get data (y * width + x) in
                   let right := get data (y * width + (width - 1 - x)) in
                   (horizontalDiff + abs (left - right), count + fin 1))
                (range 0 ((width + 1) / 2)) acc)
      (range 0 height) (fin 0, fin 0) in
  let '(verticalDiff, vCount) :=
    fold_left (fun acc y =>
      fold_left (fun '(verticalDiff, vCount) x =>
                   let top := get data (y * width + x) in
                   let bottom := get data ((height - 1 - y) * width + x) in
                   (verticalDiff + abs (top - bottom), vCount + fin 1))
                (range 0 width) acc)
      (range 0 ((height + 1) / 2)) (fin 0, fin 0) in
  let horizontalSymmetry := fin 1 - horizontalDiff / (count * fin 255) in
  let verticalSymmetry := fin 1 - verticalDiff / (vCount * fin 255) in
  mkSymmetry
    (round (horizontalSymmetry * fin 100))
    (round (verticalSymmetry * fin 100))
    (round (((horizontalSymmetry + verticalSymmetry) / fin 2) * fin 100))
    (if horizontalSymmetry >? fin 0.8 then "horizontally-symmetric"
     else if verticalSymmetry >? fin 0.8 then "vertically-symmetric"
     else if (horizontalSymmetry >? fin 0.6) && (verticalSymmetry >? fin 0.6)
     then "balanced" else "asymmetric").

(** The horizon entry.  [level] and [tilt] are [null] when no horizon was
    detected; [detectHorizon] itself, which needs [Math.atan], is not
    modelled. *)
Record Horizon : Type := mkHorizon {
  detected : bool;
  hz_position : option num;
  positionQuality : option string;
  level : option bool;
  tilt : option num
}.

(** [!horizon.level] and [Math.abs(horizon.tilt)] on possibly-null entries. *)
Definition isLevel (h : Horizon) : bool :=
  match level h with Some b => b | None => false end.

Definition absTilt (h : Horizon) : num :=
  match tilt h with Some t => abs t | None => fin 0 end.

Record Score : Type := mkScore {
  sc_score : num;
  factors : list string;
  sc_assessment : string
}.

Definition hasQuality (h : Horizon) (q : string) : bool :=
  match positionQuality h with Some s => s =? q | None => false end.

Definition calculateCompositionScore (ruleOfThirds : RuleOfThirds)
  (balance : Balance) (horizon : Horizon) (symmetry : Symmetry) : Score :=
  let '(score, factors) :=
    if alignment ruleOfThirds >? fin 60
    then (fin 65 + fin 15, ["strong-thirds: +15"])
    else if alignment ruleOfThirds >? fin 30
    then (fin 65 + fin 8, ["moderate-thirds: +8"])
    else (fin 65, []) in
  let '(score, factors) :=
    if (bl_type balance =? "balanced") || (bl_type balance =? "symmetrical")
    then (score + fin 8, (factors ++ ["balanced: +8"])%list)
    else if bl_type balance =? "dynamic"
    then (score + fin 5, (factors ++ ["dynamic-balance: +5"])%list)
    else (score, factors) in
  let '(score, factors) :=
    if detected horizon
    then
      let '(score, factors) :=
        if negb (isLevel horizon) && (absTilt horizon >? fin 4)
        then (score - fin 8, (factors ++ ["tilted-horizon: -8"])%list)
        else (score, factors) in
      if hasQuality horizon "upper-third" || hasQuality horizon "lower-third"
      then (score + fin 5, (factors ++ ["horizon-on-third: +5"])%list)
      else (score, factors)
    else (score, factors) in
  let '(score, factors) :=
    if sy_type symmetry =? "horizontally-symmetric"
    then (score + fin 5, (factors ++ ["symmetric: +5"])%list)
    else (score, factors) in
  mkScore (max (fin 0) (min (fin 100) (round score))) factors
    (if score >=? fin 75 then "excellent"
     else if score >=? fin 60 then "good"
     else if score >=? fin 45 then "average" else "weak").

(** The entries of [analyzeComposition]'s result that are modelled (the
    leading-line entry, built on [Math.atan2], is left out).  The empty
    analysis carries only some of them, hence the options. *)
Record CompositionResult : Type := mkComposition {
  ruleOfThirds : RuleOfThirds;
  balance : Balance;
  horizon : Horizon;
  weightDistribution : option WeightDistribution;
  symmetry : Symmetry;
  score : Score
}.

Definition createEmptyAnalysis : CompositionResult :=
  mkComposition
    (mkRuleOfThirds (fin 0) None 0 None "unknown")
    (mkBalance None NaN NaN (fin 0) "unknown")
    (mkHorizon false None None None None)
    None
    (mkSymmetry NaN NaN (fin 0) "unknown")
    (mkScore (fin 0) [] "unknown").

End Composition.

(* ================================================================= *)
(** ** config/default.js *)

Module Config.
Import JS.
Local Open Scope string_scope.

(** A JS object used as a map from names to numbers, in insertion order. *)
Definition Weights : Type := list (string * num).

Definition landscape : Weights :=
  [ ("sharpness", fin 0.20); ("exposure", fin 0.25); ("composition", fin 0.25);
    ("dynamicRange", fin 0.15); ("horizonLevel", fin 0.10);
    ("noise", fin 0.05) ].

Definition general : Weights :=
  [ ("sharpness", fin 0.25); ("focusAccuracy", fin 0.15);
    ("exposure", fin 0.25); ("composition", fin 0.15); ("noise", fin 0.10);
    ("dynamicRange", fin 0.10) ].

(** [config.weights[mode]]; a name that is not a profile reads [undefined]. *)
Definition weights (mode : string) : option Weights :=
  if mode =? "landscape" then Some landscape
  else if mode =? "general" then Some general
  else None.

Record Thresholds : Type := mkThresholds {
  select : num;
  good : num;
  review : num;
  maybe : num;
  reject : num
}.

Definition thresholds : Thresholds :=
  mkThresholds (fin 72) (fin 58) (fin 45) (fin 30) (fin 0).

Record AutoReject : Type := mkAutoReject {
  motionBlurSeverity : num;
  defocusSeverity : num;
  highlightClip : num;
  shadowClip : num
}.

Definition autoReject : AutoReject :=
  mkAutoReject (fin 0.85) (fin 0.85) (fin 25) (fin 25).

(** [config.folders[category]]. *)
Definition folders (category : string) : option string :=
  if category =? "select" then Some "selects"
  else if category =? "good" then Some "good"
  else if category =? "review" then Some "review"
  else if category =? "maybe" then Some "maybe"
  else if category =? "reject" then Some "reject"
  else None.

End Config.

(* ================================================================= *)
(** ** scoringEngine.js *)

Module Scoring.
Import JS.
Local Open Scope string_scope.
Local Open Scope js_scope.

(** The EXIF entries the engine reads: [exif.exposure.iso] (possibly [null])
    and [exif.focus.continuous]. *)
Record Exif : Type := mkExif {
  iso : option num;
  continuous : bool
}.

Record Analyses : Type := mkAnalyses {
  exif : option Exif;
  histogram : option Histogram.HistogramResult;
  sharpness : option Sharpness.SharpnessResult;
  composition : option Composition.CompositionResult
}.

Record Options : Type := mkOptions {
  mode : string;
  customWeights : option Config.Weights
}.

(** [options = {}]: mode ['general'], no custom weights. *)
Definition defaultOptions : Options := mkOptions "general" None.

Record Scores : Type := mkScores {
  s_sharpness : num;
  s_exposure : num;
  s_focusAccuracy : num;
  s_composition : num;
  s_noise : num;
  s_dynamicRange : num;
  s_horizonLevel : option num
}.

(** [Object.entries(scores)]: [None] is the [null] entry. *)
Definition entries (scores : Scores) : list (string * option num) :=
  [ ("sharpness", Some (s_sharpness scores));
    ("exposure", Some (s_exposure scores));
    ("focusAccuracy", Some (s_focusAccuracy scores));
    ("composition", Some (s_composition scores));
    ("noise", Some (s_noise scores));
    ("dynamicRange", Some (s_dynamicRange scores));
    ("horizonLevel", s_horizonLevel scores) ].

(** [scores[key]]: [None] when the entry is [null] or there is none
    ([undefined]); names inherited from [Object.prototype] are not
    modelled. *)
Definition lookup (scores : Scores) (key : string) : option num :=
  match find (fun e => fst e =? key) (entries scores) with
  | Some (_, v) => v
  | None => None
  end.

Definition calculateSharpnessScore (sharpness : option Sharpness.SharpnessResult)
  : num :=
  match sharpness with
  | None => fin 50
  | Some sharpness =>
      let score := orElse (Sharpness.o_score (Sharpness.overall sharpness))
                          (fin 0) in
      max (fin 0) (min (fin 100) (round score))
  end.

Definition calculateExposureScore (histogram : option Histogram.HistogramResult)
  : num :=
  match histogram with
  | None => fin 50
  | Some histogram => orElse (Histogram.score histogram) (fin 50)
  end.

Definition calculateFocusAccuracyScore
  (sharpness : option Sharpness.SharpnessResult) (exif : option Exif) : num :=
  match sharpness with
  | None => fin 50
  | Some sharpness =>
      let sharpestRegions :=
        Sharpness.sharpestRegions (Sharpness.focusPlane sharpness) in
      let score :=
        if existsb (fun r => r =? "center") sharpestRegions then fin 85
        else if (0 <? List.length sharpestRegions)%nat then fin 75
        else fin 70 in
      let score :=
        match exif with
        | Some e => if continuous e then score - fin 5 else score
        | None => score
        end in
      max (fin 0) (min (fin 100) score)
  end.

(** [histogram?.exposure?.zones?.shadows], NaN standing for [undefined]. *)
Definition shadowZone (histogram : option Histogram.HistogramResult) : num :=
  match histogram with
  | Some h =>
      match Histogram.zones (Histogram.exposure h) with
      | Some z => Histogram.shadows z
      | None => NaN
      end
  | None => NaN
  end.

Definition calculateNoiseScore (exif : option Exif)
  (histogram : option Histogram.HistogramResult) : num :=
  match exif with
  | None => fin 80
  | Some e =>
      match iso e with
      | None => fin 80
      | Some iso =>
          if negb (truthy iso) then fin 80
          else
            let score :=
              if iso <=? fin 200 then fin 100
              else if iso <=? fin 400 then fin 95
              else if iso <=? fin 800 then fin 85
              else if iso <=? fin 1600 then fin 75
              else if iso <=? fin 3200 then fin 60
              else if iso <=? fin 6400 then fin 45
              else if iso <=? fin 12800 then fin 30
              else fin 15 in
            let score :=
              if (shadowZone histogram >? fin 30) && (iso >? fin 1600)
              then score - fin 10 else score in
            max (fin 0) (min (fin 100) score)
      end
  end.

Definition compositionScore (composition : option Composition.CompositionResult)
  : num :=
  match composition with
  | Some c => orElse (Composition.sc_score (Composition.score c)) (fin 60)
  | None => fin 60
  end.

Definition dynamicRangeScore (histogram : option Histogram.HistogramResult)
  : num :=
  match histogram with
  | Some h =>
      orElse (Histogram.percentage (Histogram.dynamicRange h)) (fin 60)
  | None => fin 60
  end.

Definition horizonLevelScore
  (composition : option Composition.CompositionResult) : option num :=
  match composition with
  | Some c =>
      let h := Composition.horizon c in
      if Composition.detected h
      then Some (if Composition.isLevel h then fin 100
                 else max (fin 50) (fin 100 - Composition.absTilt h * fin 5))
      else None
  | None => None
  end.

Definition calculateStarRating (score : num) : Z :=
  let thresholds := Config.thresholds in
  if score >=? Config.select thresholds then 5
  else if score >=? Config.good thresholds then 4
  else if score >=? Config.review thresholds then 3
  else if score >=? Config.maybe thresholds then 2
  else 1.

Record AutoRejectResult : Type := mkAutoRejectResult {
  shouldReject : bool;
  reasons : list string
}.

Definition blurIs (sharpness : option Sharpness.SharpnessResult) (t : string)
  : bool :=
  match sharpness with
  | Some s => Sharpness.b_type (Sharpness.blur s) =? t
  | None => false
  end.

Definition blurSeverity (s : option Sharpness.SharpnessResult) : num :=
  match s with
  | Some s => Sharpness.b_severity (Sharpness.blur s)
  | None => NaN
  end.

Definition highlightsClipped (h : option Histogram.HistogramResult) : num :=
  match h with
  | Some h => Histogram.clipped (Histogram.c_highlights (Histogram.clipping h))
  | None => NaN
  end.

Definition shadowsClipped (h : option Histogram.HistogramResult) : num :=
  match h with
  | Some h => Histogram.clipped (Histogram.c_shadows (Histogram.clipping h))
  | None => NaN
  end.

Definition checkAutoReject (analyses : Analyses) : AutoRejectResult :=
  let thresholds := Config.autoReject in
  let reasons := [] in
  let reasons :=
    if blurIs (sharpness analyses) "motion"
       && (blurSeverity (sharpness analyses)
           >=? Config.motionBlurSeverity thresholds)
    then (reasons ++ ["severe-motion-blur"])%list else reasons in
  let reasons :=
    if blurIs (sharpness analyses) "defocus"
       && (blurSeverity (sharpness analyses)
           >=? Config.defocusSeverity thresholds)
    then (reasons ++ ["severely-out-of-focus"])%list else reasons in
  let reasons :=
    if highlightsClipped (histogram analyses) >=? Config.highlightClip thresholds
    then (reasons ++ ["blown-highlights"])%list else reasons in
  let reasons :=
    if shadowsClipped (histogram analyses) >=? Config.shadowClip thresholds
    then (reasons ++ ["crushed-shadows"])%list else reasons in
  mkAutoRejectResult (0 <? List.length reasons)%nat reasons.

Record Classification : Type := mkClassification {
  category : string;
  folder : option string;
  strongest : option string;
  weakest : option string;
  autoReject : option (list string)
}.

Definition classifyImage (score : num) (scores : Scores) (analyses : Analyses)
  : Classification :=
  let thresholds := Config.thresholds in
  let category :=
    if score >=? Config.select thresholds then "select"
    else if score >=? Config.good thresholds then "good"
    else if score >=? Config.review thresholds then "review"
    else if score >=? Config.maybe thresholds then "maybe"
    else "reject" in
  let present :=
    flat_map (fun e => match snd e with
                       | Some v => [(fst e, v)]
                       | None => []
                       end) (entries scores) in
  let sortedScores := sortBy (fun a b => snd b - snd a) present in
  let strongest := option_map fst (hd_error sortedScores) in
  let weakest := option_map fst (hd_error (rev sortedScores)) in
  let autoReject := checkAutoReject analyses in
  let final := if shouldReject autoReject then "reject" else category in
  mkClassification final (Config.folders final) strongest weakest
    (if shouldReject autoReject then Some (reasons autoReject) else None).

Record Issue : Type := mkIssue {
  i_type : string;
  i_severity : string;
  message : string;
  suggestion : string
}.

(** Numbers printed into messages: [`${Math.round(x)}`] and
    [x.toFixed(1)] for a non-negative [x]. *)
Definition showZ (z : Z) : string := NilZero.string_of_int (Z.to_int z).

Definition showRounded (a : num) : string :=
  match round a with
  | Fin q => showZ (Qfloor q)
  | PInf => "Infinity"
  | NInf => "-Infinity"
  | NaN => "NaN"
  end.

Definition toFixed1 (a : num) : string :=
  match a with
  | Fin q =>
      let n := Qfloor (q * 10 + (1 # 2)) in
      showZ (n / 10) ++ "." ++ showZ (n mod 10)
  | PInf => "Infinity"
  | NInf => "-Infinity"
  | NaN => "NaN"
  end.

Definition severityIs (t : Histogram.Tail) (s : string) : bool :=
  match Histogram.severity t with Some v => v =? s | None => false end.

Definition generateIssuesList (scores : Scores) (analyses : Analyses)
  : list Issue :=
  let issues := [] in
  let issues :=
    if s_sharpness scores <? fin 60
    then
      if blurIs (sharpness analyses) "motion"
      then (issues ++ [mkIssue "sharpness" "high" "Motion blur detected"
                               "Use faster shutter speed"])%list
      else if blurIs (sharpness analyses) "defocus"
      then (issues ++ [mkIssue "sharpness" "high" "Subject out of focus"
                          "Check focus point or use smaller aperture"])%list
      else (issues ++ [mkIssue "sharpness" "medium" "Image is soft"
                          "Consider increasing sharpening in post"])%list
    else issues in
  let issues :=
    match histogram analyses with
    | Some h =>
        let exposure := Histogram.exposure h in
        if Histogram.assessment exposure =? "underexposed"
        then (issues ++ [mkIssue "exposure" "medium" "Underexposed"
                 "Increase exposure or brighten shadows in post"])%list
        else if Histogram.assessment exposure =? "overexposed"
        then (issues ++ [mkIssue "exposure" "medium" "Overexposed"
                 "Check for recoverable highlights"])%list
        else issues
    | None => issues
    end in
  let issues :=
    match histogram analyses with
    | Some h =>
        let highlights := Histogram.c_highlights (Histogram.clipping h) in
        if severityIs highlights "moderate" || severityIs highlights "severe"
        then (issues ++
              [mkIssue "clipping"
                 (if severityIs highlights "severe" then "high" else "medium")
                 (showRounded (Histogram.clipped highlights)
                  ++ "% highlights blown")
                 (if Histogram.clipped highlights <? fin 10
                  then "May be recoverable" else "Likely unrecoverable")])%list
        else issues
    | None => issues
    end in
  let issues :=
    match composition analyses with
    | Some c =>
        let h := Composition.horizon c in
        if Composition.detected h && negb (Composition.isLevel h)
        then
          let tilt := Composition.absTilt h in
          if tilt >? fin 2
          then (issues ++
                [mkIssue "composition"
                   (if tilt >? fin 5 then "medium" else "low")
                   ("Horizon tilted " ++ toFixed1 tilt ++ "Â°")
                   "Straighten in post"])%list
          else issues
        else issues
    | None => issues
    end in
  let issues :=
    if s_noise scores <? fin 50
    then (issues ++ [mkIssue "noise" "low"
                       "High ISO may result in visible noise"
                       "Apply noise reduction in post"])%list
    else issues in
  issues.

Definition countSeverity (s : string) (issues : list Issue) : num :=
  ofZ (Z.of_nat (List.length (filter (fun i => i_severity i =? s) issues))).

Definition calculateKeeperProbability (score : num) (issues : list Issue)
  : num :=
  let probability := score / fin 100 in
  let probability := probability - countSeverity "high" issues * fin 0.15 in
  let probability := probability - countSeverity "medium" issues * fin 0.05 in
  max (fin 0) (min (fin 1) (round (probability * fin 100) / fin 100)).

(** The weighted sum and the weight total accumulated by the loop over
    [Object.entries(actualWeights)]. *)
Definition accumulate (scores : Scores) (actualWeights : Config.Weights)
  : num * num :=
  fold_left (fun '(weightedSum, weightTotal) '(key, weight) =>
               match lookup scores key with
               | Some v => (weightedSum + v * weight, weightTotal + weight)
               | None => (weightedSum, weightTotal)
               end)
            actualWeights (fin 0, fin 0).

Definition overallOf (scores : Scores) (actualWeights : Config.Weights) : num :=
  let '(weightedSum, weightTotal) := accumulate scores actualWeights in
  if weightTotal >? fin 0 then weightedSum / weightTotal else fin 0.

Definition actualModeOf (options : Options) : string :=
  if mode options =? "portrait" then "general" else mode options.

Definition actualWeightsOf (options : Options) : Config.Weights :=
  match customWeights options with
  | Some w => w
  | None =>
      match Config.weights (actualModeOf options) with
      | Some w => w
      | None => Config.general
      end
  end.

Definition scoresOf (analyses : Analyses) : Scores :=
  mkScores
    (calculateSharpnessScore (sharpness analyses))
    (calculateExposureScore (histogram analyses))
    (calculateFocusAccuracyScore (sharpness analyses) (exif analyses))
    (compositionScore (composition analyses))
    (calculateNoiseScore (exif analyses) (histogram analyses))
    (dynamicRangeScore (histogram analyses))
    (horizonLevelScore (composition analyses)).

Record ScoreResult : Type := mkScoreResult {
  scores : Scores;
  overall : num;
  rating : Z;
  classification : Classification;
  issues : list Issue;
  keeperProbability : num;
  r_mode : string;
  r_weights : Config.Weights
}.

Definition calculateScores (analyses : Analyses) (options : Options)
  : ScoreResult :=
  let actualMode := actualModeOf options in
  let actualWeights := actualWeightsOf options in
  let scores := scoresOf analyses in
  let overallScore := overallOf scores actualWeights in
  let rating := calculateStarRating overallScore in
  let classification := classifyImage overallScore scores analyses in
  let issues := generateIssuesList scores analyses in
  let keeperProbability := calculateKeeperProbability overallScore issues in
  mkScoreResult scores (round overallScore) rating classification issues
    keeperProbability actualMode actualWeights.

Record Comparison : Type := mkComparison {
  winner : string;
  scoreDiff : num;
  cmp_sharpness : num;
  cmp_exposure : num;
  cmp_composition : num
}.

Definition compareImages (scoreA scoreB : ScoreResult) : Comparison :=
  let diff := overall scoreA - overall scoreB in
  mkComparison
    (if diff >? fin 0 then "A" else if diff <? fin 0 then "B" else "tie")
    (abs diff)
    (orElse (s_sharpness (scores scoreA)) (fin 0)
     - orElse (s_sharpness (scores scoreB)) (fin 0))
    (orElse (s_exposure (scores scoreA)) (fin 0)
     - orElse (s_exposure (scores scoreB)) (fin 0))
    (orElse (s_composition (scores scoreA)) (fin 0)
     - orElse (s_composition (scores scoreB)) (fin 0)).

(** The entries of an analysed image (a result of [analyzeImage]) that
    [findBestInGroup] and the callers in [imageAnalyzer.js] and
    [reportGenerator.js] read: [file.name], [success],
    [exif.timestamp.taken] and [scoring].  [taken] holds the time value
    [new Date(taken).getTime()] of a timestamp that is there (NaN for an
    invalid date); [None] is a missing or [null] timestamp. *)
Record AnalyzedImage : Type := mkImage {
  name : string;
  success : bool;
  taken : option num;
  scoring : option ScoreResult
}.

(** [img.scoring?.overall || 0]. *)
Definition overallOrZero (img : AnalyzedImage) : num :=
  orElse (match scoring img with Some s => overall s | None => NaN end)
         (fin 0).

Record ScoreEntry : Type := mkScoreEntry {
  se_index : nat;
  se_score : num;
  isBest : bool
}.

(** The singleton result has no [scores] entry. *)
Record BestInGroup : Type := mkBest {
  best : AnalyzedImage;
  best_index : nat;
  best_scores : option (list ScoreEntry)
}.

Definition findBestInGroup (images : list AnalyzedImage) : option BestInGroup :=
  match images with
  | [] => None
  | [only] => Some (mkBest only 0 None)
  | first :: _ =>
      let '(bestIndex, bestScore) :=
        fold_left (fun '(bestIndex, bestScore) i =>
                     let score := overallOrZero (nth i images first) in
                     if score >? bestScore then (i, score)
                     else (bestIndex, bestScore))
                  (seq 1 (List.length images - 1))
                  (0%nat, overallOrZero first) in
      Some (mkBest (nth bestIndex images first) bestIndex
              (Some (map (fun '(i, img) =>
                            mkScoreEntry i (overallOrZero img)
                                         (Nat.eqb i bestIndex))
                         (combine (seq 0 (List.length images)) images))))
  end.

End Scoring.

(* ================================================================= *)
(** ** reportGenerator.js *)

Module Report.
Import JS Scoring.
Local Open Scope string_scope.
Local Open Scope js_scope.

Definition getScoreClass (score : num) : string :=
  if score >=? fin 90 then "score-excellent"
  else if score >=? fin 75 then "score-good"
  else if score >=? fin 60 then "score-average"
  else "score-poor".

(** [obj[key] = (obj[key] || 0) + 1] on an object used as a map from names
    to counts, in insertion order.  The keys the code passes (the category
    names of [classifyImage], ['unknown'] and the issue messages) are no
    array indices, which JS would enumerate first, and no names inherited
    from [Object.prototype]; such keys are not modelled. *)
Fixpoint countUp (counts : list (string * num)) (key : string)
  : list (string * num) :=
  match counts with
  | [] => [(key, fin 0 + fin 1)]
  | (k, v) :: rest =>
      if k =? key then (k, orElse v (fin 0) + fin 1) :: rest
      else (k, v) :: countUp rest key
  end.

(** An integer key that JS treats as an array index: such keys are
    enumerated first, in ascending order. *)
Definition isIndex (key : Z) : bool :=
  ((0 <=? key) && (key <? 2 ^ 32 - 1))%Z.

(** [byRating[rating]++]: a rating that is no key of the object reads
    [undefined], and the increment stores NaN under it, at the place where
    JS enumerates the new key. *)
Fixpoint increment (counts : list (Z * num)) (key : Z) : list (Z * num) :=
  match counts with
  | [] => [(key, NaN)]
  | (k, v) :: rest =>
      if (k =? key)%Z then (k, v + fin 1) :: rest
      else if isIndex key && (negb (isIndex k) || (key <? k)%Z)
      then (key, NaN) :: (k, v) :: rest
      else (k, v) :: increment rest key
  end.

(** [Math.min(...xs)]. *)
Definition minOf (xs : list num) : num := fold_left min xs PInf.

(** [result.scoring?.classification?.category || 'unknown'] and
    [result.scoring?.rating || 1]. *)
Definition categoryOrUnknown (r : AnalyzedImage) : string :=
  match scoring r with
  | Some s => if category (classification s) =? "" then "unknown"
              else category (classification s)
  | None => "unknown"
  end.

Definition ratingOrOne (r : AnalyzedImage) : Z :=
  match scoring r with
  | Some s => if (rating s =? 0)%Z then 1%Z else rating s
  | None => 1%Z
  end.

(** [result.scoring?.scores?.sharpness || 0] and the like. *)
Definition subScoreOrZero (f : Scores -> num) (r : AnalyzedImage) : num :=
  orElse (match scoring r with Some s => f (scores s) | None => NaN end)
         (fin 0).

Definition issuesOrNone (r : AnalyzedImage) : list Issue :=
  match scoring r with Some s => issues s | None => [] end.

Record ScoreHistogram : Type := mkScoreHistogram {
  labels : list string;
  sh_data : list num
}.

Record Statistics : Type := mkStatistics {
  total : nat;
  failed : nat;
  avgScore : num;
  minScore : num;
  maxScore : num;
  byCategory : list (string * num);
  byRating : list (Z * num);
  avgSharpness : num;
  avgExposure : num;
  avgFocus : num;
  avgComposition : num;
  scoreHistogram : ScoreHistogram;
  commonIssues : list (string * num)
}.

(** [calculateStatistics].  The keys of [byRating] are listed in the order JS
    enumerates them: [{ 5: 0, 4: 0, 3: 0, 2: 0, 1: 0 }] has the keys 1 to
    5. *)
Definition calculateStatistics (results : list AnalyzedImage) : Statistics :=
  let scores := map overallOrZero results in
  let len := ofZ (Z.of_nat (List.length scores)) in
  let nonEmpty := (0 <? List.length scores)%nat in
  let '(byCategory, byRating, sharpnessSum, exposureSum, focusSum,
        compositionSum, commonIssues) :=
    fold_left (fun '(byCategory, byRating, sharpnessSum, exposureSum,
                     focusSum, compositionSum, commonIssues) result =>
                 (countUp byCategory (categoryOrUnknown result),
                  increment byRating (ratingOrOne result),
                  sharpnessSum + subScoreOrZero s_sharpness result,
                  exposureSum + subScoreOrZero s_exposure result,
                  focusSum + subScoreOrZero s_focusAccuracy result,
                  compositionSum + subScoreOrZero s_composition result,
                  fold_left (fun commonIssues issue =>
                               countUp commonIssues (message issue))
                            (issuesOrNone result) commonIssues))
              results
              ([], [(1, fin 0); (2, fin 0); (3, fin 0); (4, fin 0);
                    (5, fin 0)]%Z,
               fin 0, fin 0, fin 0, fin 0, []) in
  let n := orElse (ofZ (Z.of_nat (List.length results))) (fin 1) in
  let buckets :=
    fold_left (fun buckets score =>
                 Histogram.bump buckets (min (fin 9) (floor (score / fin 10))))
              scores (repeat (fin 0) 10) in
  mkStatistics
    (List.length results) 0
    (if nonEmpty then round (fold_left add scores (fin 0) / len) else fin 0)
    (if nonEmpty then minOf scores else fin 0)
    (if nonEmpty then Histogram.maxOf scores else fin 0)
    byCategory byRating
    (round (sharpnessSum / n)) (round (exposureSum / n))
    (round (focusSum / n)) (round (compositionSum / n))
    (mkScoreHistogram
       ["0-9"; "10-19"; "20-29"; "30-39"; "40-49"; "50-59"; "60-69"; "70-79";
        "80-89"; "90-100"]
       buckets)
    (sortBy (fun a b => snd b - snd a) commonIssues).

End Report.

(* ================================================================= *)
(** ** imageAnalyzer.js *)

Module Analyzer.
Import JS Scoring.
Local Open Scope string_scope.
Local Open Scope js_scope.

(** [x || 'unknown'] on a label. *)
Definition orUnknown (s : string) : string :=
  if s =? "" then "unknown" else s.

(** The successful result of [quickAnalyze] (the file name and the timing
    are left out). *)
Record QuickResult : Type := mkQuickResult {
  q_success : bool;
  q_score : num;
  q_rating : Z;
  q_category : string;
  q_sharpness : string;
  q_exposure : string
}.

(** [quickAnalyze] once the preview is there.  The decoder is external:
    [rgb] is the raw buffer [computeHistogram] obtains from it and [gray] the
    grayscale buffer of [analyzeSharpness]; [None] stands for a decoder that
    threw, which either analyzer answers with its empty analysis. *)
Definition quickAnalyze (exif : Exif) (rgb gray : option PixelBuffer)
  (rand : Sharpness.Random) : QuickResult :=
  let histogram := Histogram.analyzeHistogram rgb in
  let sharpness := Sharpness.analyzeSharpness gray rand in
  let scoring :=
    calculateScores
      (mkAnalyses (Some exif) (Some histogram) (Some sharpness) None)
      (mkOptions "general" None) in
  mkQuickResult true (overall scoring) (rating scoring)
    (category (classification scoring))
    (orUnknown (Sharpness.o_assessment (Sharpness.overall sharpness)))
    (orUnknown (Histogram.assessment (Histogram.exposure histogram))).

(** [new Date(img.exif.timestamp.taken).getTime()] of an image that passed
    the filter on [taken]. *)
Definition timeOf (img : AnalyzedImage) : num :=
  match taken img with Some t => t | None => NaN end.

(** The images that succeeded and carry a timestamp, oldest first. *)
Definition sortedByTime (analyzedImages : list AnalyzedImage)
  : list AnalyzedImage :=
  sortBy (fun a b => timeOf a - timeOf b)
         (filter (fun img =>
                    success img
                    && match taken img with Some _ => true | None => false end)
                 analyzedImages).

(** The time of [group[0]] and of [group[group.length - 1]]. *)
Definition firstTime (group : list AnalyzedImage) : num :=
  match group with img :: _ => timeOf img | [] => NaN end.

Definition lastTime (group : list AnalyzedImage) : num :=
  match rev group with img :: _ => timeOf img | [] => NaN end.

Record BurstGroup : Type := mkBurstGroup {
  bg_images : list AnalyzedImage;
  bg_size : nat;
  timeSpan : num
}.

(** [detectBurstGroups]; [maxIntervalMs] defaults to 1000. *)
Definition detectBurstGroups (analyzedImages : list AnalyzedImage)
  (maxIntervalMs : num) : list BurstGroup :=
  let sorted := sortedByTime analyzedImages in
  let '(groups, currentGroup) :=
    fold_left (fun '(groups, currentGroup) current =>
      let currentTime := timeOf current in
      match currentGroup with
      | [] => (groups, [current])
      | _ :: _ =>
          let interval := currentTime - lastTime currentGroup in
          if interval <=? maxIntervalMs
          then (groups, (currentGroup ++ [current])%list)
          else
            ((if (2 <=? List.length currentGroup)%nat
              then (groups ++
                    [mkBurstGroup currentGroup (List.length currentGroup)
                       (currentTime - firstTime currentGroup)])%list
              else groups),
             [current])
      end)
      sorted ([], []) in
  if (2 <=? List.length currentGroup)%nat
  then (groups ++
        [mkBurstGroup currentGroup (List.length currentGroup)
           (lastTime currentGroup - firstTime currentGroup)])%list
  else groups.

Record SessionStats : Type := mkSessionStats {
  averageScore : num;
  ss_minScore : num;
  ss_maxScore : num
}.

(** The [startTime] and [endTime] dates are given by their time values. *)
Record Session : Type := mkSession {
  s_index : nat;
  s_images : list AnalyzedImage;
  count : nat;
  startTime : num;
  endTime : num;
  duration : num;
  stats : SessionStats
}.

Definition createSessionSummary (images : list AnalyzedImage) (index : nat)
  : Session :=
  let firstTime := firstTime images in
  let lastTime := lastTime images in
  let scores := map overallOrZero images in
  let avgScore :=
    fold_left add scores (fin 0) / ofZ (Z.of_nat (List.length scores)) in
  mkSession index images (List.length images) firstTime lastTime
    (lastTime - firstTime)
    (mkSessionStats (round avgScore) (Report.minOf scores)
                    (Histogram.maxOf scores)).

(** [detectSessions]; [gapMinutes] defaults to 30. *)
Definition detectSessions (analyzedImages : list AnalyzedImage)
  (gapMinutes : num) : list Session :=
  let gapMs := gapMinutes * fin 60 * fin 1000 in
  let sorted := sortedByTime analyzedImages in
  let '(sessions, currentSession) :=
    fold_left (fun '(sessions, currentSession) current =>
      let currentTime := timeOf current in
      match currentSession with
      | [] => (sessions, [current])
      | _ :: _ =>
          if currentTime - lastTime currentSession <=? gapMs
          then (sessions, (currentSession ++ [current])%list)
          else
            ((sessions ++
              [createSessionSummary currentSession
                 (List.length sessions + 1)])%list,
             [current])
      end)
      sorted ([], []) in
  if (0 <? List.length currentSession)%nat
  then (sessions ++
        [createSessionSummary currentSession (List.length sessions + 1)])%list
  else sessions.

End Analyzer.

(* ================================================================= *)
(** ** The specification's own words *)

Module Spec.
Import JS.
Local Open Scope string_scope.

(** Order between a JS number and a rational bound; NaN is related to
    nothing. *)
Definition atLeast (a : num) (t : Q) : Prop :=
  match a with
  | Fin q => (t <= q)%Q
  | PInf => True
  | _ => False
  end.

Definition above (a : num) (t : Q) : Prop :=
  match a with
  | Fin q => (t < q)%Q
  | PInf => True
  | _ => False
  end.

Definition within (a : num) (lo hi : Q) : Prop :=
  exists q, a = Fin q /\ (lo <= q <= hi)%Q.

(** [denotes a q]: the JS number [a] is finite and its value is [q]. *)
Definition denotes (a : num) (q : Q) : Prop :=
  exists r, a = Fin r /\ (r == q)%Q.

(** What the engines hand to the scoring engine: a score between 0 and 100
    (or NaN, which [||] replaces by the default), and a horizon tilt that is
    a number. *)
Definition engineScore (a : num) : Prop := a = NaN \/ within a 0 100.

Definition wfAnalyses (a : Scoring.Analyses) : Prop :=
  (forall h, Scoring.histogram a = Some h ->
             engineScore (Histogram.score h)
             /\ engineScore (Histogram.percentage (Histogram.dynamicRange h)))
  /\ (forall c, Scoring.composition a = Some c ->
                engineScore (Composition.sc_score (Composition.score c))
                /\ Composition.tilt (Composition.horizon c) <> Some NaN).

(** A weight map with finite, non-negative weights. *)
Definition wfWeights (w : Config.Weights) : Prop :=
  Forall (fun e => exists q, snd e = Fin q /\ (0 <= q)%Q) w.

(** The blur analyses the sharpness score penalises: type ['motion'] or
    ['defocus'] with a severity above 0.6. *)
Definition penalised (b : Sharpness.Blur) : Prop :=
  (Sharpness.b_type b = "motion" \/ Sharpness.b_type b = "defocus")
  /\ above (Sharpness.b_severity b) 0.6.

(** Histogram buckets hold non-negative finite numbers; after the first
    pixel one of them is positive. *)
Definition bucket (a : num) : Prop := exists q, a = fin q /\ (0 <= q)%Q.
Definition filled (a : num) : Prop := exists q, a = fin q /\ (0 < q)%Q.

(** A grid region without any detail: its Laplacian variance is 0. *)
Definition flat (r : Sharpness.Region) : Prop :=
  Sharpness.r_sharpness r = fin 0.

(** The star rating by thresholds, highest qualifying threshold first. *)
Definition ratingOf (q : Q) : Z :=
  if Qle_bool 72 q then 5
  else if Qle_bool 58 q then 4
  else if Qle_bool 45 q then 3
  else if Qle_bool 30 q then 2
  else 1.

(** The category by the same thresholds. *)
Definition categoryOf (q : Q) : string :=
  if Qle_bool 72 q then "select"
  else if Qle_bool 58 q then "good"
  else if Qle_bool 45 q then "review"
  else if Qle_bool 30 q then "maybe"
  else "reject".

(** The four auto-reject conditions. *)
Definition autoRejectCondition (a : Scoring.Analyses) : Prop :=
  (Scoring.blurIs (Scoring.sharpness a) "motion" = true
   /\ atLeast (Scoring.blurSeverity (Scoring.sharpness a)) 0.85)
  \/ (Scoring.blurIs (Scoring.sharpness a) "defocus" = true
      /\ atLeast (Scoring.blurSeverity (Scoring.sharpness a)) 0.85)
  \/ atLeast (Scoring.highlightsClipped (Scoring.histogram a)) 25
  \/ atLeast (Scoring.shadowsClipped (Scoring.histogram a)) 25.

(** The weighted average over the sub-scores that are present: the entries
    of the weight map whose sub-score exists and is not null. *)
Definition contributes (scores : Scoring.Scores) (e : string * num) : bool :=
  match Scoring.lookup scores (fst e) with Some _ => true | None => false end.

Definition valueOf (scores : Scoring.Scores) (key : string) : num :=
  match Scoring.lookup scores key with Some v => v | None => fin 0 end.

Definition weightedAverage (scores : Scoring.Scores) (w : Config.Weights)
  : num :=
  let present := filter (contributes scores) w in
  let numerator :=
    fold_left add (map (fun e => mul (valueOf scores (fst e)) (snd e)) present)
              (fin 0) in
  let denominator := fold_left add (map snd present) (fin 0) in
  if gt denominator (fin 0) then div numerator denominator else fin 0.

(** The weighted average that would result from counting a missing
    sub-score as zero: every weight enters the denominator. *)
Definition zeroFilledAverage (scores : Scoring.Scores) (w : Config.Weights)
  : num :=
  let numerator :=
    fold_left add (map (fun e => mul (valueOf scores (fst e)) (snd e)) w)
              (fin 0) in
  let denominator := fold_left add (map snd w) (fin 0) in
  if gt denominator (fin 0) then div numerator denominator else fin 0.

(** [scores] with another focus-accuracy entry. *)
Definition withFocusAccuracy (v : num) (s : Scoring.Scores) : Scoring.Scores :=
  Scoring.mkScores (Scoring.s_sharpness s) (Scoring.s_exposure s) v
    (Scoring.s_composition s) (Scoring.s_noise s) (Scoring.s_dynamicRange s)
    (Scoring.s_horizonLevel s).

(** The number of issues of one severity. *)
Definition countOf (s : string) (issues : list Scoring.Issue) : Z :=
  Z.of_nat (List.length
              (filter (fun i => Scoring.i_severity i =? s) issues)).







End Spec.

(* ================================================================= *)
(** ** Concrete inputs *)

Module Examples.
Import JS.
Local Open Scope string_scope.

(** A single RGB pixel of gray level 180. *)
Definition gray180 : PixelBuffer := mkBuffer [180; 180; 180]%Z 1 1 3.

(** A 16 x 15 grayscale frame: flat level 7, dropping to 0 in the last two
    columns. *)
Definition stepEdge : PixelBuffer :=
  mkBuffer (flat_map (fun _ => map (fun x => if (x <=? 13)%Z then 7 else 0)%Z
                                   (range 0 16))
                     (range 0 15))
           16 15 1.

(** Two runs of [Math.random]: every draw 0, or every fourth draw 15/16. *)
Definition drawsA : Sharpness.Random := fun _ => 0%Q.
Definition drawsB : Sharpness.Random :=
  fun n => if (n mod 4 =? 2)%nat then (15 # 16)%Q else 0%Q.

(** Draws that agree with [drawsB] for the first forty calls only. *)
Definition drawsLate : Sharpness.Random :=
  fun n => if (n <? 40)%nat then drawsB n else (1 # 2)%Q.

(** Grayscale frames of one value: an all-black 16 x 16 frame, a mid-gray
    2 x 2 frame and a mid-gray 10 x 10 frame. *)
Definition uniform (v w h : Z) : PixelBuffer :=
  mkBuffer (repeat v (Z.to_nat (w * h))) w h 1.
Definition black16 : PixelBuffer := uniform 0 16 16.
Definition gray2 : PixelBuffer := uniform 128 2 2.
Definition gray10 : PixelBuffer := uniform 128 10 10.

(** Engine results for the scoring engine, given by the entries it reads. *)
Definition sharpnessResult (score : Q) (blurType : string) (severity : Q)
  (position : string) (sharpest : list string) : Sharpness.SharpnessResult :=
  Sharpness.mkSharpness
    (Sharpness.mkOverall (fin 150) (fin score)
                         (Sharpness.getSharpnessAssessment (fin score)))
    (Sharpness.mkRegions [] (fin 0) (fin 0) (fin 0))
    (Sharpness.mkBlur blurType (fin severity) None None)
    (Sharpness.mkEdges (fin 40) (fin 1) "moderate")
    (Sharpness.mkFocusPlane position sharpest (fin 2, fin 2)).

Definition histogramResult (score range highlights shadows : Q)
  : Histogram.HistogramResult :=
  Histogram.mkHistogram None
    (Histogram.mkExposure (fin 130) "well-exposed" (fin 0)
       (Some (Histogram.mkZones (fin 20) (fin 60) (fin 20))) (Some "normal"))
    (Histogram.mkClipping
       (Histogram.mkTail (fin shadows) (fin 0)
                         (Some (Histogram.getSeverity (fin shadows))))
       (Histogram.mkTail (fin highlights) (fin 0)
                         (Some (Histogram.getSeverity (fin highlights))))
       (fin (shadows + highlights)) true)
    (Histogram.mkDynamicRange (fin 0) (fin 255) (fin 255) (fin range) "good")
    (fin score).

Definition compositionResult (score : Q) : Composition.CompositionResult :=
  Composition.mkComposition
    (Composition.mkRuleOfThirds (fin 0) None 0 None "weak")
    (Composition.mkBalance None (fin 100) (fin 100) (fin 100) "symmetrical")
    (Composition.mkHorizon false None None None None)
    None
    (Composition.mkSymmetry (fin 100) (fin 100) (fin 100)
                            "horizontally-symmetric")
    (Composition.mkScore (fin score) [] "good").

Definition exifAt (iso : Q) : Scoring.Exif :=
  Scoring.mkExif (Some (fin iso)) false.

(** Perfect sub-scores, but a motion blur of severity 0.9. *)
Definition shaken : Scoring.Analyses :=
  Scoring.mkAnalyses (Some (exifAt 100))
    (Some (histogramResult 100 100 0 0))
    (Some (sharpnessResult 100 "motion" 0.9 "center"
             ["center"; "top"; "left"; "right"; "bottom"]))
    (Some (compositionResult 100)).

(** The same frame without blur. *)
Definition steady : Scoring.Analyses :=
  Scoring.mkAnalyses (Some (exifAt 100))
    (Some (histogramResult 100 100 0 0))
    (Some (sharpnessResult 100 "none" 0 "center"
             ["center"; "top"; "left"; "right"; "bottom"]))
    (Some (compositionResult 100)).

(** Two frames without composition analysis that differ in one sub-score:
    the weighted averages are 71.6 and 72.4. *)
Definition upperRegions : list string :=
  ["top-left"; "top"; "top-right"; "left"; "right"].

Definition justBelow : Scoring.Analyses :=
  Scoring.mkAnalyses (Some (exifAt 1600))
    (Some (histogramResult 73 76 0 0))
    (Some (sharpnessResult 72 "none" 0 "top" upperRegions))
    None.

Definition justAbove : Scoring.Analyses :=
  Scoring.mkAnalyses (Some (exifAt 1600))
    (Some (histogramResult 73 84 0 0))
    (Some (sharpnessResult 72 "none" 0 "top" upperRegions))
    None.


(** Sub-scores of 90 throughout and no horizon. *)
Definition ninety : Scoring.Scores :=
  Scoring.mkScores (fin 90) (fin 90) (fin 90) (fin 90) (fin 90) (fin 90) None.

(** One issue of each severity. *)
Definition someIssues : list Scoring.Issue :=
  [ Scoring.mkIssue "sharpness" "high" "Motion blur detected"
                    "Use faster shutter speed";
    Scoring.mkIssue "exposure" "medium" "Underexposed"
                    "Increase exposure or brighten shadows in post";
    Scoring.mkIssue "noise" "low" "High ISO may result in visible noise"
                    "Apply noise reduction in post" ].

End Examples.

(* ================================================================= *)
(** ** Notions used by the properties of the code *)

Module Notions.
Import JS.
Local Open Scope string_scope.

(** A JS number that is an integer between two bounds. *)
Definition integerIn (a : num) (lo hi : Z) : Prop :=
  exists z, a = ofZ z /\ (lo <= z <= hi)%Z.

(** Order between a JS number and a rational bound, from above; NaN is
    related to nothing. *)
Definition atMost (a : num) (t : Q) : Prop :=
  match a with
  | Fin q => (q <= t)%Q
  | NInf => True
  | _ => False
  end.

Definition below (a : num) (t : Q) : Prop :=
  match a with
  | Fin q => (q < t)%Q
  | NInf => True
  | _ => False
  end.

(** A number that is neither NaN nor +Infinity, and one that is finite or
    NaN. *)
Definition lowOrFinite (a : num) : Prop :=
  match a with
  | Fin _ | NInf => True
  | _ => False
  end.

Definition finiteOrNaN (a : num) : Prop :=
  match a with
  | Fin _ | NaN => True
  | _ => False
  end.

Definition finite (a : num) : Prop := exists q, a = Fin q.

(** A rounded average of non-negative magnitudes: NaN, or a finite number
    that is not negative. *)
Definition magnitude (a : num) : Prop :=
  a = NaN \/ exists x, a = Fin x /\ (0 <= x)%Q.

(** A grayscale frame that equals its mirror image, left to right. *)
Definition mirrored (b : PixelBuffer) : Prop :=
  forall x y : Z,
    (0 <= x < width b)%Z -> (0 <= y < height b)%Z ->
    get (data b) (y * width b + x)
    = get (data b) (y * width b + (width b - 1 - x)).

(** [R] holds between every two neighbours of a list. *)
Definition adjacent {A : Type} (R : A -> A -> Prop) (l : list A) : Prop :=
  forall pre a b post, l = (pre ++ a :: b :: post)%list -> R a b.

(** The ten-point band [k] of a score: [10k .. 10k+9] below 90, and
    everything from 90 up in the last band. *)
Definition inBand (k : nat) (score : num) : bool :=
  if (k =? 9)%nat then ge score (fin 90)
  else ge score (ofZ (10 * Z.of_nat k))
       && lt score (ofZ (10 * Z.of_nat k + 10)).


(** The category that goes with a star rating: both come from the same
    thresholds. *)
Definition tierOf (rating : Z) : string :=
  if (rating =? 5)%Z then "select"
  else if (rating =? 4)%Z then "good"
  else if (rating =? 3)%Z then "review"
  else if (rating =? 2)%Z then "maybe"
  else "reject".

End Notions.

(* ================================================================= *)
(** ** Further concrete inputs *)

Module Samples.
Import JS.
Local Open Scope string_scope.

(** One white RGB pixel, one grayscale pixel (a buffer of one channel), and a
    3 x 2 grayscale frame that equals its mirror image. *)
Definition whitePixel : PixelBuffer := mkBuffer [255; 255; 255]%Z 1 1 3.
Definition grayPixel : PixelBuffer := mkBuffer [128]%Z 1 1 1.
Definition mirroredFrame : PixelBuffer :=
  mkBuffer [10; 20; 10; 30; 40; 30]%Z 3 2 1.

(** Region maps of two cells: one with detail, one without. *)
Definition twoRegions : Sharpness.Regions :=
  Sharpness.mkRegions
    [ Sharpness.mkRegion 0 0 (fin 12) "top-left" (fin 0.4);
      Sharpness.mkRegion 1 0 (fin 30) "top" (fin 1) ]
    (fin 30) (fin 12) (fin 81).

Definition flatRegions : Sharpness.Regions :=
  Sharpness.mkRegions
    [ Sharpness.mkRegion 0 0 (fin 0) "top-left" (fin 0);
      Sharpness.mkRegion 1 0 (fin 0) "top" (fin 0) ]
    (fin 0) (fin 0) (fin 0).

(** Sub-scores with the noise score on top and the dynamic range at the
    bottom. *)
Definition mixed : Scoring.Scores :=
  Scoring.mkScores (fin 80) (fin 65) (fin 70) (fin 60) (fin 95) (fin 40) None.


End Samples.

(* ================================================================= *)
(** * Properties *)

Local Open Scope Q_scope.
Local Open Scope string_scope.

(* ================================================================= *)
(** ** Basic facts about JS numbers *)

Section NumFacts.
Import JS.

Lemma cmp_fin (q t : Q) : cmp (Fin q) (fin t) = Some (q ?= t)%Q.
Proof.
  unfold fin; simpl. now rewrite (Qred_correct t).
Qed.

Lemma ge_fin_iff (a : num) (t : Q) : ge a (fin t) = true <-> Spec.atLeast a t.
Proof.
  destruct a as [q| | |]; unfold ge; [rewrite cmp_fin|simpl..];
    try (split; [discriminate || tauto | tauto || discriminate]).
  simpl. rewrite Qle_alt, <- (Qcompare_antisym q t).
  destruct (q ?= t)%Q; simpl; split; congruence.
Qed.

Lemma gt_fin_iff (a : num) (t : Q) : gt a (fin t) = true <-> Spec.above a t.
Proof.
  destruct a as [q| | |]; unfold gt; [rewrite cmp_fin|simpl..];
    try (split; [discriminate || tauto | tauto || discriminate]).
  simpl. rewrite Qlt_alt, <- (Qcompare_antisym q t).
  destruct (q ?= t)%Q; simpl; split; congruence.
Qed.

Lemma lt_Fin_iff (q t : Q) : lt (Fin q) (fin t) = true <-> (q < t)%Q.
Proof.
  unfold lt. rewrite cmp_fin, Qlt_alt.
  destruct (q ?= t)%Q; split; congruence.
Qed.

Lemma le_Fin_iff (q t : Q) : le (Fin q) (fin t) = true <-> (q <= t)%Q.
Proof.
  unfold le. rewrite cmp_fin, Qle_alt.
  destruct (q ?= t)%Q; split; congruence.
Qed.

End NumFacts.

(* ================================================================= *)
(** ** Finite values and their rational denotation *)

Section Denotation.
Import JS.

Lemma denotes_Fin (q : Q) : Spec.denotes (Fin q) q.
Proof. exists q. split; reflexivity. Qed.

Lemma denotes_fin (q : Q) : Spec.denotes (fin q) q.
Proof. exists (Qred q). split; [reflexivity | apply Qred_correct]. Qed.

Lemma denotes_ofZ (z : Z) : Spec.denotes (ofZ z) (inject_Z z).
Proof. apply denotes_Fin. Qed.

Lemma denotes_eq (a : num) (p q : Q) :
  Spec.denotes a p -> (p == q)%Q -> Spec.denotes a q.
Proof. intros (r & -> & H) E. exists r. split; [reflexivity | now rewrite H]. Qed.

Lemma denotes_add (a b : num) (p q : Q) :
  Spec.denotes a p -> Spec.denotes b q -> Spec.denotes (add a b) (p + q).
Proof.
  intros (r & -> & Hr) (s & -> & Hs). eapply denotes_eq.
  - apply denotes_fin.
  - now rewrite Hr, Hs.
Qed.

Lemma denotes_neg (a : num) (p : Q) :
  Spec.denotes a p -> Spec.denotes (neg a) (- p).
Proof.
  intros (r & -> & Hr). eapply denotes_eq; [apply denotes_fin | now rewrite Hr].
Qed.

Lemma denotes_sub (a b : num) (p q : Q) :
  Spec.denotes a p -> Spec.denotes b q -> Spec.denotes (sub a b) (p - q).
Proof. intros Ha Hb. apply denotes_add; [exact Ha | now apply denotes_neg]. Qed.

Lemma denotes_mul (a b : num) (p q : Q) :
  Spec.denotes a p -> Spec.denotes b q -> Spec.denotes (mul a b) (p * q).
Proof.
  intros (r & -> & Hr) (s & -> & Hs). eapply denotes_eq.
  - apply denotes_fin.
  - now rewrite Hr, Hs.
Qed.

Lemma denotes_div (a b : num) (p q : Q) :
  Spec.denotes a p -> Spec.denotes b q -> ~ (q == 0)%Q ->
  Spec.denotes (div a b) (p / q).
Proof.
  intros (r & -> & Hr) (s & -> & Hs) Hq. unfold div, Qsgn.
  destruct (0 ?= s)%Q eqn:E.
  - exfalso. apply Hq. rewrite <- Hs. symmetry. now apply Qeq_alt.
  - eapply denotes_eq; [apply denotes_fin | now rewrite Hr, Hs].
  - eapply denotes_eq; [apply denotes_fin | now rewrite Hr, Hs].
Qed.

Lemma denotes_round (a : num) (p : Q) :
  Spec.denotes a p -> Spec.denotes (round a) (inject_Z (Qfloor (p + (1 # 2)))).
Proof.
  intros (r & -> & Hr). exists (inject_Z (Qfloor (r + (1 # 2)))).
  split; [reflexivity | now rewrite Hr].
Qed.

Lemma denotes_cmp (a b : num) (p q : Q) :
  Spec.denotes a p -> Spec.denotes b q -> cmp a b = Some (p ?= q)%Q.
Proof.
  intros (r & -> & Hr) (s & -> & Hs). simpl. now rewrite Hr, Hs.
Qed.

Lemma denotes_max (a b : num) (p q : Q) :
  Spec.denotes a p -> Spec.denotes b q -> Spec.denotes (max a b) (Qmax p q).
Proof.
  intros Ha Hb. unfold max. rewrite (denotes_cmp a b p q Ha Hb).
  destruct (p ?= q)%Q eqn:E.
  - apply Qeq_alt in E. eapply denotes_eq; [exact Ha|].
    symmetry. apply Q.max_l. rewrite E. apply Qle_refl.
  - apply Qlt_alt in E. eapply denotes_eq; [exact Hb|].
    symmetry. apply Q.max_r. now apply Qlt_le_weak.
  - apply Qgt_alt in E. eapply denotes_eq; [exact Ha|].
    symmetry. apply Q.max_l. now apply Qlt_le_weak.
Qed.

Lemma denotes_min (a b : num) (p q : Q) :
  Spec.denotes a p -> Spec.denotes b q -> Spec.denotes (min a b) (Qmin p q).
Proof.
  intros Ha Hb. unfold min. rewrite (denotes_cmp a b p q Ha Hb).
  destruct (p ?= q)%Q eqn:E.
  - apply Qeq_alt in E. eapply denotes_eq; [exact Ha|].
    symmetry. apply Q.min_l. rewrite E. apply Qle_refl.
  - apply Qlt_alt in E. eapply denotes_eq; [exact Ha|].
    symmetry. apply Q.min_l. now apply Qlt_le_weak.
  - apply Qgt_alt in E. eapply denotes_eq; [exact Hb|].
    symmetry. apply Q.min_r. now apply Qlt_le_weak.
Qed.

End Denotation.

(* ================================================================= *)
(** ** Exact arithmetic on reduced fractions *)

Section Exact.
Import JS.

(** Every arithmetic operation returns the reduced fraction of its exact
    value, so finite results can be compared with [=]. *)
Lemma fin_eq (p q : Q) : p == q -> fin p = fin q.
Proof. intro H. unfold fin. f_equal. now apply Qred_complete. Qed.

Lemma Qred_inject_Z (z : Z) : Qred (inject_Z z) = inject_Z z.
Proof.
  unfold Qred, inject_Z.
  generalize (Z.ggcd_gcd z 1) (Z.ggcd_correct_divisors z 1).
  destruct (Z.ggcd z 1) as (g, (a, b)). cbn [fst snd].
  rewrite Z.gcd_1_r. intros -> [Ha Hb].
  rewrite Z.mul_1_l in Ha, Hb. now subst a b.
Qed.

Lemma ofZ_fin (z : Z) : ofZ z = fin (inject_Z z).
Proof. unfold ofZ, fin. now rewrite Qred_inject_Z. Qed.

Lemma add_fin (p q : Q) : add (fin p) (fin q) = fin (p + q).
Proof. unfold fin at 1 2. cbn [add]. apply fin_eq. now rewrite !Qred_correct. Qed.

Lemma neg_fin (p : Q) : neg (fin p) = fin (- p).
Proof. unfold fin at 1. cbn [neg]. apply fin_eq. now rewrite Qred_correct. Qed.

Lemma sub_fin (p q : Q) : sub (fin p) (fin q) = fin (p - q).
Proof. unfold sub. now rewrite neg_fin, add_fin. Qed.

Lemma mul_fin (p q : Q) : mul (fin p) (fin q) = fin (p * q).
Proof. unfold fin at 1 2. cbn [mul]. apply fin_eq. now rewrite !Qred_correct. Qed.

Lemma div_fin (p q : Q) : ~ q == 0 -> div (fin p) (fin q) = fin (p / q).
Proof.
  intro H. unfold fin at 1 2. cbn [div]. unfold Qsgn.
  destruct (0 ?= Qred q)%Q eqn:E.
  - exfalso. apply H. apply Qeq_alt in E. rewrite Qred_correct in E.
    now symmetry.
  - apply fin_eq. now rewrite !Qred_correct.
  - apply fin_eq. now rewrite !Qred_correct.
Qed.

Lemma abs_fin (p : Q) : abs (fin p) = fin (Qabs p).
Proof. unfold fin at 1. cbn [abs]. apply fin_eq. now rewrite Qred_correct. Qed.

Lemma round_fin (p : Q) : round (fin p) = fin (inject_Z (Qfloor (p + (1 # 2)))).
Proof.
  unfold fin at 1. cbn [round]. rewrite ofZ_fin. now rewrite Qred_correct.
Qed.

Lemma gt_fin_fin (p q : Q) : gt (fin p) (fin q) = negb (Qle_bool p q).
Proof.
  apply eq_true_iff_eq. rewrite negb_true_iff.
  unfold fin at 1. rewrite gt_fin_iff. cbn [Spec.above].
  rewrite Qred_correct, <- not_true_iff_false, Qle_bool_iff. split; lra.
Qed.

End Exact.

(* ================================================================= *)
(** ** Loop ranges and invariants *)

Section Loops.
Import JS.

Lemma in_range (lo hi x : Z) : In x (range lo hi) <-> (lo <= x < hi)%Z.
Proof.
  unfold range. rewrite in_map_iff. split.
  - intros (i & <- & Hi). apply in_seq in Hi. lia.
  - intro H. exists (Z.to_nat (x - lo)). split; [lia|]. apply in_seq. lia.
Qed.

Lemma range_length (lo hi : Z) :
  List.length (range lo hi) = Z.to_nat (hi - lo).
Proof. unfold range. now rewrite length_map, length_seq. Qed.

Lemma in_rangeStep_bounds (hi step x : Z) :
  (0 < step)%Z -> In x (rangeStep 0 hi step) ->
  (0 <= x)%Z /\ (x < hi)%Z /\ (x mod step = 0)%Z.
Proof.
  intros Hs H. unfold rangeStep in H. apply in_map_iff in H.
  destruct H as (i & <- & Hi). apply in_seq in Hi.
  assert (Hn : (Z.of_nat i < (hi - 0 + step - 1) / step)%Z) by lia.
  split; [nia|]. split.
  - assert (Hd := Z.mul_div_le (hi - 0 + step - 1) step Hs). nia.
  - rewrite Z.add_0_l, Z.mul_comm. now apply Z_mod_mult.
Qed.

(** A loop whose body leaves the accumulator alone. *)
Lemma fold_left_id {A B : Type} (f : A -> B -> A) (l : list B) (a : A) :
  (forall x, In x l -> f a x = a) -> fold_left f l a = a.
Proof.
  induction l as [|x l IH]; intro H; [reflexivity|].
  cbn [fold_left]. rewrite (H x) by now left.
  apply IH. intros y Hy. apply H. now right.
Qed.

(** An invariant indexed by the number of iterations, through two nested
    loops. *)
Lemma fold_left_inv {A B : Type} (P : nat -> A -> Prop) (f : A -> B -> A)
  (l : list B) (k : nat) (a : A) :
  P k a ->
  (forall k a x, In x l -> P k a -> P (S k) (f a x)) ->
  P (k + List.length l)%nat (fold_left f l a).
Proof.
  revert k a. induction l as [|x l IH]; intros k a Ha H.
  - cbn. now rewrite Nat.add_0_r.
  - cbn [fold_left List.length]. rewrite Nat.add_succ_r.
    apply (IH (S k)).
    + apply H; [now left | exact Ha].
    + intros k' a' y Hy. apply H. now right.
Qed.

Lemma nested_inv {A : Type} (P : nat -> A -> Prop) (ly lx : list Z)
  (body : A -> Z -> Z -> A) (init : A) :
  P 0%nat init ->
  (forall k a x y, In x lx -> In y ly -> P k a -> P (S k) (body a y x)) ->
  P (List.length ly * List.length lx)%nat
    (fold_left (fun acc y => fold_left (fun acc x => body acc y x) lx acc)
               ly init).
Proof.
  intros H0 Hs.
  apply (fold_left_inv (fun k a => P (k * List.length lx)%nat a)
           (fun acc y => fold_left (fun acc x => body acc y x) lx acc)
           ly 0 init H0).
  intros k a y Hy Ha. cbn [Nat.mul]. rewrite Nat.add_comm.
  apply (fold_left_inv P (fun acc x => body acc y x) lx _ a Ha).
  intros k' a' x Hx. now apply Hs.
Qed.

Lemma get_uniform (v : Z) (n : nat) (idx : Z) :
  (0 <= idx < Z.of_nat n)%Z -> get (repeat v n) idx = fin (inject_Z v).
Proof.
  intro H. unfold get.
  destruct (idx <? 0)%Z eqn:E; [apply Z.ltb_lt in E; lia|].
  rewrite nth_error_repeat by lia. apply ofZ_fin.
Qed.

End Loops.

(* ================================================================= *)
(** ** The final sharpness score and the blur penalty *)

Section SharpnessScore.
Import JS Sharpness.

Lemma penalty_guard_false (b : Blur) (t : string) :
  t = "motion" \/ t = "defocus" ->
  ~ Spec.penalised b ->
  (b_type b =? t) && gt (b_severity b) (fin 0.6) = false.
Proof.
  intros Ht Hn. apply andb_false_iff.
  destruct (b_type b =? t) eqn:E; [right | now left].
  apply String.eqb_eq in E.
  destruct (gt (b_severity b) (fin 0.6)) eqn:G; [|reflexivity].
  exfalso. apply Hn. split.
  - destruct Ht; subst t; rewrite E; auto.
  - now apply gt_fin_iff.
Qed.

Lemma score_without_penalty (os : num) (b : Blur) (e : Edges) (fp : FocusPlane) :
  ~ Spec.penalised b ->
  calculateSharpnessScore os b e fp
  = calculateSharpnessScore os (mkBlur "none" (fin 0) None None) e fp.
Proof.
  intro Hn. unfold calculateSharpnessScore.
  rewrite (penalty_guard_false b "motion"), (penalty_guard_false b "defocus")
    by auto.
  reflexivity.
Qed.

(** C7: the blur penalty lowers the final sharpness score only for a
    ['motion'] or ['defocus'] blur whose severity is above 0.6; in every other
    case the score is the one obtained with blur type ['none'], and a ['soft']
    blur of any severity scores exactly like ['none']. *)
Theorem soft_blur_is_not_penalised :
  forall (os : num) (e : Edges) (fp : FocusPlane),
    (forall b : Blur,
        ~ Spec.penalised b ->
        calculateSharpnessScore os b e fp
        = calculateSharpnessScore os (mkBlur "none" (fin 0) None None) e fp)
    /\ (forall (severity : num) (direction : option string)
               (metrics : option Metrics),
           calculateSharpnessScore os
             (mkBlur "soft" severity direction metrics) e fp
           = calculateSharpnessScore os
               (mkBlur "none" severity direction metrics) e fp).
Proof.
  intros os e fp. split.
  - intros b Hn. now apply score_without_penalty.
  - intros severity direction metrics.
    rewrite score_without_penalty.
    + symmetry. apply score_without_penalty.
      intros [[H | H] _]; discriminate H.
    + intros [[H | H] _]; discriminate H.
Qed.

Lemma soft_blur_is_not_penalised_witness :
  ~ Spec.penalised (mkBlur "motion" (fin 0.5) (Some "horizontal") None)
  /\ calculateSharpnessScore (fin 150)
       (mkBlur "motion" (fin 0.5) (Some "horizontal") None)
       (mkEdges (fin 40) (fin 1) "moderate")
       (mkFocusPlane "center" ["center"] (fin 2, fin 2))
     = fin 67.
Proof.
  assert (H : ~ Spec.penalised
                (mkBlur "motion" (fin 0.5) (Some "horizontal") None)).
  { intros [_ H]. vm_compute in H. discriminate H. }
  split; [exact H|].
  rewrite (proj1 (soft_blur_is_not_penalised (fin 150)
                    (mkEdges (fin 40) (fin 1) "moderate")
                    (mkFocusPlane "center" ["center"] (fin 2, fin 2)))
                 _ H).
  vm_compute. reflexivity.
Defined.

(** A motion blur of severity 0.9 does lower the score, by 0.3 * 25. *)
Example motion_blur_is_penalised :
  Spec.penalised (mkBlur "motion" (fin 0.9) (Some "horizontal") None)
  /\ calculateSharpnessScore (fin 150)
       (mkBlur "motion" (fin 0.9) (Some "horizontal") None)
       (mkEdges (fin 40) (fin 1) "moderate")
       (mkFocusPlane "center" ["center"] (fin 2, fin 2))
     = fin 60.
Proof.
  split; [|vm_compute; reflexivity].
  split; [now left | vm_compute; reflexivity].
Qed.

End SharpnessScore.

(* ================================================================= *)
(** ** Star rating, category and auto-reject *)

Section Classification.
Import JS Scoring.

Lemma ge_Fin_Qle_bool (q t : Q) : ge (Fin q) (fin t) = Qle_bool t q.
Proof.
  apply eq_true_iff_eq. rewrite ge_fin_iff, Qle_bool_iff. reflexivity.
Qed.

Lemma calculateStarRating_Fin (q : Q) :
  calculateStarRating (Fin q) = Spec.ratingOf q.
Proof.
  unfold calculateStarRating, Spec.ratingOf, Config.thresholds; simpl.
  now rewrite !ge_Fin_Qle_bool.
Qed.

Lemma shouldReject_iff (a : Analyses) :
  shouldReject (checkAutoReject a) = true <-> Spec.autoRejectCondition a.
Proof.
  unfold checkAutoReject, Spec.autoRejectCondition, Config.autoReject.
  cbn [Config.motionBlurSeverity Config.defocusSeverity Config.highlightClip
       Config.shadowClip shouldReject].
  rewrite <- !ge_fin_iff.
  destruct (blurIs (sharpness a) "motion");
    destruct (blurIs (sharpness a) "defocus");
    destruct (ge (blurSeverity (sharpness a)) (fin 0.85));
    destruct (ge (highlightsClipped (histogram a)) (fin 25));
    destruct (ge (shadowsClipped (histogram a)) (fin 25));
    cbn; intuition congruence.
Qed.

Lemma reasons_nonempty (a : Analyses) :
  shouldReject (checkAutoReject a) = true -> reasons (checkAutoReject a) <> [].
Proof.
  unfold checkAutoReject; cbn [shouldReject reasons].
  intros H E. rewrite E in H. discriminate H.
Qed.

Lemma classifyImage_category (score : num) (scores : Scores) (a : Analyses) :
  category (classifyImage score scores a)
  = if shouldReject (checkAutoReject a) then "reject"
    else match score with
         | Fin q => Spec.categoryOf q
         | PInf => "select"
         | _ => "reject"
         end.
Proof.
  unfold classifyImage; cbn [category].
  destruct (shouldReject (checkAutoReject a)); [reflexivity|].
  destruct score as [q| | |]; try reflexivity.
  unfold Spec.categoryOf, Config.thresholds; simpl.
  now rewrite !ge_Fin_Qle_bool.
Qed.

Lemma classifyImage_autoReject (score : num) (scores : Scores) (a : Analyses) :
  autoReject (classifyImage score scores a)
  = if shouldReject (checkAutoReject a)
    then Some (reasons (checkAutoReject a)) else None.
Proof. reflexivity. Qed.

Lemma rejected_when_condition (a : Analyses) (o : Options) :
  Spec.autoRejectCondition a ->
  category (classification (calculateScores a o)) = "reject"
  /\ exists rs, autoReject (classification (calculateScores a o)) = Some rs
                /\ rs <> [].
Proof.
  intro H. apply shouldReject_iff in H.
  unfold calculateScores. cbn [classification].
  rewrite classifyImage_category, classifyImage_autoReject, H.
  split; [reflexivity|].
  eexists; split; [reflexivity|]. now apply reasons_nonempty.
Qed.

Lemma shaken_condition : Spec.autoRejectCondition Examples.shaken.
Proof. left. split; [reflexivity | vm_compute; discriminate]. Qed.

Lemma steady_no_condition : ~ Spec.autoRejectCondition Examples.steady.
Proof.
  intros [[H _]|[[H _]|[H|H]]]; try discriminate H; vm_compute in H;
    now apply H.
Qed.

Lemma shaken_overall :
  overallOf (scoresOf Examples.shaken) (actualWeightsOf defaultOptions)
  = Fin (391 # 4).
Proof. vm_compute. reflexivity. Qed.

Lemma rating_tier (u : num) (scores : Scores) (a : Analyses) :
  shouldReject (checkAutoReject a) = false ->
  category (classifyImage u scores a) = Notions.tierOf (calculateStarRating u).
Proof.
  intro E. rewrite classifyImage_category, E.
  destruct u as [q| | |]; try reflexivity.
  rewrite calculateStarRating_Fin. unfold Spec.categoryOf, Spec.ratingOf.
  repeat match goal with
         | |- context [if Qle_bool ?t q then _ else _] =>
             destruct (Qle_bool t q)
         end; reflexivity.
Qed.

(** C5: when one of the four auto-reject conditions holds the category is
    ['reject'] whatever the overall score, with a non-empty list of reasons;
    when none holds there are no reasons ([null]) and the category is the one
    the thresholds give for the score that is passed in, which is the tier of
    the star rating, the rating being taken from the same score. *)
Theorem auto_reject_overrides_category :
  forall (analyses : Analyses) (options : Options),
    let r := calculateScores analyses options in
    (Spec.autoRejectCondition analyses ->
       (forall score scores,
           category (classifyImage score scores analyses) = "reject")
       /\ category (classification r) = "reject"
       /\ exists rs, autoReject (classification r) = Some rs /\ rs <> [])
    /\ (~ Spec.autoRejectCondition analyses ->
         autoReject (classification r) = None
         /\ (forall q scores,
                category (classifyImage (Fin q) scores analyses)
                = Spec.categoryOf q)
         /\ category (classification r) = Notions.tierOf (rating r)).
Proof.
  intros analyses options r. subst r. split; intro H.
  - split; [|now apply rejected_when_condition].
    intros score scores. rewrite classifyImage_category.
    apply shouldReject_iff in H. now rewrite H.
  - assert (E : shouldReject (checkAutoReject analyses) = false).
    { destruct (shouldReject (checkAutoReject analyses)) eqn:E;
        [|reflexivity]. exfalso. apply H. now apply shouldReject_iff. }
    split; [|split].
    + unfold calculateScores. cbn [classification].
      now rewrite classifyImage_autoReject, E.
    + intros q scores. now rewrite classifyImage_category, E.
    + unfold calculateScores. cbn [classification rating].
      now apply rating_tier.
Qed.

(** The specification's example: a motion blur of severity 0.9 with
    otherwise perfect sub-scores is rejected although the overall score is
    97.75, and the same frame without blur is a ['select'] with five
    stars. *)
Lemma auto_reject_overrides_category_witness :
  Spec.autoRejectCondition Examples.shaken
  /\ category (classification (calculateScores Examples.shaken defaultOptions))
     = "reject"
  /\ ~ Spec.autoRejectCondition Examples.steady
  /\ autoReject (classification (calculateScores Examples.steady defaultOptions))
     = None
  /\ category (classification (calculateScores Examples.steady defaultOptions))
     = Notions.tierOf (rating (calculateScores Examples.steady defaultOptions)).
Proof.
  split; [exact shaken_condition|]. split.
  - exact (proj1 (proj2 (proj1 (auto_reject_overrides_category
                                  Examples.shaken defaultOptions)
                               shaken_condition))).
  - split; [exact steady_no_condition|].
    destruct (proj2 (auto_reject_overrides_category
                       Examples.steady defaultOptions)
                    steady_no_condition) as (H1 & _ & H3).
    split; [exact H1 | exact H3].
Defined.

(** C10: auto-reject changes the category but leaves the star rating alone:
    when an auto-reject condition holds the category is ['reject'] with a
    non-empty list of reasons, while the rating is what [calculateStarRating]
    gives for the score whose rounding is returned as overall, by the
    thresholds 72, 58, 45 and 30; the rating depends on the sub-scores and
    the weights only, so it is the rating of any frame with the same
    sub-scores; a rejected result can carry five stars. *)
Theorem auto_reject_keeps_rating :
  (forall (analyses : Analyses) (options : Options),
      Spec.autoRejectCondition analyses ->
      let r := calculateScores analyses options in
      category (classification r) = "reject"
      /\ (exists rs, autoReject (classification r) = Some rs /\ rs <> [])
      /\ (exists score, overall r = round score
                        /\ rating r = calculateStarRating score)
      /\ (1 <= rating r <= 5)%Z)
  /\ (forall q : Q, calculateStarRating (Fin q) = Spec.ratingOf q)
  /\ (forall (analyses analyses' : Analyses) (options : Options),
         scoresOf analyses = scoresOf analyses' ->
         rating (calculateScores analyses options)
         = rating (calculateScores analyses' options))
  /\ exists (analyses : Analyses) (options : Options),
      let r := calculateScores analyses options in
      category (classification r) = "reject"
      /\ (exists rs, autoReject (classification r) = Some rs /\ rs <> [])
      /\ rating r = 5%Z.
Proof.
  split; [|split; [|split]].
  - intros analyses options Hc r.
    destruct (rejected_when_condition analyses options Hc) as [H1 H2].
    split; [exact H1|]. split; [exact H2|]. subst r. split.
    + eexists. split; reflexivity.
    + unfold calculateScores. cbn [rating]. unfold calculateStarRating.
      repeat match goal with
             | |- context [if ?b then _ else _] => destruct b
             end; lia.
  - exact calculateStarRating_Fin.
  - intros analyses analyses' options E. unfold calculateScores.
    cbn [rating]. now rewrite E.
  - exists Examples.shaken, defaultOptions.
    destruct (rejected_when_condition Examples.shaken defaultOptions
                shaken_condition) as [H1 H2].
    split; [exact H1|]. split; [exact H2|]. vm_compute. reflexivity.
Qed.

(** The shaken frame is rejected with five stars, the rating of the steady
    frame, which has the same sub-scores and is not rejected. *)
Lemma auto_reject_keeps_rating_witness :
  Spec.autoRejectCondition Examples.shaken
  /\ ~ Spec.autoRejectCondition Examples.steady
  /\ scoresOf Examples.shaken = scoresOf Examples.steady
  /\ category (classification (calculateScores Examples.shaken defaultOptions))
     = "reject"
  /\ rating (calculateScores Examples.shaken defaultOptions)
     = rating (calculateScores Examples.steady defaultOptions)
  /\ rating (calculateScores Examples.steady defaultOptions) = 5%Z.
Proof.
  assert (E : scoresOf Examples.shaken = scoresOf Examples.steady)
    by (vm_compute; reflexivity).
  split; [exact shaken_condition|]. split; [exact steady_no_condition|].
  split; [exact E|].
  destruct auto_reject_keeps_rating as (H1 & _ & H3 & _).
  split; [exact (proj1 (H1 Examples.shaken defaultOptions shaken_condition))|].
  split; [exact (H3 Examples.shaken Examples.steady defaultOptions E)|].
  vm_compute. reflexivity.
Defined.

End Classification.

(* ================================================================= *)
(** ** The overall weighted average *)

Section WeightedAverage.
Import JS Scoring.

Lemma accumulate_from (scores : Scores) (w : Config.Weights) (s t : num) :
  fold_left (fun '(weightedSum, weightTotal) '(key, weight) =>
               match lookup scores key with
               | Some v => (add weightedSum (mul v weight), add weightTotal weight)
               | None => (weightedSum, weightTotal)
               end) w (s, t)
  = (fold_left add
       (map (fun e => mul (Spec.valueOf scores (fst e)) (snd e))
            (filter (Spec.contributes scores) w)) s,
     fold_left add (map snd (filter (Spec.contributes scores) w)) t).
Proof.
  revert s t. induction w as [|[key weight] w IH]; intros s t; [reflexivity|].
  cbn [fold_left filter].
  assert (Hc : Spec.contributes scores (key, weight)
               = match lookup scores key with Some _ => true | None => false end)
    by reflexivity.
  assert (Hv : Spec.valueOf scores key
               = match lookup scores key with Some v => v | None => fin 0 end)
    by reflexivity.
  rewrite Hc. destruct (lookup scores key) as [v|] eqn:E.
  - rewrite IH. cbn [map fold_left fst snd]. now rewrite Hv.
  - apply IH.
Qed.

Lemma overallOf_weightedAverage (scores : Scores) (w : Config.Weights) :
  overallOf scores w = Spec.weightedAverage scores w.
Proof.
  unfold overallOf, accumulate, Spec.weightedAverage.
  now rewrite accumulate_from.
Qed.

(** C6: the overall score is the weighted average over exactly those
    entries of the active weight map whose sub-score exists and is not null:
    such an entry adds to the numerator and to the denominator, any other adds
    to neither.  Under the landscape profile the focus-accuracy sub-score has
    no influence, a null horizon-level leaves the other five sub-scores divided
    by their own weight total 0.9, and when no entry contributes the overall
    score is 0. *)
Theorem overall_is_average_of_present_scores :
  (forall (scores : Scores) (w : Config.Weights),
      overallOf scores w = Spec.weightedAverage scores w)
  /\ (forall (scores : Scores) (v : num),
         overallOf (Spec.withFocusAccuracy v scores) Config.landscape
         = overallOf scores Config.landscape)
  /\ (forall s e f c n d : num,
         overallOf (mkScores s e f c n d None) Config.landscape
         = div (add (add (add (add (add (fin 0) (mul s (fin 0.20)))
                                   (mul e (fin 0.25)))
                              (mul c (fin 0.25)))
                         (mul d (fin 0.15)))
                    (mul n (fin 0.05)))
               (fin 0.90))
  /\ (exists scores : Scores,
         overallOf scores Config.landscape
         <> Spec.zeroFilledAverage scores Config.landscape)
  /\ (forall (scores : Scores) (w : Config.Weights),
         filter (Spec.contributes scores) w = [] ->
         overallOf scores w = fin 0).
Proof.
  split; [|split; [|split; [|split]]].
  - apply overallOf_weightedAverage.
  - intros [s e f c n d [h|]] v; reflexivity.
  - intros. reflexivity.
  - exists Examples.ninety. vm_compute. discriminate.
  - intros scores w H. rewrite overallOf_weightedAverage.
    unfold Spec.weightedAverage. rewrite H. reflexivity.
Qed.

(** With 90 in every sub-score and no horizon, the landscape average is 90
    (a horizon level counted as zero would give 81); a weight map none of
    whose names is a sub-score gives 0. *)
Lemma overall_is_average_of_present_scores_witness :
  overallOf Examples.ninety Config.landscape = fin 90
  /\ Spec.zeroFilledAverage Examples.ninety Config.landscape = fin 81
  /\ filter (Spec.contributes Examples.ninety) [("colour", fin 1)] = []
  /\ overallOf Examples.ninety [("colour", fin 1)] = fin 0.
Proof.
  split.
  { rewrite (proj1 overall_is_average_of_present_scores).
    vm_compute. reflexivity. }
  split; [vm_compute; reflexivity|]. split; [reflexivity|].
  apply (proj2 (proj2 (proj2 (proj2 overall_is_average_of_present_scores)))).
  reflexivity.
Defined.

End WeightedAverage.

(* ================================================================= *)
(** ** Keeper probability *)

Section Keeper.
Import JS Scoring.















End Keeper.

(* ================================================================= *)
(** ** Ranges of the sub-scores *)

Section Range.
Import JS Scoring.

Lemma within_denotes (a : num) (q lo hi : Q) :
  Spec.denotes a q -> (lo <= q <= hi)%Q -> Spec.within a lo hi.
Proof.
  intros (r & -> & E) H. exists r. split; [reflexivity|]. now rewrite E.
Qed.

Lemma clamp_within (a : num) (lo hi : Q) :
  a <> NaN -> (lo <= hi)%Q ->
  Spec.within (max (fin lo) (min (fin hi) a)) lo hi.
Proof.
  intros Ha Hle. destruct a as [q| | |]; [| | |congruence].
  - eapply within_denotes.
    + apply denotes_max; [apply denotes_fin|].
      apply denotes_min; [apply denotes_fin|apply denotes_Fin].
    + split; [apply Q.le_max_l|].
      apply Q.max_lub; [exact Hle | apply Q.le_min_l].
  - replace (min (fin hi) PInf) with (fin hi) by reflexivity.
    eapply within_denotes.
    + apply denotes_max; apply denotes_fin.
    + split; [apply Q.le_max_l | apply Q.max_lub; [exact Hle|apply Qle_refl]].
  - replace (max (fin lo) (min (fin hi) NInf)) with (fin lo) by reflexivity.
    eapply within_denotes; [apply denotes_fin|]. split; [apply Qle_refl|exact Hle].
Qed.

Lemma orElse_within (a : num) (d : Q) :
  Spec.engineScore a -> Spec.within (fin d) 0 100 ->
  Spec.within (orElse a (fin d)) 0 100.
Proof.
  intros [-> | Ha] Hd; [exact Hd|].
  unfold orElse. destruct (truthy a); [exact Ha | exact Hd].
Qed.

Ltac concrete_within :=
  eexists; split; [vm_compute; reflexivity | split; vm_compute; discriminate].

Lemma sharpness_score_range (s : option Sharpness.SharpnessResult) :
  Spec.within (calculateSharpnessScore s) 0 100.
Proof.
  destruct s as [s|]; [|concrete_within].
  unfold calculateSharpnessScore. apply clamp_within; [|discriminate].
  unfold orElse.
  destruct (Sharpness.o_score (Sharpness.overall s)) as [q| | |];
    simpl; try discriminate.
  destruct (negb (Qeq_bool q 0)); discriminate.
Qed.

Lemma exposure_score_range (h : option Histogram.HistogramResult) :
  (forall r, h = Some r -> Spec.engineScore (Histogram.score r)) ->
  Spec.within (calculateExposureScore h) 0 100.
Proof.
  intro H. destruct h as [r|]; [|concrete_within].
  unfold calculateExposureScore.
  apply (orElse_within _ 50); [now apply H|].
  concrete_within.
Qed.

Lemma focus_score_range (s : option Sharpness.SharpnessResult)
  (e : option Exif) :
  Spec.within (calculateFocusAccuracyScore s e) 0 100.
Proof.
  destruct s as [s|]; [|concrete_within].
  unfold calculateFocusAccuracyScore.
  destruct (existsb _ _); [|destruct (_ <? _)%nat];
    (destruct e as [e|]; [destruct (continuous e)|]); concrete_within.
Qed.

Lemma composition_score_range (c : option Composition.CompositionResult) :
  (forall r, c = Some r ->
             Spec.engineScore (Composition.sc_score (Composition.score r))) ->
  Spec.within (compositionScore c) 0 100.
Proof.
  intro H. destruct c as [r|]; [|concrete_within].
  unfold compositionScore.
  apply (orElse_within _ 60); [now apply H|].
  concrete_within.
Qed.

Lemma dynamic_range_score_range (h : option Histogram.HistogramResult) :
  (forall r, h = Some r ->
     Spec.engineScore (Histogram.percentage (Histogram.dynamicRange r))) ->
  Spec.within (dynamicRangeScore h) 0 100.
Proof.
  intro H. destruct h as [r|]; [|concrete_within].
  unfold dynamicRangeScore.
  apply (orElse_within _ 60); [now apply H|].
  concrete_within.
Qed.

Lemma noise_score_range (e : option Exif) (h : option Histogram.HistogramResult) :
  Spec.within (calculateNoiseScore e h) 0 100.
Proof.
  unfold calculateNoiseScore.
  destruct e as [e|]; [|concrete_within].
  destruct (iso e) as [i|]; [|concrete_within].
  destruct (negb (truthy i)); [concrete_within|].
  destruct ((shadowZone h >? fin 30)%js && (i >? fin 1600)%js);
    repeat match goal with
           | |- context [if ?b then _ else _] => destruct b
           end; concrete_within.
Qed.

Lemma horizon_score_range (c : option Composition.CompositionResult) (v : num) :
  (forall r, c = Some r ->
             Composition.tilt (Composition.horizon r) <> Some NaN) ->
  horizonLevelScore c = Some v -> Spec.within v 0 100.
Proof.
  intros H. unfold horizonLevelScore. destruct c as [r|]; [|discriminate].
  specialize (H r eq_refl).
  destruct (Composition.detected (Composition.horizon r)); [|discriminate].
  intro E. injection E as <-.
  destruct (Composition.isLevel (Composition.horizon r)); [concrete_within|].
  unfold Composition.absTilt.
  destruct (Composition.tilt (Composition.horizon r)) as [[q| | |]|];
    [| concrete_within | concrete_within | congruence | concrete_within].
  apply (within_denotes _ (Qmax 50 (100 - Qabs q * 5))).
  - apply denotes_max; [apply denotes_fin|].
    apply (denotes_sub (fin 100) _ 100 (Qabs q * 5)); [apply denotes_fin|].
    apply (denotes_mul _ (fin 5) (Qabs q) 5); apply denotes_fin.
  - split.
    + eapply Qle_trans; [|apply Q.le_max_l]. discriminate.
    + apply Q.max_lub; [discriminate|].
      assert (0 <= Qabs q)%Q by apply Qabs_nonneg. lra.
Qed.

Lemma lookup_cases (scores : Scores) (key : string) (v : num) :
  lookup scores key = Some v ->
  v = s_sharpness scores \/ v = s_exposure scores
  \/ v = s_focusAccuracy scores \/ v = s_composition scores
  \/ v = s_noise scores \/ v = s_dynamicRange scores
  \/ s_horizonLevel scores = Some v.
Proof.
  unfold lookup, entries. cbn [find fst snd].
  repeat match goal with
         | |- context [if ?b then _ else _] => destruct b
         end; intro E; try discriminate E; try (injection E as <-); tauto.
Qed.

Lemma scores_in_range (a : Analyses) (key : string) (v : num) :
  Spec.wfAnalyses a ->
  lookup (scoresOf a) key = Some v -> Spec.within v 0 100.
Proof.
  intros [Hh Hc] E. apply lookup_cases in E. unfold scoresOf in E.
  cbn [s_sharpness s_exposure s_focusAccuracy s_composition s_noise
       s_dynamicRange s_horizonLevel] in E.
  destruct E as [->|[->|[->|[->|[->|[->|E]]]]]].
  - apply sharpness_score_range.
  - apply exposure_score_range. intros r Hr. now apply Hh.
  - apply focus_score_range.
  - apply composition_score_range. intros r Hr. now apply Hc.
  - apply noise_score_range.
  - apply dynamic_range_score_range. intros r Hr. now apply Hh.
  - eapply horizon_score_range; [|exact E]. intros r Hr. now apply Hc.
Qed.

End Range.

(* ================================================================= *)
(** ** Range of the overall score and of the rating *)

Section Overall.
Import JS Scoring.

Lemma accumulate_bounds (scores : Scores) (w : Config.Weights) (a b : num)
  (S T : Q) :
  (forall key v, lookup scores key = Some v -> Spec.within v 0 100) ->
  Spec.wfWeights w ->
  Spec.denotes a S -> Spec.denotes b T -> (0 <= T)%Q -> (0 <= S <= 100 * T)%Q ->
  exists S' T',
    fold_left (fun '(weightedSum, weightTotal) '(key, weight) =>
                 match lookup scores key with
                 | Some v => (add weightedSum (mul v weight),
                              add weightTotal weight)
                 | None => (weightedSum, weightTotal)
                 end) w (a, b) = (Fin S', Fin T')
    /\ (0 <= T')%Q /\ (0 <= S' <= 100 * T')%Q.
Proof.
  intros Hs Hw. revert a b S T.
  induction Hw as [|[key weight] w (qw & Ew & Hqw) _ IH];
    intros a b S T Ha Hb HT HS.
  - destruct Ha as (s & -> & Es), Hb as (t & -> & Et).
    exists s, t. split; [reflexivity|]. rewrite Es, Et. tauto.
  - cbn [fold_left]. cbn [snd] in Ew. subst weight.
    destruct (lookup scores key) as [v|] eqn:E.
    + destruct (Hs key v E) as (qv & -> & Hqv).
      apply (IH _ _ (S + qv * qw)%Q (T + qw)%Q).
      * apply denotes_add; [exact Ha|]. apply denotes_mul; apply denotes_Fin.
      * apply denotes_add; [exact Hb | apply denotes_Fin].
      * lra.
      * nra.
    + now apply (IH a b S T).
Qed.

Lemma overall_within (a : Analyses) (w : Config.Weights) :
  Spec.wfAnalyses a -> Spec.wfWeights w ->
  Spec.within (overallOf (scoresOf a) w) 0 100.
Proof.
  intros Ha Hw. unfold overallOf, accumulate.
  destruct (accumulate_bounds (scoresOf a) w (fin 0) (fin 0) 0 0)
    as (S & T & -> & HT & HS);
    [ intros key v; now apply scores_in_range | exact Hw
    | apply denotes_fin | apply denotes_fin | lra | lra | ].
  destruct (gt (Fin T) (fin 0)) eqn:G.
  - apply gt_fin_iff in G. simpl in G.
    apply (within_denotes _ (S / T)).
    + apply denotes_div; [apply denotes_Fin | apply denotes_Fin | lra].
    + split.
      * apply Qle_shift_div_l; [exact G | lra].
      * apply Qle_shift_div_r; [exact G | lra].
  - exists (Qred 0). split; [reflexivity | split; discriminate].
Qed.

Lemma round_within (a : num) (lo hi : Z) :
  Spec.within a (inject_Z lo) (inject_Z hi) ->
  Spec.within (round a) (inject_Z lo) (inject_Z hi).
Proof.
  intros (q & -> & Hlo & Hhi). exists (inject_Z (Qfloor (q + (1 # 2)))).
  split; [reflexivity|]. rewrite <- !Zle_Qle. split.
  - rewrite <- (Qfloor_Z lo). apply Qfloor_resp_le. lra.
  - assert (Hf := Qfloor_le (q + (1 # 2))).
    destruct (Z_le_gt_dec (Qfloor (q + (1 # 2))) hi) as [L|G]; [exact L|].
    exfalso. assert (H : (hi + 1 <= Qfloor (q + (1 # 2)))%Z) by lia.
    rewrite Zle_Qle, inject_Z_plus in H. change (inject_Z 1) with 1%Q in H.
    lra.
Qed.

Lemma calculateStarRating_range (a : num) :
  (1 <= calculateStarRating a <= 5)%Z.
Proof.
  unfold calculateStarRating.
  repeat match goal with
         | |- context [if ?b then _ else _] => destruct b
         end; lia.
Qed.


Lemma builtin_weights_wf (options : Options) :
  customWeights options = None ->
  Spec.wfWeights (actualWeightsOf options).
Proof.
  intro H. unfold actualWeightsOf, Config.weights. rewrite H.
  repeat match goal with
         | |- context [if ?b then _ else _] => destruct b
         end;
    repeat (constructor; [eexists; split; [reflexivity|discriminate]|]);
    constructor.
Qed.










Example returned_overall_hides_rating :
  overall (calculateScores Examples.justAbove defaultOptions) = fin 72
  /\ rating (calculateScores Examples.justAbove defaultOptions) = 5%Z
  /\ overall (calculateScores Examples.justBelow defaultOptions) = fin 72
  /\ rating (calculateScores Examples.justBelow defaultOptions) = 4%Z.
Proof. repeat split; vm_compute; reflexivity. Qed.

End Overall.

(* ================================================================= *)
(** ** The engines produce well-formed scoring input *)

Section EngineScores.
Import JS.

Lemma clamp_engineScore (a : num) :
  Spec.engineScore (max (fin 0) (min (fin 100) a)).
Proof.
  destruct a as [q| | |].
  - right. apply clamp_within; discriminate.
  - right. apply clamp_within; discriminate.
  - right. apply clamp_within; discriminate.
  - left. reflexivity.
Qed.

Lemma exposure_score_is_engineScore (e : Histogram.Exposure)
  (c : Histogram.Clipping) (d : Histogram.DynamicRange) :
  Spec.engineScore (Histogram.calculateExposureScore e c d).
Proof. unfold Histogram.calculateExposureScore. apply clamp_engineScore. Qed.

Lemma composition_score_is_engineScore (r : Composition.RuleOfThirds)
  (b : Composition.Balance) (h : Composition.Horizon) (s : Composition.Symmetry) :
  Spec.engineScore
    (Composition.sc_score (Composition.calculateCompositionScore r b h s)).
Proof.
  unfold Composition.calculateCompositionScore.
  repeat match goal with
         | |- context [let '(_, _) := (if ?b then _ else _) in _] => destruct b
         end; cbn [Composition.sc_score]; apply clamp_engineScore.
Qed.

(** The first index at which [find] succeeds on [seq]. *)
Lemma find_seq_first (f : nat -> bool) (a n i : nat) :
  find f (seq a n) = Some i ->
  (a <= i < a + n)%nat /\ f i = true
  /\ forall j, (a <= j < i)%nat -> f j = false.
Proof.
  revert a. induction n as [|n IH]; intros a H; [discriminate H|].
  cbn [seq find] in H. destruct (f a) eqn:E.
  - injection H as <-. repeat split; try lia. exact E.
  - destruct (IH (S a) H) as (Hr & Hf & Hj).
    repeat split; try lia; [exact Hf|].
    intros j Hj'. destruct (Nat.eq_dec j a) as [->|Hne]; [exact E|].
    apply Hj. lia.
Qed.

Lemma dynamic_range_bounds (h : Histogram.Histograms) :
  exists lo hi : nat,
    Histogram.dr_range (Histogram.analyzeDynamicRange h)
    = sub (ofZ (Z.of_nat hi)) (ofZ (Z.of_nat lo))
    /\ (lo <= hi <= 255)%nat.
Proof.
  unfold Histogram.analyzeDynamicRange. cbv zeta. cbn [Histogram.dr_range].
  set (used := fun i => gt (Histogram.at_ (Histogram.luminance h) i) (fin 0.1)).
  destruct (find used (seq 0 256)) as [lo|] eqn:Elo.
  - apply find_seq_first in Elo. destruct Elo as (Hlo & Hu & Hfirst).
    destruct (find used (rev (seq 0 256))) as [hi|] eqn:Ehi.
    + apply find_some in Ehi. destruct Ehi as (Hin & Hhi).
      apply in_rev, in_seq in Hin.
      exists lo, hi. split; [reflexivity|]. split; [|lia].
      destruct (le_lt_dec lo hi) as [L|L]; [exact L|].
      rewrite (Hfirst hi) in Hhi by lia. discriminate Hhi.
    + exists lo, 255%nat. split; [reflexivity | lia].
  - destruct (find used (rev (seq 0 256))) as [hi|] eqn:Ehi.
    + apply find_some in Ehi. destruct Ehi as (Hin & Hhi).
      apply in_rev, in_seq in Hin.
      exists 0%nat, hi. split; [reflexivity | lia].
    + exists 0%nat, 255%nat. split; [reflexivity | lia].
Qed.

Lemma dynamic_range_percentage (h : Histogram.Histograms) :
  Spec.within (Histogram.percentage (Histogram.analyzeDynamicRange h)) 0 100.
Proof.
  destruct (dynamic_range_bounds h) as (lo & hi & E & Hle).
  assert (P : Histogram.percentage (Histogram.analyzeDynamicRange h)
              = round (mul (div (Histogram.dr_range
                                   (Histogram.analyzeDynamicRange h))
                                (fin 255)) (fin 100))) by reflexivity.
  rewrite P, E.
  apply (round_within _ 0 100).
  apply (within_denotes _
           ((inject_Z (Z.of_nat hi) - inject_Z (Z.of_nat lo)) / 255 * 100)).
  - apply denotes_mul; [|apply denotes_fin].
    apply denotes_div; [|apply denotes_fin|discriminate].
    apply denotes_sub; apply denotes_ofZ.
  - assert (H1 : inject_Z (Z.of_nat lo) <= inject_Z (Z.of_nat hi))
      by (rewrite <- Zle_Qle; lia).
    assert (H2 : inject_Z (Z.of_nat hi) <= 255)
      by (change 255 with (inject_Z 255); rewrite <- Zle_Qle; lia).
    assert (H3 : 0 <= inject_Z (Z.of_nat lo))
      by (change 0 with (inject_Z 0); rewrite <- Zle_Qle; lia).
    assert (E' : (inject_Z (Z.of_nat hi) - inject_Z (Z.of_nat lo)) / 255 * 100
                 == (inject_Z (Z.of_nat hi) - inject_Z (Z.of_nat lo))
                    * (100 # 255)) by field.
    rewrite E'. clear E' E P.
    change (inject_Z 0) with 0. change (inject_Z 100) with 100.
    generalize dependent (inject_Z (Z.of_nat hi)).
    generalize dependent (inject_Z (Z.of_nat lo)).
    intros a Ha b Hab Hb. split; lra.
Qed.

(** What the histogram engine returns is well-formed input for the scoring
    engine, whatever the buffer. *)
Lemma analyzeHistogram_wf (img : option PixelBuffer) (e : option Scoring.Exif)
  (s : option Sharpness.SharpnessResult) :
  Spec.wfAnalyses
    (Scoring.mkAnalyses e (Some (Histogram.analyzeHistogram img)) s None).
Proof.
  split; [|intros c E; discriminate E].
  intros h E. cbn [Scoring.histogram] in E. injection E as <-.
  destruct img as [info|]; cbn [Histogram.analyzeHistogram].
  - cbn [Histogram.score Histogram.dynamicRange]. split.
    + apply exposure_score_is_engineScore.
    + right. apply dynamic_range_percentage.
  - split; right; eexists;
      (split; [vm_compute; reflexivity | split; vm_compute; discriminate]).
Qed.

End EngineScores.

(* ================================================================= *)
(** ** The luminance histogram and its mean *)

Section HistogramTotal.
Import JS Histogram.

Lemma fold_seq_inv {A : Type} (P : nat -> A -> Prop) (f : A -> nat -> A)
  (n : nat) (init : A) :
  P 0%nat init ->
  (forall k a, (k < n)%nat -> P k a -> P (S k) (f a k)) ->
  P n (fold_left f (seq 0 n) init).
Proof.
  intros H0 Hs. induction n as [|n IH]; [exact H0|].
  rewrite seq_S, fold_left_app. cbn [fold_left Nat.add].
  apply Hs; [lia|]. apply IH. intros k a Hk. apply Hs. lia.
Qed.

Lemma at_bucket (l : list num) (i : nat) :
  Forall Spec.bucket l -> (i < List.length l)%nat -> Spec.bucket (at_ l i).
Proof.
  intros Hl Hi. unfold at_. rewrite Forall_forall in Hl.
  apply Hl. now apply nth_In.
Qed.

Lemma Forall_split {A : Type} (P : A -> Prop) (n : nat) (l : list A) :
  Forall P l -> Forall P (firstn n l) /\ Forall P (skipn n l).
Proof. intro H. apply Forall_app. now rewrite firstn_skipn. Qed.

Lemma bump_valid (hist : list num) (z : Z) :
  (0 <= z < Z.of_nat (List.length hist))%Z ->
  bump hist (fin (inject_Z z))
  = (firstn (Z.to_nat z) hist
     ++ add (at_ hist (Z.to_nat z)) (fin 1) :: skipn (S (Z.to_nat z)) hist)%list.
Proof.
  intro H. unfold bump, fin. rewrite Qred_inject_Z, Qfloor_Z.
  replace (Qeq_bool (inject_Z z) (inject_Z z)) with true
    by (symmetry; apply Qeq_bool_iff; reflexivity).
  replace (0 <=? z)%Z with true by (symmetry; apply Z.leb_le; lia).
  replace (z <? Z.of_nat (List.length hist))%Z with true
    by (symmetry; apply Z.ltb_lt; lia).
  reflexivity.
Qed.

Lemma bump_buckets (hist : list num) (z : Z) :
  (0 <= z < Z.of_nat (List.length hist))%Z ->
  Forall Spec.bucket hist ->
  let hist' := bump hist (fin (inject_Z z)) in
  Forall Spec.bucket hist' /\ Exists Spec.filled hist'
  /\ List.length hist' = List.length hist.
Proof.
  intros Hz Hb hist'. subst hist'. rewrite bump_valid by exact Hz.
  destruct (at_bucket hist (Z.to_nat z) Hb ltac:(lia)) as (q & Eq & Hq).
  rewrite Eq, add_fin.
  split; [|split].
  - apply Forall_app. split; [now apply Forall_split|].
    constructor; [|now apply Forall_split].
    exists (q + 1). split; [reflexivity | lra].
  - apply Exists_app. right. left. exists (q + 1). split; [reflexivity | lra].
  - rewrite length_app, length_firstn. cbn [List.length].
    rewrite length_skipn. lia.
Qed.

Lemma luminanceOf_bucket (r g b : Z) :
  (0 <= r <= 255)%Z -> (0 <= g <= 255)%Z -> (0 <= b <= 255)%Z ->
  exists l, luminanceOf (fin (inject_Z r)) (fin (inject_Z g)) (fin (inject_Z b))
            = fin (inject_Z l)
            /\ (0 <= l <= 255)%Z.
Proof.
  intros Hr Hg Hb. unfold luminanceOf.
  rewrite !mul_fin, !add_fin, round_fin.
  eexists. split; [reflexivity|].
  assert (Hr' : 0 <= inject_Z r <= 255)
    by (change 0 with (inject_Z 0); change 255 with (inject_Z 255);
        rewrite <- !Zle_Qle; lia).
  assert (Hg' : 0 <= inject_Z g <= 255)
    by (change 0 with (inject_Z 0); change 255 with (inject_Z 255);
        rewrite <- !Zle_Qle; lia).
  assert (Hb' : 0 <= inject_Z b <= 255)
    by (change 0 with (inject_Z 0); change 255 with (inject_Z 255);
        rewrite <- !Zle_Qle; lia).
  revert Hr' Hg' Hb'.
  generalize (inject_Z r) (inject_Z g) (inject_Z b). intros x y z Hx Hy Hz.
  split.
  - change 0%Z with (Qfloor 0). apply Qfloor_resp_le. lra.
  - change 255%Z with (Qfloor (255 + (1 # 2))). apply Qfloor_resp_le. lra.
Qed.

Lemma get_pixel (d : list Z) (i : Z) :
  Forall (fun v => (0 <= v <= 255)%Z) d ->
  (0 <= i < Z.of_nat (List.length d))%Z ->
  exists v, get d i = fin (inject_Z v) /\ (0 <= v <= 255)%Z.
Proof.
  intros Hd Hi. unfold get.
  destruct (i <? 0)%Z eqn:E; [apply Z.ltb_lt in E; lia|].
  destruct (nth_error d (Z.to_nat i)) as [v|] eqn:Ev.
  - exists v. split; [apply ofZ_fin|].
    rewrite Forall_forall in Hd. apply Hd. eapply nth_error_In. exact Ev.
  - apply nth_error_None in Ev. lia.
Qed.

(** The luminance histogram of a well-formed RGB buffer, before it is
    normalised. *)
Lemma luminance_counts (info : PixelBuffer) :
  wellFormed info -> channels info = 3%Z ->
  exists hl : list num,
    luminance (computeHistogram info)
    = map (fun v => mul (div v (ofZ (width info * height info))) (fin 100)) hl
    /\ Forall Spec.bucket hl /\ Exists Spec.filled hl /\ List.length hl = 256%nat.
Proof.
  intros (Hw & Hh & _ & Hlen & Hd) Hc. rewrite Hc in Hlen.
  unfold computeHistogram. rewrite Hc.
  set (idxs := rangeStep 0 (Z.of_nat (List.length (data info))) 3).
  match goal with
  | |- context [fold_left ?f idxs ?init] =>
      assert (Inv : (fun k a =>
                       let '(_, _, _, hl) := a in
                       Forall Spec.bucket hl /\ List.length hl = 256%nat
                       /\ ((0 < k)%nat -> Exists Spec.filled hl))
                      (0 + List.length idxs)%nat (fold_left f idxs init))
  end.
  { apply fold_left_inv.
    - split; [|split; [reflexivity|lia]].
      apply Forall_forall. intros a Ha. apply repeat_spec in Ha. subst a.
      exists 0. split; [reflexivity | lra].
    - intros k [[[hr hg] hb] hl] i Hi (Hb & Hl & _).
      apply in_rangeStep_bounds in Hi; [|lia]. destruct Hi as (Hi0 & Hi1 & Hi3).
      assert (Hi2 : (i + 2 < Z.of_nat (List.length (data info)))%Z).
      { rewrite Hlen in *.
        assert (Hm : (i = 3 * (i / 3))%Z)
          by (rewrite (Z.div_mod i 3) at 1 by lia; lia).
        lia. }
      destruct (get_pixel (data info) i Hd ltac:(lia)) as (r & -> & Hr).
      destruct (get_pixel (data info) (i + 1) Hd ltac:(lia)) as (g & -> & Hg).
      destruct (get_pixel (data info) (i + 2) Hd ltac:(lia)) as (b & -> & Hbl).
      destruct (luminanceOf_bucket r g b Hr Hg Hbl) as (l & -> & Hlum).
      destruct (bump_buckets hl l ltac:(lia) Hb) as (H1 & H2 & H3).
      split; [exact H1|]. split; [lia|]. intros _. exact H2. }
  destruct (fold_left _ idxs _) as [[[hr hg] hb] hl].
  destruct Inv as (Hb & Hl & Hf).
  exists hl. cbn [luminance]. split; [reflexivity|].
  split; [exact Hb|]. split; [|exact Hl].
  apply Hf. subst idxs. unfold rangeStep.
  rewrite length_map, length_seq, Hlen.
  assert (Hpos : (0 < (width info * height info * 3 - 0 + 3 - 1) / 3)%Z).
  { apply Z.div_str_pos. nia. }
  lia.
Qed.

Lemma fin_inj (p q : Q) : fin p = fin q -> p == q.
Proof. unfold fin. intro H. injection H as H. now apply Qred_eq_iff. Qed.

Lemma mean_of_buckets (lum : list num) :
  Forall Spec.bucket lum -> Exists Spec.filled lum -> List.length lum = 256%nat ->
  exists q, meanBrightnessOf lum = Fin q /\ 0 <= q <= 255.
Proof.
  intros Hb Hf Hl. unfold meanBrightnessOf.
  match goal with
  | |- context [fold_left ?f (seq 0 256) ?init] =>
      assert (Inv : (fun k s =>
                       exists a b, s = (fin a, fin b) /\ 0 <= a <= 255 * b
                                   /\ 0 <= b
                                   /\ forall i q, (i < k)%nat ->
                                                  at_ lum i = fin q -> q <= b)
                      256%nat (fold_left f (seq 0 256) init))
  end.
  { apply fold_seq_inv.
    - exists 0, 0. split; [reflexivity|]. split; [lra|]. split; [lra|].
      intros i q Hi. lia.
    - intros k s Hk (a & b & -> & Ha & Hb0 & Hprev).
      destruct (at_bucket lum k Hb ltac:(lia)) as (qk & Ek & Hqk).
      rewrite Ek, ofZ_fin, mul_fin, !add_fin.
      exists (a + inject_Z (Z.of_nat k) * qk), (b + qk).
      split; [reflexivity|].
      assert (Hk' : 0 <= inject_Z (Z.of_nat k) <= 255)
        by (change 0 with (inject_Z 0); change 255 with (inject_Z 255);
            rewrite <- !Zle_Qle; lia).
      revert Hk'. generalize (inject_Z (Z.of_nat k)). intros c Hc.
      split; [nra|]. split; [lra|].
      intros i q Hi Eq. destruct (Nat.eq_dec i k) as [->|Hne].
      + rewrite Ek in Eq. apply fin_inj in Eq. lra.
      + assert (Hq := Hprev i q ltac:(lia) Eq). lra. }
  destruct (fold_left _ (seq 0 256) _) as [ws tw].
  destruct Inv as (a & b & E & Ha & Hb0 & Hall). injection E as -> ->.
  assert (Hpos : 0 < b).
  { apply Exists_exists in Hf. destruct Hf as (x & Hx & q & -> & Hq).
    destruct (In_nth lum (fin q) NaN Hx) as (i & Hi & Ei).
    assert (Hle := Hall i q ltac:(lia) Ei). lra. }
  rewrite div_fin by lra. eexists. split; [reflexivity|].
  rewrite Qred_correct. split.
  - apply Qle_shift_div_l; lra.
  - apply Qle_shift_div_r; lra.
Qed.

(** On every well-formed RGB buffer the mean brightness is a finite number
    between 0 and 255. *)
Lemma mean_brightness_finite (info : PixelBuffer) :
  wellFormed info -> channels info = 3%Z ->
  exists q, meanBrightnessOf (luminance (computeHistogram info)) = Fin q
            /\ 0 <= q <= 255.
Proof.
  intros Hwf Hc.
  destruct (luminance_counts info Hwf Hc) as (hl & -> & Hb & Hf & Hl).
  destruct Hwf as (Hw & Hh & _).
  assert (HN : 0 < inject_Z (width info * height info))
    by (change 0 with (inject_Z 0); rewrite <- Zlt_Qlt; nia).
  assert (Hnorm : forall v q, v = fin q ->
            mul (div v (ofZ (width info * height info))) (fin 100)
            = fin (q / inject_Z (width info * height info) * 100)).
  { intros v q ->. rewrite ofZ_fin, div_fin by lra. now rewrite mul_fin. }
  apply mean_of_buckets.
  - apply Forall_map. eapply Forall_impl; [|exact Hb].
    intros v (q & Ev & Hq). eexists. split; [exact (Hnorm v q Ev)|].
    apply Qmult_le_0_compat; [|discriminate].
    apply Qle_shift_div_l; lra.
  - apply Exists_map. eapply Exists_impl; [|exact Hf].
    intros v (q & Ev & Hq). eexists. split; [exact (Hnorm v q Ev)|].
    apply Qmult_lt_0_compat; [|reflexivity].
    apply Qlt_shift_div_l; lra.
  - now rewrite length_map.
Qed.

End HistogramTotal.

(* ================================================================= *)
(** ** Exposure bands *)

Section Exposure.
Import JS Histogram.

Lemma gt_Fin_iff (q t : Q) : gt (Fin q) (fin t) = true <-> (t < q)%Q.
Proof. apply (gt_fin_iff (Fin q) t). Qed.

Lemma ge_Fin_iff (q t : Q) : ge (Fin q) (fin t) = true <-> (t <= q)%Q.
Proof. apply (ge_fin_iff (Fin q) t). Qed.


Lemma analyzeExposure_assessment (h : Histograms) :
  assessment (analyzeExposure h)
  = fst (assess (meanBrightnessOf (luminance h))).
Proof.
  unfold analyzeExposure.
  destruct (assess (meanBrightnessOf (luminance h))). reflexivity.
Qed.






Lemma gray180_wellFormed : wellFormed Examples.gray180.
Proof.
  unfold wellFormed, Examples.gray180; cbn.
  repeat split; try lia. repeat constructor; lia.
Qed.



End Exposure.

(* ================================================================= *)
(** ** Gradient consistency under two runs of the random sampler *)

Section Consistency.
Import JS Sharpness.
Local Open Scope R_scope.

Lemma atan2_flat : atan2 (Fin 0) (Fin 0) = Some 0.
Proof. reflexivity. Qed.

Lemma atan2_falling : atan2 (Fin 0) (Fin (-7)) = Some PI.
Proof.
  unfold atan2. cbn [Qsgn Qcompare Qnum Qden Z.mul Pos.mul Z.compare].
  f_equal. replace (Q2R 0 / Q2R (-7)) with 0.
  - rewrite atan_0. Lra.lra.
  - unfold Q2R; cbn [Qnum Qden]. field. 
Qed.

Lemma gradientsA :
  map (sampleGradient (data Examples.stepEdge) 16 15 Examples.drawsA)
      (seq 0 sampleCount)
  = repeat (Fin 0, Fin 0) 20.
Proof. vm_compute. reflexivity. Qed.

Lemma gradientsB :
  map (sampleGradient (data Examples.stepEdge) 16 15 Examples.drawsB)
      (seq 0 sampleCount)
  = flat_map (fun _ => [(Fin 0, Fin 0); (Fin (-7), Fin 0)]) (seq 0 10).
Proof. vm_compute. reflexivity. Qed.

Lemma anglesOf (d : list Z) (w h : Z) (rand : Random) (l : list nat) :
  map (sampleAngle d w h rand) l
  = map (fun g => atan2 (snd g) (fst g)) (map (sampleGradient d w h rand) l).
Proof.
  rewrite map_map. apply map_ext. intro i. unfold sampleAngle.
  destruct (sampleGradient d w h rand i). reflexivity.
Qed.

Lemma consistencyA :
  analyzeGradientConsistency (data Examples.stepEdge) 16 15 Examples.drawsA = Some 1.
Proof.
  unfold analyzeGradientConsistency. rewrite anglesOf, gradientsA.
  cbn [repeat map fst snd]. rewrite atan2_flat.
  unfold resultantLength. cbn [fold_left rlift2 rmap option_map].
  rewrite sin_0, cos_0. f_equal.
  change (INR sampleCount) with (INR 20). rewrite INR_IZR_INZ.
  change (Z.of_nat 20) with 20%Z.
  replace (_ + _) with (20 * 20) by Lra.lra.
  rewrite sqrt_square by Lra.lra. Lra.lra.
Qed.

Lemma consistencyB :
  analyzeGradientConsistency (data Examples.stepEdge) 16 15 Examples.drawsB = Some 0.
Proof.
  unfold analyzeGradientConsistency. rewrite anglesOf, gradientsB.
  cbn [seq flat_map app map fst snd]. rewrite atan2_flat, atan2_falling.
  unfold resultantLength. cbn [fold_left rlift2 rmap option_map].
  rewrite sin_0, cos_0, sin_PI, cos_PI. f_equal.
  replace (_ + _) with 0 by Lra.lra.
  rewrite sqrt_0. unfold Rdiv. apply Rmult_0_l.
Qed.

Lemma rgt_one : rgt (Some 1) (9 / 10) = true.
Proof. unfold rgt. destruct (Rlt_dec (9 / 10) 1); [reflexivity | exfalso; Lra.lra]. Qed.

Lemma rgt_zero : rgt (Some 0) (9 / 10) = false.
Proof. unfold rgt. destruct (Rlt_dec (9 / 10) 0); [exfalso; Lra.lra | reflexivity]. Qed.

Lemma stepEdge_wellFormed : wellFormed Examples.stepEdge.
Proof.
  unfold wellFormed. cbn [width height channels data Examples.stepEdge].
  repeat split; try lia; try (vm_compute; reflexivity).
  apply Forall_forall. intros v Hv.
  apply in_flat_map in Hv. destruct Hv as (y & _ & Hv).
  apply in_map_iff in Hv. destruct Hv as (x & <- & _).
  destruct (x <=? 13)%Z; lia.
Qed.

Lemma blurA :
  let b := blur (analyzeSharpness (Some Examples.stepEdge) Examples.drawsA) in
  b_type b = "defocus" /\ b_severity b = fin 0.85.
Proof.
  cbn [analyzeSharpness analyzeSharpnessWith blur]. unfold detectBlurType.
  cbv zeta. change (width Examples.stepEdge) with 16%Z.
  change (height Examples.stepEdge) with 15%Z.
  rewrite consistencyA, rgt_one. split; lazy; reflexivity.
Qed.

Lemma blurB :
  let b := blur (analyzeSharpness (Some Examples.stepEdge) Examples.drawsB) in
  b_type b = "soft" /\ b_severity b = fin 0.2.
Proof.
  cbn [analyzeSharpness analyzeSharpnessWith blur]. unfold detectBlurType.
  cbv zeta. change (width Examples.stepEdge) with 16%Z.
  change (height Examples.stepEdge) with 15%Z.
  rewrite consistencyB, rgt_zero. split; lazy; reflexivity.
Qed.

(** C2 as stated fails: on one and the same well-formed buffer two runs
    that receive different [Math.random] draws classify the blur differently,
    once as a severe defocus and once as a mere softness. *)
Lemma sharpness_runs_differ :
  wellFormed Examples.stepEdge
  /\ (forall n, 0 <= Examples.drawsA n < 1 /\ 0 <= Examples.drawsB n < 1)%Q
  /\ ~ (forall (img : PixelBuffer) (rand1 rand2 : Random),
           analyzeSharpness (Some img) rand1 = analyzeSharpness (Some img) rand2).
Proof.
  split; [exact stepEdge_wellFormed|]. split.
  - intro n. unfold Examples.drawsA, Examples.drawsB.
    destruct (n mod 4 =? 2)%nat; repeat split; discriminate.
  - intro H. specialize (H Examples.stepEdge Examples.drawsA Examples.drawsB).
    destruct blurA as [HA _]. destruct blurB as [HB _].
    cbv zeta in HA, HB. rewrite H, HB in HA. discriminate HA.
Qed.

End Consistency.

(* ================================================================= *)
(** ** What the sharpness result depends on *)

Section Determinism.
Import JS Sharpness.

Lemma sampleGradient_ext (d : list Z) (w h : Z) (rand1 rand2 : Random) (i : nat) :
  rand1 (2 * i)%nat = rand2 (2 * i)%nat ->
  rand1 (2 * i + 1)%nat = rand2 (2 * i + 1)%nat ->
  sampleGradient d w h rand1 i = sampleGradient d w h rand2 i.
Proof. intros H1 H2. unfold sampleGradient. now rewrite H1, H2. Qed.

Lemma consistency_ext (d : list Z) (w h : Z) (rand1 rand2 : Random) :
  (forall n, (n < 40)%nat -> rand1 n = rand2 n) ->
  analyzeGradientConsistency d w h rand1 = analyzeGradientConsistency d w h rand2.
Proof.
  intro H. unfold analyzeGradientConsistency. f_equal.
  apply map_ext_in. intros i Hi. apply in_seq in Hi.
  unfold sampleCount in Hi. unfold sampleAngle.
  rewrite (sampleGradient_ext d w h rand1 rand2 i); [reflexivity| |];
    apply H; lia.
Qed.

Lemma lt_40_80 (a : num) : lt a (fin 40) = true -> lt a (fin 80) = true.
Proof.
  destruct a as [q| | |]; try discriminate; [|reflexivity].
  rewrite !lt_Fin_iff. lra.
Qed.

(** The blur type as a function of the one draw-dependent test. *)
Lemma blur_type_cases (d : list Z) (w h : Z) (os : num) (rand1 rand2 : Random) :
  let t1 := b_type (detectBlurType d w h os rand1) in
  let t2 := b_type (detectBlurType d w h os rand2) in
  t1 = t2 \/ (t1 = "defocus" /\ t2 = "soft") \/ (t1 = "soft" /\ t2 = "defocus").
Proof.
  unfold detectBlurType. cbv zeta.
  set (hg := calculateDirectionalGradient d w h "horizontal").
  set (vg := calculateDirectionalGradient d w h "vertical").
  assert (H80 := lt_40_80 os).
  destruct ((os >? fin 100)%js || ((hg + vg) / fin 2 >? fin 20)%js);
    [left; reflexivity|].
  destruct ((abs (hg / orElse vg (fin 1) - fin 1) >? fin 0.5)%js
            && (os <? fin 50)%js && ((hg + vg) / fin 2 <? fin 15)%js);
    [left; reflexivity|].
  destruct (os <? fin 40)%js.
  - rewrite (H80 eq_refl).
    destruct (rgt (analyzeGradientConsistency d w h rand1) (9 / 10)%R);
      destruct (rgt (analyzeGradientConsistency d w h rand2) (9 / 10)%R);
      destruct ((hg + vg) / fin 2 <? fin 12)%js; cbn; tauto.
  - cbn [andb]. destruct (os <? fin 80)%js; left; reflexivity.
Qed.

(** C2, as the code has it: a run of the sharpness engine is a function of
    the buffer and of the forty values [Math.random] returns: two runs that
    see the same draws return identical results.  Whatever the draws, the
    Laplacian variance, the region map, the edge statistics and the focus
    plane agree, and the blur type can differ only between ['defocus'] and
    ['soft']. *)
Theorem sharpness_determined_by_draws :
  forall (img : option PixelBuffer) (rand1 rand2 : Random),
    let r1 := analyzeSharpness img rand1 in
    let r2 := analyzeSharpness img rand2 in
    ((forall n, (n < 40)%nat -> rand1 n = rand2 n) -> r1 = r2)
    /\ o_variance (overall r1) = o_variance (overall r2)
    /\ regions r1 = regions r2
    /\ edges r1 = edges r2
    /\ focusPlane r1 = focusPlane r2
    /\ (b_type (blur r1) = b_type (blur r2)
        \/ (b_type (blur r1) = "defocus" /\ b_type (blur r2) = "soft")
        \/ (b_type (blur r1) = "soft" /\ b_type (blur r2) = "defocus")).
Proof.
  intros [info|] rand1 rand2; cbn [analyzeSharpness analyzeSharpnessWith];
    [|cbv zeta; repeat split; auto].
  cbv zeta. cbn [overall regions edges focusPlane blur o_variance].
  split; [|repeat split; try reflexivity; apply blur_type_cases].
  intro H. unfold detectBlurType.
  now rewrite (consistency_ext _ _ _ rand1 rand2 H).
Qed.

Lemma sharpness_determined_by_draws_witness :
  (forall n, (n < 40)%nat -> Examples.drawsB n = Examples.drawsLate n)
  /\ Examples.drawsB 40%nat <> Examples.drawsLate 40%nat
  /\ analyzeSharpness (Some Examples.stepEdge) Examples.drawsB
     = analyzeSharpness (Some Examples.stepEdge) Examples.drawsLate.
Proof.
  assert (H : forall n, (n < 40)%nat ->
                        Examples.drawsB n = Examples.drawsLate n).
  { intros n Hn. unfold Examples.drawsLate.
    apply Nat.ltb_lt in Hn. now rewrite Hn. }
  split; [exact H|]. split; [discriminate|].
  exact (proj1 (sharpness_determined_by_draws (Some Examples.stepEdge)
                  Examples.drawsB Examples.drawsLate) H).
Defined.

End Determinism.

(* ================================================================= *)
(** ** Uniform buffers *)

Section Uniform.
Import JS.

Lemma interior_inv {A : Type} (P : nat -> A -> Prop) (w h : Z)
  (body : A -> Z -> Z -> A) (init : A) :
  P 0%nat init ->
  (forall k a x y, (1 <= x < w - 1)%Z -> (1 <= y < h - 1)%Z ->
                   P k a -> P (S k) (body a x y)) ->
  P (Z.to_nat (h - 2) * Z.to_nat (w - 2))%nat
    (Sharpness.interior w h body init).
Proof.
  intros H0 Hs. unfold Sharpness.interior.
  replace (Z.to_nat (h - 2)) with (List.length (range 1 (h - 1)))
    by (rewrite range_length; f_equal; lia).
  replace (Z.to_nat (w - 2)) with (List.length (range 1 (w - 1)))
    by (rewrite range_length; f_equal; lia).
  apply (nested_inv P (range 1 (h - 1)) (range 1 (w - 1))
           (fun a y x => body a x y) init H0).
  intros k a x y Hx Hy. apply Hs; now apply in_range.
Qed.

Variables v w h : Z.
Hypothesis Hw : (3 <= w)%Z.
Hypothesis Hh : (3 <= h)%Z.

Let d : list Z := repeat v (Z.to_nat (w * h)).

Lemma get_d (idx : Z) : (0 <= idx < w * h)%Z -> get d idx = fin (inject_Z v).
Proof. intro H. apply get_uniform. rewrite Z2Nat.id; lia. Qed.

Lemma interior_count_pos :
  (0 < Z.of_nat (Z.to_nat (h - 2) * Z.to_nat (w - 2)))%Z.
Proof. nia. Qed.

Lemma uniform_laplacianAt (x y : Z) :
  (1 <= x < w - 1)%Z -> (1 <= y < h - 1)%Z ->
  Sharpness.laplacianAt d w (y * w + x) = fin 0.
Proof.
  intros Hx Hy. unfold Sharpness.laplacianAt.
  rewrite !get_d by nia. rewrite mul_fin, !add_fin. apply fin_eq. ring.
Qed.

Lemma uniform_laplacian_variance :
  Sharpness.calculateLaplacianVariance d w h = fin 0.
Proof.
  unfold Sharpness.calculateLaplacianVariance.
  set (N := (Z.to_nat (h - 2) * Z.to_nat (w - 2))%nat).
  match goal with
  | |- context [Sharpness.interior w h ?body ?init] =>
      assert (E : Sharpness.interior w h body init
                  = (fin 0, fin 0, fin (inject_Z (Z.of_nat N))))
  end.
  { apply (interior_inv
             (fun k a => a = (fin 0, fin 0, fin (inject_Z (Z.of_nat k))))).
    - reflexivity.
    - intros k a x y Hx Hy ->. cbv zeta.
      rewrite uniform_laplacianAt by assumption.
      rewrite abs_fin, mul_fin, !add_fin.
      apply (f_equal2 pair); [apply (f_equal2 pair); reflexivity|].
      apply fin_eq.
      rewrite Nat2Z.inj_succ, <- Z.add_1_r, inject_Z_plus. reflexivity. }
  rewrite E.
  assert (HN : ~ inject_Z (Z.of_nat N) == 0).
  { change 0 with (inject_Z 0). rewrite inject_Z_injective.
    pose proof interior_count_pos. subst N. lia. }
  rewrite !div_fin by exact HN. rewrite mul_fin, sub_fin.
  apply fin_eq. field. exact HN.
Qed.

Lemma uniform_sobel (x y : Z) :
  (1 <= x < w - 1)%Z -> (1 <= y < h - 1)%Z ->
  Sharpness.sobelX d w (y * w + x) = fin 0
  /\ Sharpness.sobelY d w (y * w + x) = fin 0.
Proof.
  intros Hx Hy. unfold Sharpness.sobelX, Sharpness.sobelY.
  rewrite !get_d by nia.
  rewrite ?neg_fin, ?mul_fin, ?sub_fin, ?add_fin, ?sub_fin, ?add_fin.
  split; apply fin_eq; ring.
Qed.

Lemma uniform_edge_strength :
  Sharpness.averageStrength (Sharpness.analyzeEdges d w h) = fin 0.
Proof.
  unfold Sharpness.analyzeEdges.
  set (N := (Z.to_nat (h - 2) * Z.to_nat (w - 2))%nat).
  match goal with
  | |- context [Sharpness.interior w h ?body ?init] =>
      assert (E : Sharpness.interior w h body init
                  = (fin 0, fin 0, fin 0, fin (inject_Z (Z.of_nat N))))
  end.
  { apply (interior_inv
             (fun k a => a = (fin 0, fin 0, fin 0,
                              fin (inject_Z (Z.of_nat k))))).
    - reflexivity.
    - intros k a x y Hx Hy ->. cbv zeta.
      destruct (uniform_sobel x y Hx Hy) as [-> ->].
      rewrite mul_fin, add_fin.
      replace (sqrt (fin (0 * 0 + 0 * 0))) with (fin 0) by reflexivity.
      rewrite !gt_fin_fin. cbn [Qle_bool negb Qnum Qden Z.mul Z.leb Z.compare
                                Pos.mul Pos.compare Pos.compare_cont].
      rewrite !add_fin.
      apply (f_equal2 pair); [reflexivity|].
      apply fin_eq.
      rewrite Nat2Z.inj_succ, <- Z.add_1_r, inject_Z_plus. reflexivity. }
  rewrite E. cbn [Sharpness.averageStrength].
  assert (HN : ~ inject_Z (Z.of_nat N) == 0).
  { change 0 with (inject_Z 0). rewrite inject_Z_injective.
    pose proof interior_count_pos. subst N. lia. }
  rewrite div_fin by exact HN. rewrite round_fin.
  apply fin_eq.
  assert (Ez : 0 / inject_Z (Z.of_nat N) + (1 # 2) == 1 # 2) by (field; exact HN).
  rewrite Ez. reflexivity.
Qed.

Lemma count_step (k : nat) :
  fin (inject_Z (Z.of_nat k) + 1) = fin (inject_Z (Z.of_nat (S k))).
Proof.
  apply fin_eq. rewrite Nat2Z.inj_succ, <- Z.add_1_r, inject_Z_plus.
  reflexivity.
Qed.

Lemma count_nonzero (n : nat) : (0 < n)%nat -> ~ inject_Z (Z.of_nat n) == 0.
Proof.
  intro H. change 0 with (inject_Z 0). rewrite inject_Z_injective. lia.
Qed.

Lemma uniform_symmetry :
  Composition.sy_overall (Composition.analyzeSymmetry d w h) = fin 100.
Proof.
  unfold Composition.analyzeSymmetry.
  set (ly1 := range 0 h). set (lx1 := range 0 ((w + 1) / 2)).
  set (ly2 := range 0 ((h + 1) / 2)). set (lx2 := range 0 w).
  assert (Hdiv_w : (0 < (w + 1) / 2 <= w)%Z)
    by (split; [apply Z.div_str_pos; lia | apply Z.div_le_upper_bound; lia]).
  assert (Hdiv_h : (0 < (h + 1) / 2 <= h)%Z)
    by (split; [apply Z.div_str_pos; lia | apply Z.div_le_upper_bound; lia]).
  assert (Hhalf_w : forall x, (0 <= x < (w + 1) / 2)%Z -> (2 * x < w + 1)%Z).
  { intros x Hx. pose proof (Z.mul_div_le (w + 1) 2). lia. }
  assert (Hhalf_h : forall y, (0 <= y < (h + 1) / 2)%Z -> (2 * y < h + 1)%Z).
  { intros y Hy. pose proof (Z.mul_div_le (h + 1) 2). lia. }
  match goal with
  | |- context [fold_left ?f ly1 ?init] =>
      assert (E1 : fold_left f ly1 init
                   = (fin 0, fin (inject_Z (Z.of_nat
                                   (List.length ly1 * List.length lx1)))))
  end.
  { refine (nested_inv
              (fun k a => a = (fin 0, fin (inject_Z (Z.of_nat k)))) ly1 lx1
              _ _ _ _).
    - reflexivity.
    - intros k a x y Hx Hy ->. apply in_range in Hx, Hy.
      pose proof (Hhalf_w x Hx). cbv zeta.
      rewrite !get_d by nia. rewrite sub_fin, abs_fin, !add_fin, count_step.
      apply (f_equal2 pair); [|reflexivity]. apply fin_eq.
      assert (Ez : inject_Z v - inject_Z v == 0) by ring.
      rewrite Ez. reflexivity. }
  rewrite E1.
  match goal with
  | |- context [fold_left ?f ly2 ?init] =>
      assert (E2 : fold_left f ly2 init
                   = (fin 0, fin (inject_Z (Z.of_nat
                                   (List.length ly2 * List.length lx2)))))
  end.
  { refine (nested_inv
              (fun k a => a = (fin 0, fin (inject_Z (Z.of_nat k)))) ly2 lx2
              _ _ _ _).
    - reflexivity.
    - intros k a x y Hx Hy ->. apply in_range in Hx, Hy.
      pose proof (Hhalf_h y Hy). cbv zeta.
      rewrite !get_d by nia. rewrite sub_fin, abs_fin, !add_fin, count_step.
      apply (f_equal2 pair); [|reflexivity]. apply fin_eq.
      assert (Ez : inject_Z v - inject_Z v == 0) by ring.
      rewrite Ez. reflexivity. }
  rewrite E2. cbn [Composition.sy_overall].
  set (c1 := inject_Z (Z.of_nat (List.length ly1 * List.length lx1))).
  set (c2 := inject_Z (Z.of_nat (List.length ly2 * List.length lx2))).
  assert (H1 : ~ c1 == 0).
  { apply count_nonzero. subst ly1 lx1. rewrite !range_length. nia. }
  assert (H2 : ~ c2 == 0).
  { apply count_nonzero. subst ly2 lx2. rewrite !range_length. nia. }
  rewrite !mul_fin.
  rewrite !div_fin, !sub_fin, add_fin, div_fin, mul_fin, round_fin;
    try discriminate;
    try (intro Hz; apply Qmult_integral in Hz; destruct Hz as [Hz|Hz];
         [contradiction | discriminate Hz]).
  apply fin_eq.
  assert (Ez : ((1 - 0 / (c1 * 255)) + (1 - 0 / (c2 * 255))) / 2 * 100 + (1 # 2)
               == 100 + (1 # 2)).
  { field. split; assumption. }
  rewrite Ez. reflexivity.
Qed.

Lemma uniform_quadrant (x1 y1 x2 y2 : Z) :
  (0 <= x1 < x2)%Z -> (x2 <= w)%Z -> (0 <= y1 < y2)%Z -> (y2 <= h)%Z ->
  Composition.calculateQuadrantWeight d w x1 y1 x2 y2 = fin (inject_Z v).
Proof.
  intros Hx1 Hx2 Hy1 Hy2. unfold Composition.calculateQuadrantWeight.
  set (ly := range y1 y2). set (lx := range x1 x2).
  match goal with
  | |- context [fold_left ?f ly ?init] =>
      assert (E : fold_left f ly init
                  = (fin (inject_Z (Z.of_nat (List.length ly * List.length lx))
                          * inject_Z v),
                     fin (inject_Z (Z.of_nat (List.length ly * List.length lx)))))
  end.
  { refine (nested_inv
              (fun k a => a = (fin (inject_Z (Z.of_nat k) * inject_Z v),
                               fin (inject_Z (Z.of_nat k)))) ly lx _ _ _ _).
    - apply (f_equal2 pair); apply fin_eq; cbn; ring.
    - intros k a x y Hx Hy ->. apply in_range in Hx, Hy.
      rewrite get_d by nia. rewrite !add_fin, count_step.
      apply (f_equal2 pair); [|reflexivity]. apply fin_eq.
      rewrite Nat2Z.inj_succ, <- Z.add_1_r, inject_Z_plus.
      change (inject_Z 1) with 1. ring. }
  rewrite E. set (K := inject_Z (Z.of_nat (List.length ly * List.length lx))).
  assert (HK : 0 < K).
  { subst K. change 0 with (inject_Z 0). rewrite <- Zlt_Qlt.
    subst ly lx. rewrite !range_length. nia. }
  rewrite gt_fin_fin.
  replace (Qle_bool K 0) with false
    by (symmetry; apply not_true_iff_false; rewrite Qle_bool_iff; lra).
  cbn [negb]. rewrite div_fin by lra. apply fin_eq. field. lra.
Qed.

Lemma uniform_balance :
  (1 <= v)%Z ->
  Composition.bl_type (Composition.analyzeVisualBalance d w h) = "symmetrical".
Proof.
  intro Hv. unfold Composition.analyzeVisualBalance. cbv zeta.
  cbn [Composition.topLeft Composition.topRight Composition.bottomLeft
       Composition.bottomRight Composition.bl_type].
  assert (Hmx : (0 < w / 2 < w)%Z)
    by (split; [apply Z.div_str_pos; lia | apply Z.div_lt; lia]).
  assert (Hmy : (0 < h / 2 < h)%Z)
    by (split; [apply Z.div_str_pos; lia | apply Z.div_lt; lia]).
  rewrite !uniform_quadrant by lia.
  assert (Hq : 0 < inject_Z v)
    by (change 0 with (inject_Z 0); rewrite <- Zlt_Qlt; lia).
  rewrite !add_fin, !sub_fin, !abs_fin.
  rewrite !div_fin by lra. rewrite !sub_fin.
  assert (E1 : fin (1 - Qabs (inject_Z v + inject_Z v
                              - (inject_Z v + inject_Z v))
                        / (inject_Z v + inject_Z v
                           + (inject_Z v + inject_Z v))) = fin 1).
  { apply fin_eq.
    assert (Ez : inject_Z v + inject_Z v - (inject_Z v + inject_Z v) == 0)
      by ring.
    rewrite Ez. change (Qabs 0) with 0. field. lra. }
  rewrite !E1. reflexivity.
Qed.

Lemma uniform_no_interest_points :
  Composition.findInterestPoints d w h = [].
Proof.
  unfold Composition.findInterestPoints, Composition.findInterestPointsWith.
  cbv zeta.
  match goal with
  | |- firstn 10 (sortBy _ ?pts) = [] => assert (E : pts = [])
  end.
  { apply fold_left_id. intros by_ Hby.
    apply in_rangeStep_bounds in Hby; [|reflexivity]. destruct Hby as [Hby _].
    apply fold_left_id. intros bx Hbx.
    apply in_rangeStep_bounds in Hbx; [|reflexivity]. destruct Hbx as [Hbx _].
    match goal with
    | |- context [fold_left ?f ?ly (fin 0, bx, by_)] =>
        assert (E : fold_left f ly (fin 0, bx, by_) = (fin 0, bx, by_))
    end.
    { apply fold_left_id. intros y Hy. apply in_range in Hy.
      apply fold_left_id. intros x Hx. apply in_range in Hx.
      rewrite !get_d by nia. rewrite !sub_fin, !abs_fin, add_fin, gt_fin_fin.
      assert (Ez : Qabs (inject_Z v - inject_Z v)
                   + Qabs (inject_Z v - inject_Z v) == 0).
      { assert (Ev : inject_Z v - inject_Z v == 0) by ring.
        rewrite Ev. reflexivity. }
      rewrite Ez. reflexivity. }
    rewrite E. reflexivity. }
  rewrite E. reflexivity.
Qed.

Lemma sqrt_fin_nonneg (x : Q) :
  0 <= x -> exists r, sqrt (fin x) = fin r /\ 0 <= r.
Proof.
  intro H. unfold fin at 1. cbn [sqrt]. unfold Qsgn.
  destruct (0 ?= Qred x)%Q eqn:E;
    try (eexists; split; [reflexivity|];
         unfold Qle; cbn [Qnum Qden Z.mul]; rewrite Z.mul_1_r;
         apply Z.sqrt_nonneg).
  apply Qgt_alt in E. rewrite Qred_correct in E. lra.
Qed.

Lemma div_PInf_fin (r : Q) : 0 <= r -> div PInf (fin r) = PInf.
Proof.
  intro H. unfold fin. cbn [div]. unfold Qsgn.
  destruct (0 ?= Qred r)%Q eqn:E; try reflexivity.
  apply Qgt_alt in E. rewrite Qred_correct in E. lra.
Qed.

Lemma uniform_thirds_alignment :
  Composition.alignment (Composition.analyzeRuleOfThirds d w h) = fin 0.
Proof.
  unfold Composition.analyzeRuleOfThirds. cbv zeta.
  rewrite uniform_no_interest_points. cbn [fold_left Composition.alignment].
  rewrite !ofZ_fin. rewrite !div_fin by discriminate.
  rewrite !mul_fin, add_fin.
  destruct (sqrt_fin_nonneg
              (inject_Z w / 6 * (inject_Z w / 6)
               + inject_Z h / 6 * (inject_Z h / 6))) as (r & -> & Hr).
  { generalize (inject_Z w / 6) (inject_Z h / 6). intros a b. nra. }
  rewrite div_PInf_fin by exact Hr. reflexivity.
Qed.

End Uniform.

(* ================================================================= *)
(** ** All-black frames *)

Section BlackFrame.
Import JS.

Variables w h : Z.
Hypothesis Hw : (3 <= w)%Z.
Hypothesis Hh : (3 <= h)%Z.

Let d : list Z := repeat 0%Z (Z.to_nat (w * h)).

Lemma black_balance :
  Composition.bl_horizontal (Composition.analyzeVisualBalance d w h) = NaN
  /\ Composition.bl_vertical (Composition.analyzeVisualBalance d w h) = NaN
  /\ Composition.bl_type (Composition.analyzeVisualBalance d w h)
     = "asymmetrical".
Proof.
  unfold Composition.analyzeVisualBalance. cbv zeta.
  cbn [Composition.topLeft Composition.topRight Composition.bottomLeft
       Composition.bottomRight Composition.bl_type Composition.bl_horizontal
       Composition.bl_vertical].
  assert (Hmx : (0 < w / 2 < w)%Z)
    by (split; [apply Z.div_str_pos; lia | apply Z.div_lt; lia]).
  assert (Hmy : (0 < h / 2 < h)%Z)
    by (split; [apply Z.div_str_pos; lia | apply Z.div_lt; lia]).
  unfold d. rewrite !(uniform_quadrant 0 w h Hw Hh) by lia.
  repeat split; reflexivity.
Qed.

Lemma black_center_of_mass :
  Composition.centerOfMass (Composition.analyzeWeightDistribution d w h)
  = (NaN, NaN).
Proof.
  unfold Composition.analyzeWeightDistribution.
  match goal with
  | |- context [fold_left ?f (range 0 h) ?init] =>
      assert (E : fold_left f (range 0 h) init = (fin 0, fin 0, fin 0))
  end.
  { apply fold_left_id. intros y Hy. apply in_range in Hy.
    apply fold_left_id. intros x Hx. apply in_range in Hx.
    unfold d. rewrite get_uniform by (rewrite Z2Nat.id; nia).
    rewrite !ofZ_fin, !mul_fin, !add_fin.
    apply (f_equal2 pair); [apply (f_equal2 pair)|]; apply fin_eq;
      change (inject_Z 0) with 0; ring. }
  rewrite E. cbv zeta. cbn [Composition.centerOfMass].
  rewrite !ofZ_fin.
  replace (div (fin 0) (fin 0)) with NaN by reflexivity. reflexivity.
Qed.

End BlackFrame.

(* ================================================================= *)
(** ** Frames without detail in any grid region *)

Section FlatRegions.
Import JS Sharpness.

Lemma fold_left_preserves {A B : Type} (P : A -> Prop) (f : A -> B -> A)
  (l : list B) (a : A) :
  P a -> (forall a x, In x l -> P a -> P (f a x)) -> P (fold_left f l a).
Proof.
  intros Ha H.
  apply (fold_left_inv (fun _ a => P a) f l 0 a Ha).
  intros _ a' x Hx. now apply H.
Qed.

Lemma map_const_repeat {A B : Type} (b : B) (l : list A) (f : A -> B) :
  (forall x, In x l -> f x = b) -> map f l = repeat b (List.length l).
Proof.
  induction l as [|x l IH]; intro H; [reflexivity|].
  cbn [map List.length repeat]. rewrite (H x) by now left.
  f_equal. apply IH. intros y Hy. apply H. now right.
Qed.

Lemma flat_map_repeat {A B : Type} (b : B) (n : nat) (l : list A)
  (f : A -> list B) :
  (forall x, In x l -> f x = repeat b n) ->
  flat_map f l = repeat b (List.length l * n).
Proof.
  induction l as [|x l IH]; intro H; [reflexivity|].
  cbn [flat_map List.length Nat.mul]. rewrite (H x) by now left.
  rewrite repeat_app. f_equal. apply IH. intros y Hy. apply H. now right.
Qed.

Lemma extractRegion_uniform (v w h sx sy rw rh : Z) :
  (0 <= sx)%Z -> (0 <= sy)%Z -> (0 <= rw)%Z -> (0 <= rh)%Z ->
  (sx + rw <= w)%Z -> (sy + rh <= h)%Z ->
  extractRegion (repeat v (Z.to_nat (w * h))) w sx sy rw rh
  = repeat v (Z.to_nat (rw * rh)).
Proof.
  intros Hsx Hsy Hrw Hrh Hx Hy. unfold extractRegion.
  rewrite (flat_map_repeat v (Z.to_nat rw)).
  - rewrite range_length. f_equal. nia.
  - intros y Hy'. apply in_range in Hy'.
    rewrite (map_const_repeat v).
    + now rewrite range_length, Z.sub_0_r.
    + intros x Hx'. apply in_range in Hx'. cbv zeta.
      destruct ((sy + y) * w + (sx + x) <? 0)%Z eqn:E;
        [apply Z.ltb_lt in E; nia|].
      apply nth_error_nth. apply nth_error_repeat. nia.
Qed.

Lemma insertBy_Forall {A : Type} (P : A -> Prop) (c : A -> A -> num) (x : A)
  (l : list A) : P x -> Forall P l -> Forall P (insertBy c x l).
Proof.
  intros Hx Hl. induction Hl as [|y l Hy Hl IH]; cbn [insertBy].
  - now constructor.
  - destruct (gt (c x y) (fin 0)); constructor; auto.
Qed.

Lemma sortBy_Forall {A : Type} (P : A -> Prop) (c : A -> A -> num)
  (l : list A) : Forall P l -> Forall P (sortBy c l).
Proof.
  intro H. unfold sortBy. induction H as [|x l Hx Hl IH]; cbn [fold_right].
  - constructor.
  - now apply insertBy_Forall.
Qed.

(** When no region shows any detail the focus-plane weights sum to 0 and the
    centre is 0/0. *)
Lemma flat_focus_plane (rs : Regions) :
  Forall Spec.flat (grid rs) ->
  fp_center (determineFocusPlane rs) = (NaN, NaN).
Proof.
  intro H. unfold determineFocusPlane. cbv zeta.
  set (sharpest := firstn 5 (sortBy _ (grid rs))).
  assert (Hs : Forall Spec.flat sharpest).
  { subst sharpest. apply (Forall_split Spec.flat 5). now apply sortBy_Forall. }
  match goal with
  | |- context [fold_left ?f sharpest ?init] =>
      assert (E : fold_left f sharpest init = (fin 0, fin 0, fin 0))
  end.
  { apply fold_left_id. intros r Hr. rewrite Forall_forall in Hs.
    rewrite (Hs r Hr). rewrite !ofZ_fin, !mul_fin, !add_fin.
    apply (f_equal2 pair); [apply (f_equal2 pair)|]; apply fin_eq; ring. }
  rewrite E. reflexivity.
Qed.

Lemma uniform_regions_flat (v w h : Z) :
  (15 <= w)%Z -> (15 <= h)%Z ->
  Forall Spec.flat (grid (analyzeRegions (repeat v (Z.to_nat (w * h))) w h 5)).
Proof.
  intros Hw Hh. unfold analyzeRegions. cbv zeta.
  assert (Hrw : (3 <= w / 5)%Z) by (apply Z.div_le_lower_bound; lia).
  assert (Hrh : (3 <= h / 5)%Z) by (apply Z.div_le_lower_bound; lia).
  assert (Hmw : (5 * (w / 5) <= w)%Z) by (apply Z.mul_div_le; lia).
  assert (Hmh : (5 * (h / 5) <= h)%Z) by (apply Z.mul_div_le; lia).
  match goal with
  | |- context [fold_left ?f (range 0 5) ?init] =>
      assert (Inv : (fun a => let '(regions, _, _) := a in Forall Spec.flat regions)
                      (fold_left f (range 0 5) init))
  end.
  { apply fold_left_preserves; [constructor|].
    intros a gy Hgy Ha. apply in_range in Hgy.
    apply fold_left_preserves; [exact Ha|].
    intros [[regions mx] mn] gx Hgx Hr. apply in_range in Hgx.
    rewrite extractRegion_uniform by nia.
    rewrite uniform_laplacian_variance by assumption.
    apply Forall_app. split; [exact Hr|]. constructor; [|constructor].
    reflexivity. }
  destruct (fold_left _ (range 0 5) _) as [[regions mx] mn].
  cbn [grid]. apply Forall_map. eapply Forall_impl; [|exact Inv].
  intros r Hr. exact Hr.
Qed.

(** On every uniform frame of at least 15 x 15 pixels the focus-plane centre
    of the sharpness result is NaN. *)
Lemma uniform_focus_plane_NaN (v w h : Z) (rand : Random) :
  (15 <= w)%Z -> (15 <= h)%Z ->
  fp_center (focusPlane (analyzeSharpness (Some (Examples.uniform v w h)) rand))
  = (NaN, NaN).
Proof.
  intros Hw Hh. cbn [analyzeSharpness analyzeSharpnessWith focusPlane].
  apply flat_focus_plane. cbn [data width height Examples.uniform].
  now apply uniform_regions_flat.
Qed.

End FlatRegions.

(* ================================================================= *)
(** ** Zero denominators *)

Section Guards.
Import JS.

Lemma uniform_wellFormed (v w h : Z) :
  (0 <= v <= 255)%Z -> (0 < w)%Z -> (0 < h)%Z -> wellFormed (Examples.uniform v w h).
Proof.
  intros Hv Hw Hh. unfold wellFormed, Examples.uniform.
  cbn [data width height channels]. rewrite repeat_length.
  repeat split; try lia; try (rewrite Z2Nat.id; nia).
  apply Forall_forall. intros x Hx. apply repeat_spec in Hx. lia.
Qed.

(** C1 at all-black and at small frames: well-formed buffers on which the
    engines return NaN, because a zero denominator is divided by unguarded:
    the zero weight sums of the balance, of the centre of mass and of the
    focus plane, and the zero pixel count of a Laplacian over a frame or a
    grid region less than 3 pixels wide. *)
Theorem unguarded_divisions_yield_NaN :
  wellFormed Examples.black16 /\ wellFormed Examples.gray2
  /\ wellFormed Examples.gray10
  /\ Composition.bl_horizontal
       (Composition.analyzeVisualBalance (data Examples.black16) 16 16) = NaN
  /\ Composition.centerOfMass
       (Composition.analyzeWeightDistribution (data Examples.black16) 16 16)
     = (NaN, NaN)
  /\ (forall rand,
        Sharpness.fp_center
          (Sharpness.focusPlane
             (Sharpness.analyzeSharpness (Some Examples.black16) rand))
        = (NaN, NaN))
  /\ (forall rand,
        Sharpness.o_variance
          (Sharpness.overall
             (Sharpness.analyzeSharpness (Some Examples.gray2) rand))
        = NaN)
  /\ (forall rand,
        Sharpness.rg_max
          (Sharpness.regions
             (Sharpness.analyzeSharpness (Some Examples.gray10) rand))
        = NaN).
Proof.
  split; [apply uniform_wellFormed; lia|].
  split; [apply uniform_wellFormed; lia|].
  split; [apply uniform_wellFormed; lia|].
  split; [vm_compute; reflexivity|].
  split; [vm_compute; reflexivity|].
  split; [intro rand; vm_compute; reflexivity|].
  split; intro rand; vm_compute; reflexivity.
Qed.

(** Away from those denominators the uniform buffer behaves as expected: with
    a pixel value of at least 1 and both sides at least 3, the Laplacian
    variance and the average edge strength are 0, the overall symmetry is 100,
    the balance is ['symmetrical'] and the rule-of-thirds alignment is 0. *)
Lemma uniform_buffer_results (v w h : Z) :
  (1 <= v)%Z -> (3 <= w)%Z -> (3 <= h)%Z ->
  let d := data (Examples.uniform v w h) in
  Sharpness.calculateLaplacianVariance d w h = fin 0
  /\ Sharpness.averageStrength (Sharpness.analyzeEdges d w h) = fin 0
  /\ Composition.sy_overall (Composition.analyzeSymmetry d w h) = fin 100
  /\ Composition.bl_type (Composition.analyzeVisualBalance d w h)
     = "symmetrical"
  /\ Composition.alignment (Composition.analyzeRuleOfThirds d w h) = fin 0.
Proof.
  intros Hv Hw Hh d. subst d. cbn [data Examples.uniform].
  split; [now apply uniform_laplacian_variance|].
  split; [now apply uniform_edge_strength|].
  split; [now apply uniform_symmetry|].
  split; [now apply uniform_balance | now apply uniform_thirds_alignment].
Qed.

(** C8 at the all-black frame and at a 2 x 2 frame: uniform buffers whose
    balance type is ['asymmetrical'] and whose Laplacian variance and average
    edge strength are NaN. *)
Theorem uniform_buffer_defects :
  Forall (fun v => v = 0%Z) (data Examples.black16)
  /\ Forall (fun v => v = 128%Z) (data Examples.gray2)
  /\ Composition.bl_type
       (Composition.analyzeVisualBalance (data Examples.black16) 16 16)
     = "asymmetrical"
  /\ Sharpness.calculateLaplacianVariance (data Examples.gray2) 2 2 = NaN
  /\ Sharpness.averageStrength
       (Sharpness.analyzeEdges (data Examples.gray2) 2 2)
     = NaN.
Proof.
  split; [apply Forall_forall; intros x Hx; now apply repeat_spec in Hx|].
  split; [apply Forall_forall; intros x Hx; now apply repeat_spec in Hx|].
  repeat split; vm_compute; reflexivity.
Qed.

End Guards.

Section SharpnessRange.
Import JS Sharpness.

Lemma cmp_ofZ (a b : Z) : cmp (ofZ a) (ofZ b) = Some (a ?= b)%Z.
Proof.
  unfold ofZ. cbn [cmp]. unfold Qcompare. cbn [inject_Z Qnum Qden].
  now rewrite !Z.mul_1_r.
Qed.

Lemma min_ofZ (a b : Z) : min (ofZ a) (ofZ b) = ofZ (Z.min a b).
Proof.
  unfold min. rewrite cmp_ofZ. unfold Z.min.
  destruct (a ?= b)%Z; reflexivity.
Qed.

Lemma max_ofZ (a b : Z) : max (ofZ a) (ofZ b) = ofZ (Z.max a b).
Proof.
  unfold max. rewrite cmp_ofZ. unfold Z.max.
  destruct (a ?= b)%Z; reflexivity.
Qed.

Lemma round_floor_ge (q : Q) (lo : Z) :
  inject_Z lo <= q -> (lo <= Qfloor (q + (1 # 2)))%Z.
Proof.
  intro H. rewrite <- (Qfloor_Z lo). apply Qfloor_resp_le. lra.
Qed.

(** Rounding and clamping to [0, 100] gives an integer, and keeps a lower
    bound. *)
Lemma clamp_round_from (a : num) (lo : Z) :
  (0 <= lo <= 100)%Z -> Spec.atLeast a (inject_Z lo) ->
  Notions.integerIn (max (fin 0) (min (fin 100) (round a))) lo 100.
Proof.
  intros Hlo Ha. destruct a as [q| | |]; cbn [Spec.atLeast] in Ha;
    try contradiction.
  - cbn [round]. change (fin 0) with (ofZ 0). change (fin 100) with (ofZ 100).
    rewrite min_ofZ, max_ofZ. eexists. split; [reflexivity|].
    apply round_floor_ge in Ha. lia.
  - exists 100%Z. split; [reflexivity | lia].
Qed.

Lemma clamp_round_total (a : num) :
  a <> NaN ->
  Notions.integerIn (max (fin 0) (min (fin 100) (round a))) 0 100.
Proof.
  intro Ha. destruct a as [q| | |]; [| | |congruence].
  - cbn [round]. change (fin 0) with (ofZ 0). change (fin 100) with (ofZ 100).
    rewrite min_ofZ, max_ofZ. eexists. split; [reflexivity | lia].
  - exists 100%Z. split; [reflexivity | lia].
  - exists 0%Z. split; [reflexivity | lia].
Qed.

Lemma low_add_fin (s : num) (c : Q) :
  Notions.lowOrFinite s -> Notions.lowOrFinite (add s (fin c)).
Proof. destruct s; cbn; tauto. Qed.

Lemma low_if3 (c1 c2 : bool) (s : num) (a b : Q) :
  Notions.lowOrFinite s ->
  Notions.lowOrFinite
    (if c1 then add s (fin a) else if c2 then add s (fin b) else s).
Proof. intro H. destruct c1, c2; try apply low_add_fin; exact H. Qed.

Lemma low_if2 (c : bool) (s : num) (a : Q) :
  Notions.lowOrFinite s ->
  Notions.lowOrFinite (if c then add s (fin a) else s).
Proof. intro H. destruct c; try apply low_add_fin; exact H. Qed.

Lemma gt_cases (a : num) (t : Q) :
  gt a (fin t) = true -> a = PInf \/ exists q, a = Fin q /\ t < q.
Proof.
  intro H. apply gt_fin_iff in H. destruct a as [q| | |]; cbn in H;
    try contradiction; [right; now exists q | now left].
Qed.

Lemma low_penalty (t1 t2 : bool) (sev s : num) :
  Notions.lowOrFinite s ->
  Notions.lowOrFinite
    (if t1 && gt sev (fin 0.6)
     then sub s (mul (sub sev (fin 0.6)) (fin 25))
     else if t2 && gt sev (fin 0.6)
     then sub s (mul (sub sev (fin 0.6)) (fin 20))
     else s).
Proof.
  intro H. destruct (gt sev (fin 0.6)) eqn:G.
  - apply gt_cases in G. destruct G as [->|(q & -> & _)];
      destruct t1, t2, s; cbn in *; tauto.
  - rewrite !andb_false_r. exact H.
Qed.

Lemma orElse_not_NaN (a : num) (d : Q) : orElse a (fin d) <> NaN.
Proof.
  unfold orElse. destruct a as [q| | |]; cbn; try discriminate.
  destruct (negb (Qeq_bool q 0)); discriminate.
Qed.

Lemma base_score_low (e : num) :
  e <> NaN ->
  Notions.lowOrFinite
    (if gt e (fin 80)
     then add (fin 90) (min (fin 10) (div (sub e (fin 80)) (fin 4)))
     else if gt e (fin 60)
     then add (fin 78) (mul (div (sub e (fin 60)) (fin 20)) (fin 12))
     else if gt e (fin 40)
     then add (fin 65) (mul (div (sub e (fin 40)) (fin 20)) (fin 13))
     else if gt e (fin 25)
     then add (fin 52) (mul (div (sub e (fin 25)) (fin 15)) (fin 13))
     else if gt e (fin 15)
     then add (fin 40) (mul (div (sub e (fin 15)) (fin 10)) (fin 12))
     else add (fin 30) (mul (div e (fin 15)) (fin 10))).
Proof.
  intro He. destruct e as [q| | |]; [| | |congruence].
  - assert (F : forall a b c d : Q,
               ~ c == 0 ->
               Notions.lowOrFinite
                 (add (fin a) (mul (div (sub (Fin q) (fin b)) (fin c)) (fin d)))).
    { intros a b c d Hc.
      destruct (denotes_add (fin a)
                  (mul (div (sub (Fin q) (fin b)) (fin c)) (fin d))
                  a ((q - b) / c * d)) as (r & -> & _);
        [apply denotes_fin | | exact I].
      apply denotes_mul; [|apply denotes_fin].
      apply denotes_div; [|apply denotes_fin|exact Hc].
      apply denotes_sub; [apply denotes_Fin | apply denotes_fin]. }
    repeat match goal with
           | |- context [if ?b then _ else _] => destruct b
           end; try (apply F; discriminate).
    + destruct (denotes_add (fin 90)
                  (min (fin 10) (div (sub (Fin q) (fin 80)) (fin 4)))
                  90 (Qmin 10 ((q - 80) / 4))) as (r & -> & _);
        [apply denotes_fin | | exact I].
      apply denotes_min; [apply denotes_fin|].
      apply denotes_div; [|apply denotes_fin|discriminate].
      apply denotes_sub; [apply denotes_Fin | apply denotes_fin].
    + destruct (denotes_add (fin 30) (mul (div (Fin q) (fin 15)) (fin 10))
                  30 (q / 15 * 10)) as (r & -> & _);
        [apply denotes_fin | | exact I].
      apply denotes_mul; [|apply denotes_fin].
      apply denotes_div; [apply denotes_Fin|apply denotes_fin|discriminate].
  - exact I.
  - exact I.
Qed.

Lemma low_not_NaN (a : num) : Notions.lowOrFinite a -> a <> NaN.
Proof. destruct a; cbn; [discriminate|tauto|discriminate|tauto]. Qed.

(** X1: whatever the inputs, the final sharpness score is an integer between
    0 and 100. *)
Theorem sharpness_score_is_an_integer_percentage :
  forall (overallSharpness : num) (blurAnalysis : Blur) (edgeAnalysis : Edges)
         (focusPlane : FocusPlane),
    Notions.integerIn
      (calculateSharpnessScore overallSharpness blurAnalysis edgeAnalysis
                               focusPlane) 0 100.
Proof.
  intros os b e fp. unfold calculateSharpnessScore. cbv zeta.
  apply clamp_round_total, low_not_NaN.
  apply low_if2, low_penalty, low_if3, low_if3, base_score_low.
  apply orElse_not_NaN.
Qed.

End SharpnessRange.

Section Blur.
Import JS Sharpness.

Lemma lt_cases (a : num) (t : Q) :
  lt a (fin t) = true <-> Notions.below a t.
Proof.
  destruct a as [q| | |]; unfold lt; [rewrite cmp_fin|cbn..];
    cbn [Notions.below]; try (split; [discriminate || tauto | tauto || discriminate]).
  rewrite Qlt_alt. destruct (q ?= t)%Q; split; congruence.
Qed.

(** The severity formula of the motion and defocus branches, as the final
    record holds it. *)
Lemma severity_value (os : num) (t : Q) :
  0 < t -> Notions.below os t ->
  exists r,
    min (fin 1) (max (fin 0)
      (max (fin 0) (min (fin 1) (sub (fin 1) (div os (fin t)))))) = Fin r
    /\ 0 <= r <= 1
    /\ (0.85 <= r <-> Notions.atMost os (0.15 * t)).
Proof.
  intros Ht Hos. destruct os as [o| | |]; cbn [Notions.below] in Hos;
    try contradiction.
  - destruct (denotes_min (fin 1)
                (max (fin 0) (max (fin 0) (min (fin 1)
                   (sub (fin 1) (div (Fin o) (fin t))))))
                1 (Qmax 0 (Qmax 0 (Qmin 1 (1 - o / t)))))
      as (r & E & Hr).
    + apply denotes_fin.
    + apply denotes_max; [apply denotes_fin|].
      apply denotes_max; [apply denotes_fin|].
      apply denotes_min; [apply denotes_fin|].
      apply denotes_sub; [apply denotes_fin|].
      apply denotes_div; [apply denotes_Fin | apply denotes_fin | lra].
    + exists r. split; [exact E|]. cbn [Notions.atMost].
      assert (Hd : 0 < 1 - o / t).
      { assert (o / t < 1) by (apply Qlt_shift_div_r; lra). lra. }
      assert (Ed : (0.85 <= 1 - o / t) <-> o <= 0.15 * t).
      { split; intro H.
        - assert (o / t <= 0.15) by lra.
          assert (E2 : o == o / t * t) by (field; lra).
          rewrite E2. apply Qmult_le_compat_r; lra.
        - assert (o / t <= 0.15) by (apply Qle_shift_div_r; lra). lra. }
      revert Hd Ed Hr. generalize (1 - o / t). intros D Hd Ed Hr.
      destruct (Q.min_spec 1 D) as [[H1 E1]|[H1 E1]];
        rewrite E1 in Hr;
        (destruct (Q.max_spec 0 D) as [[H2 E2]|[H2 E2]]);
        (destruct (Q.max_spec 0 1) as [[H3 E3]|[H3 E3]]);
        rewrite ?E2, ?E3, ?E2, ?E3 in Hr;
        (destruct (Q.min_spec 1 D) as [[H4 E4]|[H4 E4]]);
        (destruct (Q.min_spec 1 1) as [[H5 E5]|[H5 E5]]);
        rewrite ?E4, ?E5 in Hr;
        rewrite Hr; split; try lra; (split; [intro; apply Ed; lra | intro H; apply Ed in H; lra]).
  - exists 1. split.
    + assert (E : div NInf (fin t) = NInf).
      { unfold fin. cbn [div]. unfold Qsgn.
        replace (0 ?= Qred t)%Q with Lt
          by (symmetry; apply Qlt_alt; now rewrite Qred_correct).
        reflexivity. }
      rewrite E. reflexivity.
    + cbn [Notions.atMost]. split; [lra|]. split; [tauto | intros _; lra].
Qed.

Lemma blur_cases (d : list Z) (w h : Z) (os : num) (rand : Random) :
  let b := detectBlurType d w h os rand in
  (b_type b = "none" /\ b_severity b = fin 0 /\ b_direction b = None)
  \/ (b_type b = "soft" /\ b_severity b = fin 0.2 /\ b_direction b = None)
  \/ (b_type b = "defocus" /\ b_direction b = None /\ Notions.below os 40
      /\ b_severity b
         = min (fin 1) (max (fin 0)
             (max (fin 0) (min (fin 1) (sub (fin 1) (div os (fin 40)))))))
  \/ (b_type b = "motion" /\ b_direction b <> None /\ Notions.below os 50
      /\ b_severity b
         = min (fin 1) (max (fin 0)
             (max (fin 0) (min (fin 1) (sub (fin 1) (div os (fin 50))))))).
Proof.
  unfold detectBlurType. cbv zeta.
  destruct (_ || _)%bool; [left; repeat split|].
  destruct (lt os (fin 50)) eqn:L50; destruct (lt os (fin 40)) eqn:L40;
    rewrite ?andb_false_r, ?andb_true_r; cbn [andb];
    repeat match goal with
           | |- context [if ?c then _ else _] => destruct c
           end;
    cbn [b_type b_severity b_direction];
    try (apply lt_cases in L50); try (apply lt_cases in L40);
    first [ left; repeat split; reflexivity
          | right; left; repeat split; reflexivity
          | right; right; left; repeat split; (reflexivity || assumption)
          | right; right; right; repeat split;
            (reflexivity || assumption || discriminate) ].
Qed.

Lemma blur_severity_within (d : list Z) (w h : Z) (os : num) (rand : Random) :
  Spec.within (b_severity (detectBlurType d w h os rand)) 0 1.
Proof.
  destruct (blur_cases d w h os rand)
    as [(T & S & D)|[(T & S & D)|[(T & D & L & S)|(T & D & L & S)]]];
    rewrite S.
  - exists (Qred 0). split; [reflexivity|]. split; discriminate.
  - exists (Qred 0.2). split; [reflexivity|]. split; discriminate.
  - destruct (severity_value os 40 ltac:(reflexivity) L) as (r & -> & Hr & _).
    now exists r.
  - destruct (severity_value os 50 ltac:(reflexivity) L) as (r & -> & Hr & _).
    now exists r.
Qed.

(** X2: the blur analysis names one of four types; its severity lies in
    [0, 1], is 0 for 'none' and 0.2 for 'soft'; a direction is reported for
    motion blur only, which needs a Laplacian variance below 50 (defocus:
    below 40). *)
Theorem blur_severity_in_unit_interval :
  forall (d : list Z) (w h : Z) (os : num) (rand : Random),
    let b := detectBlurType d w h os rand in
    Spec.within (b_severity b) 0 1
    /\ (b_type b = "none" /\ b_severity b = fin 0 /\ b_direction b = None
        \/ b_type b = "soft" /\ b_severity b = fin 0.2 /\ b_direction b = None
        \/ b_type b = "defocus" /\ b_direction b = None /\ Notions.below os 40
        \/ b_type b = "motion" /\ b_direction b <> None
           /\ Notions.below os 50).
Proof.
  intros d w h os rand b. split; [apply blur_severity_within|].
  destruct (blur_cases d w h os rand)
    as [(T & S & D)|[(T & S & D)|[(T & D & L & S)|(T & D & L & S)]]];
    fold b in T, S, D; tauto.
Qed.

End Blur.

Section BlurRejection.
Import JS Sharpness.

Lemma atMost_eq (a : num) (t t' : Q) :
  t == t' -> Notions.atMost a t <-> Notions.atMost a t'.
Proof.
  intro E. destruct a; cbn [Notions.atMost]; try tauto. now rewrite E.
Qed.

Lemma motion_reason (a : Scoring.Analyses) :
  In "severe-motion-blur" (Scoring.reasons (Scoring.checkAutoReject a))
  <-> Scoring.blurIs (Scoring.sharpness a) "motion" = true
      /\ ge (Scoring.blurSeverity (Scoring.sharpness a)) (fin 0.85) = true.
Proof.
  unfold Scoring.checkAutoReject. cbv zeta.
  change (Config.motionBlurSeverity Config.autoReject) with (fin 0.85).
  destruct (Scoring.blurIs (Scoring.sharpness a) "motion");
    destruct (ge (Scoring.blurSeverity (Scoring.sharpness a)) (fin 0.85));
    cbn [andb];
    repeat match goal with
           | |- context [if ?c then _ else _] => destruct c
           end;
    cbn [Scoring.reasons app In]; split; intro H;
    try (now left); try (split; reflexivity);
    try (destruct H as [H1 H2]; discriminate);
    repeat (destruct H as [H|H]; [discriminate H|]); try contradiction.
Qed.

Lemma defocus_reason (a : Scoring.Analyses) :
  In "severely-out-of-focus" (Scoring.reasons (Scoring.checkAutoReject a))
  <-> Scoring.blurIs (Scoring.sharpness a) "defocus" = true
      /\ ge (Scoring.blurSeverity (Scoring.sharpness a)) (fin 0.85) = true.
Proof.
  unfold Scoring.checkAutoReject. cbv zeta.
  change (Config.defocusSeverity Config.autoReject) with (fin 0.85).
  destruct (Scoring.blurIs (Scoring.sharpness a) "defocus");
    destruct (ge (Scoring.blurSeverity (Scoring.sharpness a)) (fin 0.85));
    cbn [andb];
    repeat match goal with
           | |- context [if ?c then _ else _] => destruct c
           end;
    cbn [Scoring.reasons app In]; split; intro H;
    try (now left); try (right; now left); try (split; reflexivity);
    try (destruct H as [H1 H2]; discriminate);
    repeat (destruct H as [H|H]; [discriminate H|]); try contradiction.
Qed.

(* In the exact arithmetic of the model the severity reaches 0.85 at a
   variance of 7.5 for motion blur and of 6 for defocus. *)
Lemma blur_rejection_thresholds :
  forall (info : PixelBuffer) (rand : Random) (e : option Scoring.Exif)
         (h : option Histogram.HistogramResult)
         (c : option Composition.CompositionResult),
    let variance :=
      calculateLaplacianVariance (data info) (width info) (height info) in
    let s := analyzeSharpness (Some info) rand in
    let reasons :=
      Scoring.reasons
        (Scoring.checkAutoReject (Scoring.mkAnalyses e h (Some s) c)) in
    (In "severe-motion-blur" reasons
     <-> b_type (blur s) = "motion" /\ Notions.atMost variance 7.5)
    /\ (In "severely-out-of-focus" reasons
        <-> b_type (blur s) = "defocus" /\ Notions.atMost variance 6).
Proof.
  intros info rand e h c variance s reasons. subst reasons.
  rewrite motion_reason, defocus_reason.
  cbn [Scoring.sharpness Scoring.blurIs Scoring.blurSeverity].
  rewrite !String.eqb_eq.
  assert (Eb : blur s = detectBlurType (data info) (width info) (height info)
                          variance rand) by reflexivity.
  rewrite Eb. clear Eb.
  destruct (blur_cases (data info) (width info) (height info) variance rand)
    as [(T & S & D)|[(T & S & D)|[(T & D & L & S)|(T & D & L & S)]]];
    rewrite T.
  - split; split; intros [H _]; discriminate H.
  - split; split; intros [H _]; discriminate H.
  - split; [split; intros [H _]; discriminate H|].
    rewrite S.
    destruct (severity_value variance 40 ltac:(reflexivity) L)
      as (r & -> & Hr & Hiff).
    rewrite ge_Fin_iff, Hiff.
    rewrite (atMost_eq variance (0.15 * 40) 6) by reflexivity. tauto.
  - split; [|split; intros [H _]; discriminate H].
    rewrite S.
    destruct (severity_value variance 50 ltac:(reflexivity) L)
      as (r & -> & Hr & Hiff).
    rewrite ge_Fin_iff, Hiff.
    rewrite (atMost_eq variance (0.15 * 50) 7.5) by reflexivity. tauto.
Qed.

Lemma atMost_below (a : num) (t t' : Q) :
  t < t' -> Notions.atMost a t -> Notions.below a t'.
Proof.
  intros H. destruct a; cbn [Notions.atMost Notions.below]; try tauto.
  intro. lra.
Qed.

Lemma atMost_weaken (a : num) (t t' : Q) :
  t <= t' -> Notions.atMost a t -> Notions.atMost a t'.
Proof.
  intros H. destruct a; cbn [Notions.atMost]; try tauto. intro. lra.
Qed.

(** X3: an image is auto-rejected for motion blur only when the blur
    analysis says 'motion' and the Laplacian variance is below 8, and always
    when it says 'motion' and the variance is at most 7; for defocus the
    bounds are 7 and 5.  (The severity reaches 0.85 at a variance of 7.5 and
    of 6; within rounding error of these two values the outcome depends on
    the rounding.) *)
Theorem severe_blur_means_low_variance :
  forall (info : PixelBuffer) (rand : Random) (e : option Scoring.Exif)
         (h : option Histogram.HistogramResult)
         (c : option Composition.CompositionResult),
    let variance :=
      calculateLaplacianVariance (data info) (width info) (height info) in
    let s := analyzeSharpness (Some info) rand in
    let reasons :=
      Scoring.reasons
        (Scoring.checkAutoReject (Scoring.mkAnalyses e h (Some s) c)) in
    (In "severe-motion-blur" reasons ->
     b_type (blur s) = "motion" /\ Notions.below variance 8)
    /\ (b_type (blur s) = "motion" /\ Notions.atMost variance 7 ->
        In "severe-motion-blur" reasons)
    /\ (In "severely-out-of-focus" reasons ->
        b_type (blur s) = "defocus" /\ Notions.below variance 7)
    /\ (b_type (blur s) = "defocus" /\ Notions.atMost variance 5 ->
        In "severely-out-of-focus" reasons).
Proof.
  intros info rand e h c variance s reasons.
  destruct (blur_rejection_thresholds info rand e h c) as [M D].
  fold variance s reasons in M, D.
  split; [|split; [|split]].
  - intro H. apply M in H. destruct H as [T V]. split; [exact T|].
    revert V. apply atMost_below. reflexivity.
  - intros [T V]. apply M. split; [exact T|].
    revert V. apply atMost_weaken. discriminate.
  - intro H. apply D in H. destruct H as [T V]. split; [exact T|].
    revert V. apply atMost_below. reflexivity.
  - intros [T V]. apply D. split; [exact T|].
    revert V. apply atMost_weaken. discriminate.
Qed.

End BlurRejection.

Ltac denote :=
  lazymatch goal with
  | |- Spec.denotes (JS.fin _) _ => apply denotes_fin
  | |- Spec.denotes (JS.Fin _) _ => apply denotes_Fin
  | |- Spec.denotes (JS.ofZ _) _ => apply denotes_ofZ
  | |- Spec.denotes (JS.add _ _) _ => eapply denotes_add; denote
  | |- Spec.denotes (JS.sub _ _) _ => eapply denotes_sub; denote
  | |- Spec.denotes (JS.mul _ _) _ => eapply denotes_mul; denote
  | |- Spec.denotes (JS.min _ _) _ => eapply denotes_min; denote
  | |- Spec.denotes (JS.max _ _) _ => eapply denotes_max; denote
  | |- Spec.denotes (JS.round _) _ => eapply denotes_round; denote
  | |- Spec.denotes (JS.div _ _) _ =>
      eapply denotes_div;
      [denote | denote | try first [discriminate | assumption]]
  | |- Spec.denotes ?a _ => eassumption
  end.

(** Replace the finite expression on the left of a bound by its rational
    value. *)
Ltac value_of X r E :=
  let D := fresh "D" in
  eassert (D : Spec.denotes X _) by denote;
  destruct D as (r & -> & E).

Section EngineSharpness.
Import JS Sharpness.

Lemma atLeast_weaken (s : num) (t t' : Q) :
  t <= t' -> Spec.atLeast s t' -> Spec.atLeast s t.
Proof. intros Ht. destruct s; cbn [Spec.atLeast]; try tauto. lra. Qed.

Lemma atLeast_add_fin (s : num) (a t : Q) :
  0 <= a -> Spec.atLeast s t -> Spec.atLeast (add s (fin a)) t.
Proof.
  intros Ha. destruct s as [q| | |]; cbn [Spec.atLeast add]; try tauto.
  unfold fin. cbn [Spec.atLeast]. rewrite !Qred_correct. lra.
Qed.

Lemma atLeast_if2 (c : bool) (s : num) (a t : Q) :
  0 <= a -> Spec.atLeast s t ->
  Spec.atLeast (if c then add s (fin a) else s) t.
Proof. intros Ha H. destruct c; [now apply atLeast_add_fin | exact H]. Qed.

Lemma atLeast_if3 (c1 c2 : bool) (s : num) (a b t : Q) :
  0 <= a -> 0 <= b -> Spec.atLeast s t ->
  Spec.atLeast (if c1 then add s (fin a) else if c2 then add s (fin b) else s) t.
Proof.
  intros Ha Hb H. destruct c1, c2; try (now apply atLeast_add_fin); exact H.
Qed.

Lemma atLeast_sub (s x : num) (t p : Q) :
  Spec.atLeast s (t + p) -> Spec.within x 0 p -> Spec.atLeast (sub s x) t.
Proof.
  intros Hs (q & -> & Hq). destruct s as [r| | |]; cbn [Spec.atLeast] in *;
    try contradiction; [|exact I].
  value_of (sub (Fin r) (Fin q)) v E. cbn [Spec.atLeast]. rewrite E. lra.
Qed.

Lemma atLeast_penalty (t1 t2 : bool) (sev s : num) (t : Q) :
  Spec.within sev 0 1 -> Spec.atLeast s (t + 10) ->
  Spec.atLeast
    (if t1 && gt sev (fin 0.6)
     then sub s (mul (sub sev (fin 0.6)) (fin 25))
     else if t2 && gt sev (fin 0.6)
     then sub s (mul (sub sev (fin 0.6)) (fin 20))
     else s) t.
Proof.
  intros (q & -> & Hq) Hs.
  assert (W : forall k, 0 <= k <= 25 -> gt (Fin q) (fin 0.6) = true ->
                        Spec.within (mul (sub (Fin q) (fin 0.6)) (fin k)) 0 10).
  { intros k Hk G. apply gt_Fin_iff in G.
    value_of (mul (sub (Fin q) (fin 0.6)) (fin k)) v E.
    exists v. split; [reflexivity|]. rewrite E. split; nra. }
  destruct (gt (Fin q) (fin 0.6)) eqn:G.
  - destruct t1, t2; cbn [andb];
      try (apply (atLeast_sub _ _ t 10); [exact Hs | apply W; [lra|reflexivity]]);
      apply (atLeast_weaken _ t (t + 10)); [lra | exact Hs].
  - rewrite !andb_false_r. apply (atLeast_weaken _ t (t + 10)); [lra | exact Hs].
Qed.

Lemma base_score_at_least_30 (e : Q) :
  0 <= e ->
  Spec.atLeast
    (if gt (Fin e) (fin 80)
     then add (fin 90) (min (fin 10) (div (sub (Fin e) (fin 80)) (fin 4)))
     else if gt (Fin e) (fin 60)
     then add (fin 78) (mul (div (sub (Fin e) (fin 60)) (fin 20)) (fin 12))
     else if gt (Fin e) (fin 40)
     then add (fin 65) (mul (div (sub (Fin e) (fin 40)) (fin 20)) (fin 13))
     else if gt (Fin e) (fin 25)
     then add (fin 52) (mul (div (sub (Fin e) (fin 25)) (fin 15)) (fin 13))
     else if gt (Fin e) (fin 15)
     then add (fin 40) (mul (div (sub (Fin e) (fin 15)) (fin 10)) (fin 12))
     else add (fin 30) (mul (div (Fin e) (fin 15)) (fin 10))) 30.
Proof.
  intro He.
  repeat match goal with
         | |- context [if gt (Fin e) (fin ?c) then _ else _] =>
             let G := fresh "G" in
             destruct (gt (Fin e) (fin c)) eqn:G;
             [apply gt_Fin_iff in G | clear G]
         end;
    match goal with
    | |- Spec.atLeast ?X _ => value_of X v E
    end; cbn [Spec.atLeast]; rewrite E.
  - assert (0 <= Qmin 10 ((e - 80) / 4)).
    { apply Q.min_glb; [discriminate|]. apply Qle_shift_div_l; lra. }
    lra.
  - assert (Ef : (e - 60) / 20 * 12 == (e - 60) * (3 # 5)) by field. lra.
  - assert (Ef : (e - 40) / 20 * 13 == (e - 40) * (13 # 20)) by field. lra.
  - assert (Ef : (e - 25) / 15 * 13 == (e - 25) * (13 # 15)) by field. lra.
  - assert (Ef : (e - 15) / 10 * 12 == (e - 15) * (6 # 5)) by field. lra.
  - assert (Ef : e / 15 * 10 == e * (2 # 3)) by field. lra.
Qed.

Lemma orElse_magnitude (x : num) :
  Notions.magnitude x -> exists e, orElse x (fin 0) = Fin e /\ 0 <= e.
Proof.
  intros [->|(q & -> & Hq)].
  - exists (Qred 0). split; [reflexivity | discriminate].
  - unfold orElse. cbn [truthy]. destruct (negb (Qeq_bool q 0)).
    + now exists q.
    + exists (Qred 0). split; [reflexivity | discriminate].
Qed.

Lemma engine_score_at_least_20 (os : num) (b : Blur) (e : Edges)
  (fp : FocusPlane) :
  Notions.magnitude (averageStrength e) -> Spec.within (b_severity b) 0 1 ->
  Notions.integerIn (calculateSharpnessScore os b e fp) 20 100.
Proof.
  intros He Hb. unfold calculateSharpnessScore. cbv zeta.
  destruct (orElse_magnitude _ He) as (x & -> & Hx).
  apply clamp_round_from; [lia|].
  apply atLeast_if2; [discriminate|].
  apply atLeast_penalty; [exact Hb|].
  apply atLeast_if3; [discriminate..|].
  apply atLeast_if3; [discriminate..|].
  apply (atLeast_weaken _ _ 30); [discriminate|].
  now apply base_score_at_least_30.
Qed.

End EngineSharpness.

Section EdgeStrength.
Import JS Sharpness.

Lemma get_finiteOrNaN (d : list Z) (i : Z) : Notions.finiteOrNaN (get d i).
Proof.
  unfold get. destruct (i <? 0)%Z; [exact I|].
  destruct (nth_error d (Z.to_nat i)); exact I.
Qed.

Lemma finiteOrNaN_add (a b : num) :
  Notions.finiteOrNaN a -> Notions.finiteOrNaN b -> Notions.finiteOrNaN (add a b).
Proof. destruct a, b; cbn; tauto. Qed.

Lemma finiteOrNaN_neg (a : num) :
  Notions.finiteOrNaN a -> Notions.finiteOrNaN (neg a).
Proof. destruct a; cbn; tauto. Qed.

Lemma finiteOrNaN_sub (a b : num) :
  Notions.finiteOrNaN a -> Notions.finiteOrNaN b -> Notions.finiteOrNaN (sub a b).
Proof. intros Ha Hb. now apply finiteOrNaN_add; [|apply finiteOrNaN_neg]. Qed.

Lemma finiteOrNaN_mul (a b : num) :
  Notions.finiteOrNaN a -> Notions.finiteOrNaN b -> Notions.finiteOrNaN (mul a b).
Proof. destruct a, b; cbn; tauto. Qed.

Lemma finiteOrNaN_fin (q : Q) : Notions.finiteOrNaN (fin q).
Proof. exact I. Qed.

Ltac finite_or_nan :=
  repeat first [ apply get_finiteOrNaN | apply finiteOrNaN_fin
               | apply finiteOrNaN_add | apply finiteOrNaN_sub
               | apply finiteOrNaN_mul | apply finiteOrNaN_neg ].

Lemma sobel_magnitude (d : list Z) (w idx : Z) :
  Notions.magnitude
    (sqrt (add (mul (sobelX d w idx) (sobelX d w idx))
               (mul (sobelY d w idx) (sobelY d w idx)))).
Proof.
  assert (Hx : Notions.finiteOrNaN (sobelX d w idx))
    by (unfold sobelX; finite_or_nan).
  assert (Hy : Notions.finiteOrNaN (sobelY d w idx))
    by (unfold sobelY; finite_or_nan).
  destruct (sobelX d w idx) as [a| | |], (sobelY d w idx) as [b| | |];
    cbn in Hx, Hy; try contradiction; try (now left).
  right. cbn [mul]. rewrite add_fin.
  destruct (sqrt_fin_nonneg (a * a + b * b)) as (r & -> & Hr); [nra|].
  exists (Qred r). split; [reflexivity|]. now rewrite Qred_correct.
Qed.

Lemma magnitude_add (a b : num) :
  Notions.magnitude a -> Notions.magnitude b -> Notions.magnitude (add a b).
Proof.
  intros [->|(x & -> & Hx)] [->|(y & -> & Hy)]; try (now left).
  right. exists (Qred (x + y)). split; [reflexivity|].
  rewrite Qred_correct. lra.
Qed.

(** The rounded average edge strength is NaN or a non-negative number. *)
Lemma edge_strength_magnitude (d : list Z) (w h : Z) :
  Notions.magnitude (averageStrength (analyzeEdges d w h)).
Proof.
  unfold analyzeEdges.
  set (N := (Z.to_nat (h - 2) * Z.to_nat (w - 2))%nat).
  match goal with
  | |- context [interior w h ?body ?init] =>
      assert (Inv : (fun k a =>
                       let '(es, _, _, c) := a in
                       c = fin (inject_Z (Z.of_nat k))
                       /\ Notions.magnitude es
                       /\ (k = 0%nat -> es = fin 0))
                      N (interior w h body init))
  end.
  { apply interior_inv.
    - split; [reflexivity|]. split; [|reflexivity].
      right. exists (Qred 0). split; [reflexivity | discriminate].
    - intros k [[[es s] wk] c] x y Hx Hy (Hc & Hm & _). cbv zeta.
      repeat match goal with
             | |- context [if ?b then _ else _] => destruct b
             end;
        (split; [subst c; rewrite add_fin; apply count_step|]);
        (split; [apply magnitude_add; [exact Hm | apply sobel_magnitude]
                | discriminate]). }
  destruct (interior w h _ _) as [[[es s] wk] c].
  destruct Inv as (Hc & Hm & H0). cbn [averageStrength]. subst c.
  destruct N as [|n].
  - rewrite (H0 eq_refl). now left.
  - destruct Hm as [->|(x & -> & Hx)]; [now left|].
    right.
    assert (Hn : ~ inject_Z (Z.of_nat (S n)) == 0)
      by (apply count_nonzero; lia).
    value_of (round (div (Fin x) (fin (inject_Z (Z.of_nat (S n)))))) v E.
    exists v. split; [reflexivity|]. rewrite E.
    change 0 with (inject_Z 0). rewrite <- Zle_Qle.
    change 0%Z with (Qfloor 0). apply Qfloor_resp_le.
    assert (0 < inject_Z (Z.of_nat (S n)))
      by (change 0 with (inject_Z 0); rewrite <- Zlt_Qlt; lia).
    assert (0 <= x / inject_Z (Z.of_nat (S n)))
      by (apply Qle_shift_div_l; lra).
    lra.
Qed.

Lemma assessment_of_score (z : Z) :
  (20 <= z)%Z ->
  getSharpnessAssessment (ofZ z) <> "unusable"
  /\ getSharpnessAssessment (ofZ z) <> "unknown".
Proof.
  intro Hz. unfold getSharpnessAssessment.
  assert (G : ge (ofZ z) (fin 20) = true).
  { apply ge_Fin_iff. change 20 with (inject_Z 20). rewrite <- Zle_Qle. lia. }
  rewrite G.
  repeat match goal with
         | |- context [if ?b then _ else _] => destruct b
         end; split; discriminate.
Qed.

(** X4: on every decoded buffer the sharpness engine returns an integer
    score between 20 and 100, so its assessment is never 'unusable' (the
    missing image scores 0, 'unknown'). *)
Theorem decoded_image_sharpness_at_least_20 :
  forall (info : PixelBuffer) (rand : Random),
    let r := analyzeSharpness (Some info) rand in
    Notions.integerIn (o_score (overall r)) 20 100
    /\ o_assessment (overall r) <> "unusable"
    /\ o_assessment (overall r) <> "unknown".
Proof.
  intros info rand r. subst r.
  unfold analyzeSharpness, analyzeSharpnessWith. cbv zeta.
  cbn [overall o_score o_assessment].
  match goal with
  | |- Notions.integerIn ?s _ _ /\ _ =>
      assert (Hs : Notions.integerIn s 20 100)
  end.
  { apply engine_score_at_least_20; [apply edge_strength_magnitude|].
    apply blur_severity_within. }
  split; [exact Hs|]. destruct Hs as (z & -> & Hz).
  apply assessment_of_score. lia.
Qed.

End EdgeStrength.

Section Regions.
Import JS Sharpness.

(** X5: in a grid of any size the region called 'center' is the middle
    cell, and no other. *)
Theorem center_region_is_the_middle_cell :
  forall x y gridSize : Z,
    getRegionPosition x y gridSize = "center"
    <-> x = (gridSize / 2)%Z /\ y = (gridSize / 2)%Z.
Proof.
  intros x y g. unfold getRegionPosition. cbv zeta.
  rewrite !Z.gtb_ltb.
  destruct (Z.ltb_spec y (g / 2)); destruct (Z.ltb_spec (g / 2) y);
    destruct (Z.ltb_spec x (g / 2)); destruct (Z.ltb_spec (g / 2) x);
    cbn; split; try discriminate; try lia; intros [? ?]; try lia; reflexivity.
Qed.

(** A loop that appends a block of entries at each iteration. *)
Lemma fold_left_blocks {A B S K : Type} (proj : S -> list A) (key : A -> K)
  (block : B -> list K) (f : S -> B -> S) :
  (forall st b, exists new, proj (f st b) = (proj st ++ new)%list
                            /\ map key new = block b) ->
  forall l st, exists new,
    proj (fold_left f l st) = (proj st ++ new)%list
    /\ map key new = flat_map block l.
Proof.
  intros H l. induction l as [|b l IH]; intro st.
  - exists []. split; [now rewrite app_nil_r | reflexivity].
  - cbn [fold_left flat_map]. destruct (H st b) as (n1 & E1 & K1).
    destruct (IH (f st b)) as (n2 & E2 & K2).
    exists (n1 ++ n2)%list. split.
    + now rewrite E2, E1, app_assoc.
    + now rewrite map_app, K1, K2.
Qed.

(** X6: the region analysis lists gridSize x gridSize cells row by row, each
    with its own coordinates and position name. *)
Theorem region_grid_is_row_major :
  forall (d : list Z) (w h gridSize : Z),
    map (fun r => (r_x r, r_y r, r_position r))
        (grid (analyzeRegions d w h gridSize))
    = flat_map (fun gy =>
                  map (fun gx => (gx, gy, getRegionPosition gx gy gridSize))
                      (range 0 gridSize))
               (range 0 gridSize)
    /\ List.length (grid (analyzeRegions d w h gridSize))
       = (Z.to_nat gridSize * Z.to_nat gridSize)%nat.
Proof.
  intros d w h g.
  assert (E : map (fun r => (r_x r, r_y r, r_position r))
                  (grid (analyzeRegions d w h g))
              = flat_map (fun gy =>
                            map (fun gx => (gx, gy, getRegionPosition gx gy g))
                                (range 0 g))
                         (range 0 g)).
  { unfold analyzeRegions. cbv zeta.
    match goal with
    | |- context [fold_left ?f (range 0 g) ?init] =>
        destruct (fold_left_blocks
                    (fun st : list Region * num * num => fst (fst st))
                    (fun r => (r_x r, r_y r, r_position r))
                    (fun gy => map (fun gx => (gx, gy, getRegionPosition gx gy g))
                                   (range 0 g))
                    f) with (l := range 0 g) (st := init) as (new & E & K)
    end.
    - intros st gy.
      match goal with
      | |- context [fold_left ?f (range 0 g) st] =>
          destruct (fold_left_blocks
                      (fun st : list Region * num * num => fst (fst st))
                      (fun r => (r_x r, r_y r, r_position r))
                      (fun gx => [(gx, gy, getRegionPosition gx gy g)])
                      f) with (l := range 0 g) (st := st) as (new & E & K)
      end.
      + intros [[rs mx] mn] gx. eexists. split; [reflexivity|reflexivity].
      + exists new. split; [exact E|]. rewrite K.
        clear. induction (range 0 g) as [|a l IH]; [reflexivity|].
        cbn [flat_map map app]. now rewrite IH.
    - destruct (fold_left _ (range 0 g) _) as [[rs mx] mn].
      cbn [fst app] in E. subst rs. cbn [grid].
      rewrite map_map. cbn [r_x r_y r_position]. exact K. }
  split; [exact E|].
  apply (f_equal (@List.length _)) in E. rewrite length_map in E. rewrite E.
  rewrite (flat_map_constant_length (c := Z.to_nat g)).
  - now rewrite range_length, Z.sub_0_r.
  - intros gy _. now rewrite length_map, range_length, Z.sub_0_r.
Qed.

End Regions.

(* ================================================================= *)
(** ** Sorting with a comparator *)

Section Sorting.
Import JS.
Context {A : Type}.
Variable c : A -> A -> num.

Lemma insertBy_perm (x : A) (l : list A) : Permutation (insertBy c x l) (x :: l).
Proof.
  induction l as [|y l IH]; [reflexivity|]. cbn [insertBy].
  destruct (gt (c x y) (fin 0)); [|reflexivity].
  rewrite IH. apply perm_swap.
Qed.

Lemma sortBy_perm (l : list A) : Permutation (sortBy c l) l.
Proof.
  induction l as [|x l IH]; [reflexivity|].
  unfold sortBy in *. cbn [fold_right]. rewrite insertBy_perm. now constructor.
Qed.

Lemma sortBy_length (l : list A) : List.length (sortBy c l) = List.length l.
Proof. apply Permutation_length, sortBy_perm. Qed.

(** The sort orders by [R] when a positive comparison puts the second
    argument first and any other result leaves the first in front. *)
Variable R : A -> A -> Prop.
Variable P : A -> Prop.
Hypothesis R_trans : forall a b d, P a -> P b -> P d -> R a b -> R b d -> R a d.
Hypothesis c_pos : forall a b, P a -> P b -> gt (c a b) (fin 0) = true -> R b a.
Hypothesis c_neg : forall a b, P a -> P b -> gt (c a b) (fin 0) = false -> R a b.

Lemma insertBy_sorted (x : A) (l : list A) :
  P x -> Forall P l -> StronglySorted R l -> StronglySorted R (insertBy c x l).
Proof.
  intros Hx Hl Hs. induction Hs as [|y l Hs IH Hy]; cbn [insertBy].
  - repeat constructor.
  - apply Forall_cons_iff in Hl. destruct Hl as [Py Pl].
    destruct (gt (c x y) (fin 0)) eqn:G.
    + constructor; [now apply IH|].
      rewrite insertBy_perm. constructor; [now apply c_pos | exact Hy].
    + constructor; [now constructor|].
      constructor; [now apply c_neg|].
      rewrite Forall_forall in *. intros z Hz.
      apply (R_trans x y z); auto.
Qed.

Lemma sortBy_sorted (l : list A) :
  Forall P l -> StronglySorted R (sortBy c l).
Proof.
  induction l as [|x l IH]; intro H; [constructor|].
  apply Forall_cons_iff in H. destruct H as [Px Pl].
  unfold sortBy in *. cbn [fold_right].
  apply insertBy_sorted; [exact Px | | now apply IH].
  eapply Permutation_Forall; [symmetry; apply (sortBy_perm l) | exact Pl].
Qed.

End Sorting.

Section Descending.
Import JS.
Context {A : Type}.
Variable f : A -> num.

Lemma gt_sub_Fin (p q : Q) :
  gt (sub (Fin q) (Fin p)) (fin 0) = true <-> p < q.
Proof.
  value_of (sub (Fin q) (Fin p)) v E. rewrite gt_Fin_iff, E. lra.
Qed.

Lemma ge_Fin_Fin (p q : Q) : ge (Fin p) (Fin q) = true <-> q <= p.
Proof.
  unfold ge. cbn [cmp]. rewrite Qle_alt, <- (Qcompare_antisym p q).
  destruct (p ?= q)%Q; cbn [CompOpp]; split; congruence.
Qed.

(** Sorting by [b - a] on a finite key puts the larger keys first. *)
Lemma sortBy_descending (l : list A) :
  Forall (fun a => Notions.finite (f a)) l ->
  StronglySorted (fun a b => ge (f a) (f b) = true)
                 (sortBy (fun a b => sub (f b) (f a)) l).
Proof.
  apply (sortBy_sorted _ _ (fun a => Notions.finite (f a))).
  - intros a b d (p & Ea) (q & Eb) (r & Ed). rewrite Ea, Eb, Ed.
    rewrite !ge_Fin_Fin. lra.
  - intros a b (p & Ea) (q & Eb). rewrite Ea, Eb.
    rewrite gt_sub_Fin, ge_Fin_Fin. lra.
  - intros a b (p & Ea) (q & Eb) G. rewrite Ea, Eb in *.
    rewrite ge_Fin_Fin. destruct (Qlt_le_dec p q) as [L|L]; [|exact L].
    apply gt_sub_Fin in L. congruence.
Qed.

(** Sorting by [a - b] puts the smaller keys first. *)
Lemma sortBy_ascending (l : list A) :
  Forall (fun a => Notions.finite (f a)) l ->
  StronglySorted (fun a b => le (f a) (f b) = true)
                 (sortBy (fun a b => sub (f a) (f b)) l).
Proof.
  assert (le_Fin_Fin : forall p q, le (Fin p) (Fin q) = true <-> p <= q).
  { intros p q. unfold le. cbn [cmp]. rewrite Qle_alt.
    destruct (p ?= q)%Q; split; congruence. }
  apply (sortBy_sorted _ _ (fun a => Notions.finite (f a))).
  - intros a b d (p & Ea) (q & Eb) (r & Ed). rewrite Ea, Eb, Ed.
    rewrite !le_Fin_Fin. lra.
  - intros a b (p & Ea) (q & Eb). rewrite Ea, Eb.
    rewrite gt_sub_Fin, le_Fin_Fin. lra.
  - intros a b (p & Ea) (q & Eb) G. rewrite Ea, Eb in *.
    rewrite le_Fin_Fin. destruct (Qlt_le_dec q p) as [L|L]; [|exact L].
    apply gt_sub_Fin in L. congruence.
Qed.

End Descending.

Section FocusPlane.
Import JS Sharpness.

(** X7: with finite region sharpness, the focus plane reports the positions
    of the five sharpest regions, sharpest first. *)
Theorem sharpest_regions_are_the_top_five :
  forall rs : Regions,
    Forall (fun r => Notions.finite (r_sharpness r)) (grid rs) ->
    exists sorted : list Region,
      Permutation sorted (grid rs)
      /\ StronglySorted
           (fun a b => ge (r_sharpness a) (r_sharpness b) = true) sorted
      /\ sharpestRegions (determineFocusPlane rs)
         = map r_position (firstn 5 sorted).
Proof.
  intros rs H.
  exists (sortBy (fun a b => sub (r_sharpness b) (r_sharpness a)) (grid rs)).
  split; [apply sortBy_perm|]. split; [now apply sortBy_descending|].
  unfold determineFocusPlane. cbv zeta.
  destruct (fold_left _ _ _) as [[sx sy] tw]. reflexivity.
Qed.

Lemma sharpest_regions_are_the_top_five_witness :
  Forall (fun r => Notions.finite (r_sharpness r)) (grid Samples.twoRegions)
  /\ exists sorted : list Region,
       Permutation sorted (grid Samples.twoRegions)
       /\ StronglySorted
            (fun a b => ge (r_sharpness a) (r_sharpness b) = true) sorted
       /\ sharpestRegions (determineFocusPlane Samples.twoRegions)
          = map r_position (firstn 5 sorted).
Proof.
  assert (H : Forall (fun r => Notions.finite (r_sharpness r))
                     (grid Samples.twoRegions)).
  { repeat constructor; eexists; reflexivity. }
  split; [exact H|].
  exact (sharpest_regions_are_the_top_five Samples.twoRegions H).
Defined.

(** X8: when no region has any detail (or there is no region), the weights
    sum to zero, the centre is NaN in both coordinates and the focus position
    falls through every comparison to 'right'. *)
Theorem focus_without_detail_is_right :
  forall rs : Regions,
    Forall Spec.flat (grid rs) ->
    fp_center (determineFocusPlane rs) = (NaN, NaN)
    /\ fp_position (determineFocusPlane rs) = "right".
Proof.
  intros rs H. split; [now apply flat_focus_plane|].
  unfold determineFocusPlane. cbv zeta.
  set (sharpest := firstn 5 (sortBy _ (grid rs))).
  assert (Hs : Forall Spec.flat sharpest).
  { subst sharpest. apply (Forall_split Spec.flat 5). now apply sortBy_Forall. }
  match goal with
  | |- context [fold_left ?f sharpest ?init] =>
      assert (E : fold_left f sharpest init = (fin 0, fin 0, fin 0))
  end.
  { apply fold_left_id. intros r Hr. rewrite Forall_forall in Hs.
    rewrite (Hs r Hr). rewrite !ofZ_fin, !mul_fin, !add_fin.
    apply (f_equal2 pair); [apply (f_equal2 pair)|]; apply fin_eq; ring. }
  rewrite E. reflexivity.
Qed.

Lemma focus_without_detail_is_right_witness :
  Forall Spec.flat (grid Samples.flatRegions)
  /\ fp_center (determineFocusPlane Samples.flatRegions) = (NaN, NaN)
  /\ fp_position (determineFocusPlane Samples.flatRegions) = "right".
Proof.
  assert (H : Forall Spec.flat (grid Samples.flatRegions)).
  { repeat constructor. }
  split; [exact H|].
  exact (focus_without_detail_is_right Samples.flatRegions H).
Defined.

(** X9: on the same grayscale raster (the quick check decodes at 400 pixels,
    the full analysis at 800) the thresholds of the quick check and of the
    blur analysis agree: motion or defocus blur is only reported where the
    quick check fails as 'very-blurry', and where the quick check raises no
    issue the blur type is 'none'. *)
Theorem quick_check_agrees_with_blur_type :
  forall (info : PixelBuffer) (rand : Random),
    let q := quickSharpnessCheck (Some info) in
    let b := blur (analyzeSharpness (Some info) rand) in
    (b_type b = "motion" \/ b_type b = "defocus" ->
     ok q = false /\ issue q = Some "very-blurry")
    /\ (issue q = None -> b_type b = "none").
Proof.
  intros info rand q b. subst q b.
  unfold quickSharpnessCheck, analyzeSharpness, analyzeSharpnessWith.
  cbv zeta. cbn [blur].
  set (os := calculateLaplacianVariance _ _ _).
  destruct (blur_cases (data info) (width info) (height info) os rand)
    as [(T & S & D)|[(T & S & D)|[(T & D & L & S)|(T & D & L & S)]]];
    rewrite T.
  - split; [intros [H|H]; discriminate H | reflexivity].
  - assert (L : lt os (fin 80) = true).
    { revert T. unfold detectBlurType. cbv zeta.
      destruct (lt os (fin 80)); [reflexivity|].
      repeat match goal with
             | |- context [if ?c then _ else _] => destruct c
             end; cbn [b_type]; discriminate. }
    split; [intros [H|H]; discriminate H|].
    apply lt_cases in L.
    destruct (lt os (fin 50)) eqn:L50; [discriminate|].
    assert (L150 : lt os (fin 150) = true).
    { apply lt_cases. destruct os; cbn [Notions.below] in *; try tauto. lra. }
    rewrite L150. discriminate.
  - assert (L50 : lt os (fin 50) = true).
    { apply lt_cases. destruct os; cbn [Notions.below] in *; try tauto. lra. }
    rewrite L50. cbn [ok issue]. split; [tauto | discriminate].
  - apply lt_cases in L. rewrite L. cbn [ok issue].
    split; [tauto | discriminate].
Qed.

End FocusPlane.

Section HistogramSum.
Import JS Histogram.

(** Lists of non-negative rationals and their sums. *)
Lemma total_fin (qs : list Q) (a : Q) :
  fold_left add (map fin qs) (fin a) = fin (a + fold_right Qplus 0 qs).
Proof.
  revert a. induction qs as [|q qs IH]; intro a; cbn [map fold_left fold_right].
  - apply fin_eq. ring.
  - rewrite add_fin, IH. apply fin_eq. ring.
Qed.

Lemma sum_app (l1 l2 : list Q) :
  fold_right Qplus 0 (l1 ++ l2)
  == fold_right Qplus 0 l1 + fold_right Qplus 0 l2.
Proof.
  induction l1 as [|q l1 IH]; cbn [app fold_right]; [ring|]. rewrite IH. ring.
Qed.

Lemma sum_nonneg (qs : list Q) :
  Forall (fun q => 0 <= q) qs -> 0 <= fold_right Qplus 0 qs.
Proof.
  induction 1 as [|q qs Hq _ IH]; cbn [fold_right]; [discriminate | lra].
Qed.

Lemma sum_scaled (qs : list Q) (n : Q) :
  ~ n == 0 ->
  fold_right Qplus 0 (map (fun q => q / n * 100) qs)
  == fold_right Qplus 0 qs / n * 100.
Proof.
  intro Hn. induction qs as [|q qs IH]; cbn [map fold_right].
  - field. exact Hn.
  - rewrite IH. field. exact Hn.
Qed.

Lemma sum_positive (qs : list Q) :
  Forall (fun q => 0 <= q) qs -> 0 < fold_right Qplus 0 qs ->
  Exists (fun q => 0 < q) qs.
Proof.
  induction 1 as [|q qs Hq Hqs IH]; cbn [fold_right]; intro H.
  - exfalso. revert H. apply Qlt_irrefl.
  - destruct (Qlt_le_dec 0 q) as [L|L]; [now left|].
    right. apply IH. lra.
Qed.

Lemma split_at {A : Type} (z : nat) (l : list A) (d : A) :
  (z < List.length l)%nat ->
  l = (firstn z l ++ nth z l d :: skipn (S z) l)%list.
Proof.
  revert l. induction z as [|z IH]; intros [|x l] H; cbn in H; try lia.
  - reflexivity.
  - cbn [firstn nth skipn app]. f_equal. apply IH. lia.
Qed.

(** One more pixel in bucket [z]. *)
Lemma bump_counts (qs : list Q) (z : Z) :
  (0 <= z < Z.of_nat (List.length qs))%Z ->
  Forall (fun q => 0 <= q) qs ->
  exists qs',
    bump (map fin qs) (fin (inject_Z z)) = map fin qs'
    /\ List.length qs' = List.length qs
    /\ Forall (fun q => 0 <= q) qs'
    /\ fold_right Qplus 0 qs' == fold_right Qplus 0 qs + 1.
Proof.
  intros Hz Hq. set (n := Z.to_nat z).
  assert (Hn : (n < List.length qs)%nat) by lia.
  exists (firstn n qs ++ (nth n qs 0 + 1) :: skipn (S n) qs)%list.
  split; [|split; [|split]].
  - rewrite bump_valid by (rewrite length_map; lia). fold n.
    rewrite map_app. cbn [map]. rewrite firstn_map, skipn_map.
    do 2 f_equal. unfold at_.
    rewrite (nth_indep _ NaN (fin 0)) by (rewrite length_map; lia).
    rewrite (map_nth fin qs 0 n). apply add_fin.
  - rewrite length_app, length_firstn. cbn [List.length].
    rewrite length_skipn. lia.
  - destruct (Forall_split (fun q => 0 <= q) n qs Hq) as [H1 _].
    destruct (Forall_split (fun q => 0 <= q) (S n) qs Hq) as [_ H2].
    apply Forall_app. split; [exact H1|]. constructor; [|exact H2].
    rewrite Forall_forall in Hq.
    assert (0 <= nth n qs 0) by (apply Hq, nth_In; lia). lra.
  - rewrite (split_at n qs 0 Hn) at 4.
    rewrite !sum_app. cbn [fold_right]. ring.
Qed.

Lemma luminanceOf_NaN_g (r b : num) : luminanceOf r NaN b = NaN.
Proof. unfold luminanceOf. destruct r, b; reflexivity. Qed.

(** The luminance histogram of a well-formed buffer with at least three
    channels: 256 non-negative percentages that add up to 100. *)
Lemma luminance_histogram (info : PixelBuffer) :
  wellFormed info -> (3 <= channels info)%Z ->
  exists qs : list Q,
    luminance (computeHistogram info) = map fin qs
    /\ List.length qs = 256%nat
    /\ Forall (fun q => 0 <= q) qs
    /\ fold_right Qplus 0 qs == 100.
Proof.
  intros (Hw & Hh & _ & Hlen & Hd) Hc.
  unfold computeHistogram.
  set (c := channels info) in *. set (N := (width info * height info)%Z) in *.
  set (idxs := rangeStep 0 (Z.of_nat (List.length (data info))) c).
  assert (HN : (0 < N)%Z) by (subst N; nia).
  assert (Hidx : List.length idxs = Z.to_nat N).
  { subst idxs. unfold rangeStep. rewrite length_map, length_seq, Hlen.
    f_equal. replace (N * c - 0 + c - 1)%Z with (N * c + (c - 1))%Z by lia.
    rewrite Z.div_add_l by lia. rewrite Z.div_small; lia. }
  match goal with
  | |- context [fold_left ?f idxs ?init] =>
      assert (Inv : (fun k a =>
                       let '(_, _, _, hl) := a in
                       exists qs, hl = map fin qs
                                  /\ List.length qs = 256%nat
                                  /\ Forall (fun q => 0 <= q) qs
                                  /\ fold_right Qplus 0 qs
                                     == inject_Z (Z.of_nat k))
                      (0 + List.length idxs)%nat (fold_left f idxs init))
  end.
  { apply fold_left_inv.
    - exists (repeat 0 256). split; [reflexivity|]. split; [reflexivity|].
      split; [|reflexivity].
      apply Forall_forall. intros a Ha. apply repeat_spec in Ha. subst a.
      apply Qle_refl.
    - intros k [[[hr hg] hb] hl] i Hi (qs & -> & Hl & Hq & Hs).
      apply in_rangeStep_bounds in Hi; [|lia]. destruct Hi as (Hi0 & Hi1 & Hi3).
      assert (Hi2 : (i + 2 < Z.of_nat (List.length (data info)))%Z).
      { rewrite Hlen in *.
        assert (Hm : (i = c * (i / c))%Z)
          by (rewrite (Z.div_mod i c) at 1 by lia; lia).
        assert (Hq' : (i / c < N)%Z)
          by (apply Z.div_lt_upper_bound; lia).
        assert (H : (c * (i / c) <= c * (N - 1))%Z)
          by (apply Z.mul_le_mono_nonneg_l; lia).
        clear Hq' Hi3. revert Hm H. generalize (i / c)%Z. intros q Hm H.
        rewrite Z.mul_sub_distr_l in H. rewrite (Z.mul_comm N c). lia. }
      destruct (get_pixel (data info) i Hd ltac:(lia)) as (r & -> & Hr).
      destruct (get_pixel (data info) (i + 1) Hd ltac:(lia)) as (g & -> & Hg).
      destruct (get_pixel (data info) (i + 2) Hd ltac:(lia)) as (b & -> & Hbl).
      destruct (luminanceOf_bucket r g b Hr Hg Hbl) as (l & -> & Hlum).
      destruct (bump_counts qs l ltac:(lia) Hq) as (qs' & -> & Hl' & Hq' & Hs').
      exists qs'. split; [reflexivity|]. split; [lia|]. split; [exact Hq'|].
      rewrite Hs', Hs, Nat2Z.inj_succ, <- Z.add_1_r, inject_Z_plus.
      reflexivity. }
  destruct (fold_left _ idxs _) as [[[hr hg] hb] hl].
  destruct Inv as (qs & -> & Hl & Hq & Hs). cbn [luminance].
  rewrite Hidx, Nat.add_0_l, Z2Nat.id in Hs by lia.
  assert (HNq : 0 < inject_Z N)
    by (change 0 with (inject_Z 0); rewrite <- Zlt_Qlt; exact HN).
  exists (map (fun q => q / inject_Z N * 100) qs).
  split; [|split; [|split]].
  - rewrite !map_map. apply map_ext. intro q.
    assert (HN0 : ~ inject_Z N == 0)
      by (intro E0; rewrite E0 in HNq; revert HNq; apply Qlt_irrefl).
    rewrite ofZ_fin, div_fin by exact HN0. apply mul_fin.
  - now rewrite length_map.
  - apply Forall_map. eapply Forall_impl; [|exact Hq].
    intros q H0. cbn beta.
    apply Qmult_le_0_compat; [|discriminate].
    apply Qle_shift_div_l; [exact HNq | now rewrite Qmult_0_l].
  - assert (HN0 : ~ inject_Z N == 0)
      by (intro E0; rewrite E0 in HNq; revert HNq; apply Qlt_irrefl).
    rewrite sum_scaled by exact HN0. rewrite Hs. field. exact HN0.
Qed.

Lemma sumSlice_fin (qs : list Q) (lo hi : nat) :
  sumSlice (map fin qs) lo hi
  = fin (fold_right Qplus 0 (firstn (hi - lo) (skipn lo qs))).
Proof.
  unfold sumSlice. rewrite skipn_map, firstn_map, total_fin.
  apply fin_eq. ring.
Qed.

Lemma sum_split (n : nat) (l : list Q) :
  fold_right Qplus 0 l
  == fold_right Qplus 0 (firstn n l) + fold_right Qplus 0 (skipn n l).
Proof. now rewrite <- sum_app, firstn_skipn. Qed.

Lemma zones_sum (qs : list Q) :
  List.length qs = 256%nat ->
  fold_right Qplus 0 (firstn (64 - 0) (skipn 0 qs))
  + fold_right Qplus 0 (firstn (192 - 64) (skipn 64 qs))
  + fold_right Qplus 0 (firstn (256 - 192) (skipn 192 qs))
  == fold_right Qplus 0 qs.
Proof.
  intro Hl.
  change (64 - 0)%nat with 64%nat. change (192 - 64)%nat with 128%nat.
  change (256 - 192)%nat with 64%nat. change (skipn 0 qs) with qs.
  rewrite (sum_split 64 qs).
  rewrite (sum_split 128 (skipn 64 qs)).
  rewrite skipn_skipn. change (128 + 64)%nat with 192%nat.
  rewrite (firstn_all2 (n := 64) (skipn 192 qs))
    by (rewrite length_skipn; lia).
  ring.
Qed.

(** X10: in the histogram of a well-formed buffer with three or more
    channels every pixel is counted once: the 256 luminance buckets are
    non-negative percentages that add up to 100, and so do the shadow,
    midtone and highlight zones.  The sums are stated to within a millionth,
    which leaves room for the rounding of the additions. *)
Theorem histogram_counts_every_pixel :
  forall info : PixelBuffer,
    wellFormed info -> (3 <= channels info)%Z ->
    let lum := luminance (computeHistogram info) in
    List.length lum = 256%nat
    /\ Forall Spec.bucket lum
    /\ Spec.within (sumSlice lum 0 256)
                   (100 - (1 # 1000000)) (100 + (1 # 1000000))
    /\ Spec.within (add (add (sumSlice lum 0 64) (sumSlice lum 64 192))
                        (sumSlice lum 192 256))
                   (100 - (1 # 1000000)) (100 + (1 # 1000000)).
Proof.
  intros info Hwf Hc lum. subst lum.
  destruct (luminance_histogram info Hwf Hc) as (qs & -> & Hl & Hq & Hs).
  assert (W : Spec.within (fin 100)
                          (100 - (1 # 1000000)) (100 + (1 # 1000000))).
  { eexists. split; [reflexivity|]. split; discriminate. }
  split; [now rewrite length_map|]. split; [|split].
  - apply Forall_map. eapply Forall_impl; [|exact Hq].
    intros q H0. now exists q.
  - replace (sumSlice (map fin qs) 0 256) with (fin 100); [exact W|].
    symmetry. rewrite sumSlice_fin. apply fin_eq. cbn [Nat.sub skipn].
    rewrite firstn_all2 by lia. exact Hs.
  - match goal with
    | |- Spec.within ?x _ _ => replace x with (fin 100); [exact W|]
    end.
    symmetry. rewrite !sumSlice_fin, !add_fin. apply fin_eq.
    rewrite zones_sum by exact Hl. exact Hs.
Qed.

Lemma histogram_counts_every_pixel_witness :
  wellFormed Examples.gray180 /\ (3 <= channels Examples.gray180)%Z
  /\ List.length (luminance (computeHistogram Examples.gray180)) = 256%nat
  /\ Spec.within (sumSlice (luminance (computeHistogram Examples.gray180))
                           0 256)
                 (100 - (1 # 1000000)) (100 + (1 # 1000000)).
Proof.
  assert (Hc : (3 <= channels Examples.gray180)%Z) by (cbn; lia).
  split; [exact gray180_wellFormed|]. split; [exact Hc|].
  destruct (histogram_counts_every_pixel Examples.gray180
              gray180_wellFormed Hc) as (H1 & _ & H2 & _).
  split; [exact H1 | exact H2].
Defined.

End HistogramSum.

Section ExposureScore.
Import JS Histogram.

Lemma within_weaken (s : num) (lo hi lo' hi' : Q) :
  lo' <= lo -> hi <= hi' -> Spec.within s lo hi -> Spec.within s lo' hi'.
Proof. intros H1 H2 (q & -> & Hq). exists q. split; [reflexivity | lra]. Qed.

Lemma within_sub (s x : num) (lo hi p : Q) :
  Spec.within s lo hi -> Spec.within x 0 p -> Spec.within (sub s x) (lo - p) hi.
Proof.
  intros (q & -> & Hq) (r & -> & Hr).
  value_of (sub (Fin q) (Fin r)) v E. exists v. split; [reflexivity|].
  rewrite E. lra.
Qed.

Lemma within_add (s x : num) (lo hi p : Q) :
  Spec.within s lo hi -> Spec.within x 0 p -> Spec.within (add s x) lo (hi + p).
Proof.
  intros (q & -> & Hq) (r & -> & Hr).
  value_of (add (Fin q) (Fin r)) v E. exists v. split; [reflexivity|].
  rewrite E. lra.
Qed.

Lemma within_fin (a lo hi : Q) : lo <= a <= hi -> Spec.within (fin a) lo hi.
Proof.
  intro H. exists (Qred a). split; [reflexivity|]. now rewrite Qred_correct.
Qed.

Lemma within_sub_fin (s : num) (a lo hi p : Q) :
  0 <= a <= p -> Spec.within s lo hi -> Spec.within (sub s (fin a)) (lo - p) hi.
Proof.
  intros Ha Hs. apply (within_weaken _ (lo - a) hi); [lra | lra |].
  apply within_sub; [exact Hs | apply within_fin; lra].
Qed.

Lemma within_add_fin (s : num) (a lo hi p : Q) :
  0 <= a <= p -> Spec.within s lo hi -> Spec.within (add s (fin a)) lo (hi + p).
Proof.
  intros Ha Hs. apply (within_weaken _ lo (hi + a)); [lra | lra |].
  apply within_add; [exact Hs | apply within_fin; lra].
Qed.

Lemma clamp_round_within (s : num) (lo hi : Z) :
  (0 <= lo)%Z -> (hi <= 100)%Z ->
  Spec.within s (inject_Z lo) (inject_Z hi) ->
  Notions.integerIn (max (fin 0) (min (fin 100) (round s))) lo hi.
Proof.
  intros Hlo Hhi W. apply round_within in W.
  destruct s as [x| | |]; try (destruct W as (q & E & _); discriminate E).
  cbn [round] in *.
  assert (Hq : inject_Z lo <= inject_Z (Qfloor (x + (1 # 2))) <= inject_Z hi)
    by (destruct W as (q & E & Hq); injection E as <-; exact Hq).
  rewrite <- !Zle_Qle in Hq.
  change (fin 0) with (ofZ 0). change (fin 100) with (ofZ 100).
  rewrite min_ofZ, max_ofZ. eexists. split; [reflexivity | lia].
Qed.

(** The penalty for clipping: nothing up to 2 percent, then a capped
    multiple of the excess. *)
Lemma clipping_penalty (s cl : num) (lo hi cap rate : Q) :
  0 <= cap -> 0 <= rate ->
  Spec.within s lo hi -> Notions.magnitude cl ->
  Spec.within
    (if gt cl (fin 2)
     then sub s (min (fin cap) (mul (sub cl (fin 2)) (fin rate)))
     else s) (lo - cap) hi.
Proof.
  intros Hcap Hrate Hs [->|(x & -> & Hx)].
  - cbn. apply (within_weaken _ lo hi); [lra | lra | exact Hs].
  - destruct (gt (Fin x) (fin 2)) eqn:G.
    + apply gt_Fin_iff in G. apply within_sub; [exact Hs|].
      value_of (min (fin cap) (mul (sub (Fin x) (fin 2)) (fin rate))) v E.
      exists v. split; [reflexivity|]. rewrite E. split.
      * apply Q.min_glb; [exact Hcap|]. apply Qmult_le_0_compat; lra.
      * apply Q.le_min_l.
    + apply (within_weaken _ lo hi); [lra | lra | exact Hs].
Qed.

Lemma exposure_score_bounds (e : Exposure) (c : Clipping) (d : DynamicRange) :
  Spec.within (deviation e) 0 1 ->
  Notions.magnitude (clipped (c_shadows c)) ->
  Notions.magnitude (clipped (c_highlights c)) ->
  Notions.integerIn (calculateExposureScore e c d) 20 95.
Proof.
  intros He Hs Hh. unfold calculateExposureScore. cbv zeta.
  apply clamp_round_within; [lia | lia |].
  assert (W0 : Spec.within (sub (fin 85) (mul (deviation e) (fin 20))) 65 85).
  { destruct He as (x & -> & Hx).
    value_of (sub (fin 85) (mul (Fin x) (fin 20))) v E.
    exists v. split; [reflexivity|]. rewrite E. lra. }
  assert (W1 := clipping_penalty _ _ 65 85 15 1.5
                  ltac:(discriminate) ltac:(discriminate) W0 Hs).
  assert (W2 := clipping_penalty _ _ (65 - 15) 85 20 2
                  ltac:(discriminate) ltac:(discriminate) W1 Hh).
  match type of W2 with
  | Spec.within ?s _ _ => set (s2 := s) in *
  end.
  assert (W3 : Spec.within
                 (if (dr_assessment d =? "very-limited")%string
                  then sub s2 (fin 10)
                  else if (dr_assessment d =? "limited")%string
                  then sub s2 (fin 5) else s2)
                 (65 - 15 - 20 - 10) 85).
  { destruct (dr_assessment d =? "very-limited")%string;
      [|destruct (dr_assessment d =? "limited")%string].
    - apply within_sub_fin; [split; discriminate | exact W2].
    - apply within_sub_fin; [split; discriminate | exact W2].
    - eapply within_weaken; [| |exact W2]; lra. }
  match type of W3 with
  | Spec.within ?s _ _ => set (s3 := s) in *
  end.
  assert (W4 : Spec.within
                 (match zones e with
                  | Some z => if gt (midtones z) (fin 50)
                              then add s3 (fin 5) else s3
                  | None => s3
                  end) (65 - 15 - 20 - 10) (85 + 5)).
  { destruct (zones e) as [z|]; [destruct (gt (midtones z) (fin 50))|].
    - apply within_add_fin; [split; discriminate | exact W3].
    - eapply within_weaken; [| |exact W3]; lra.
    - eapply within_weaken; [| |exact W3]; lra. }
  match type of W4 with
  | Spec.within ?s _ _ => set (s4 := s) in *
  end.
  assert (W5 : Spec.within
                 (if (dr_assessment d =? "excellent")%string
                  then add s4 (fin 5)
                  else if (dr_assessment d =? "good")%string
                  then add s4 (fin 3) else s4)
                 (65 - 15 - 20 - 10) (85 + 5 + 5)).
  { destruct (dr_assessment d =? "excellent")%string;
      [|destruct (dr_assessment d =? "good")%string].
    - apply within_add_fin; [split; discriminate | exact W4].
    - apply within_add_fin; [split; discriminate | exact W4].
    - eapply within_weaken; [| |exact W4]; lra. }
  eapply within_weaken; [| |exact W5]; discriminate.
Qed.

End ExposureScore.

Section HistogramEngine.
Import JS Histogram.

Lemma analyzeExposure_deviation (h : Histograms) :
  deviation (analyzeExposure h)
  = min (fin 1) (snd (assess (meanBrightnessOf (luminance h)))).
Proof.
  unfold analyzeExposure. cbv zeta.
  destruct (assess (meanBrightnessOf (luminance h))). reflexivity.
Qed.

Lemma assess_deviation (m : Q) :
  0 <= m <= 255 -> Spec.within (min (fin 1) (snd (assess (Fin m)))) 0 1.
Proof.
  intro Hm. unfold assess.
  assert (B : forall x v, 0 <= x -> v == Qmin 1 x -> 0 <= v <= 1).
  { intros x v Hx ->. split; [apply Q.min_glb; [discriminate|exact Hx]
                             | apply Q.le_min_l]. }
  destruct (lt (Fin m) (fin 80)) eqn:L80;
    [apply lt_Fin_iff in L80
    |destruct (gt (Fin m) (fin 180)) eqn:G180;
     [apply gt_Fin_iff in G180
     |destruct (ge (Fin m) (fin 100) && le (Fin m) (fin 160))%bool eqn:B3;
      [|destruct (lt (Fin m) (fin 100)) eqn:L100;
        [apply lt_Fin_iff in L100|]]]];
    cbn [snd];
    match goal with
    | |- Spec.within ?X _ _ => value_of X v E
    end; exists v; (split; [reflexivity|]); eapply B; try exact E.
  - apply Qle_shift_div_l; lra.
  - apply Qle_shift_div_l; lra.
  - discriminate.
  - apply Qle_shift_div_l; lra.
  - apply Qle_shift_div_l; [reflexivity|].
    assert (H1 : ~ m < 100)
      by (intro H; apply lt_Fin_iff in H; congruence).
    assert (H2 : ~ m <= 160).
    { intro H. apply le_Fin_iff in H. rewrite H, andb_true_r in B3.
      assert (G : ge (Fin m) (fin 100) = true) by (apply ge_Fin_iff; lra).
      congruence. }
    lra.
Qed.

Lemma round2_magnitude (s : Q) : 0 <= s -> Notions.magnitude (round2 (fin s)).
Proof.
  intro Hs. right. unfold round2.
  value_of (div (round (mul (fin s) (fin 100))) (fin 100)) v E.
  exists v. split; [reflexivity|]. rewrite E.
  apply Qle_shift_div_l; [reflexivity|]. rewrite Qmult_0_l.
  change 0 with (inject_Z 0). rewrite <- Zle_Qle.
  change 0%Z with (Qfloor 0). apply Qfloor_resp_le.
  assert (0 <= s * 100) by (apply Qmult_le_0_compat; [exact Hs|discriminate]).
  lra.
Qed.

Lemma slice_nonneg (qs : list Q) (n k : nat) :
  Forall (fun q => 0 <= q) qs ->
  0 <= fold_right Qplus 0 (firstn n (skipn k qs)).
Proof.
  intro H. apply sum_nonneg.
  apply (Forall_split _ n). apply (Forall_split _ k). exact H.
Qed.

Lemma ofZ_truthy (z : Z) : (z <> 0)%Z -> orElse (ofZ z) (fin 50) = ofZ z.
Proof.
  intro H. unfold orElse, ofZ, truthy.
  destruct (Qeq_bool (inject_Z z) 0) eqn:E; [|reflexivity].
  apply Qeq_bool_iff in E. exfalso. apply H.
  apply (proj1 (inject_Z_injective z 0)). exact E.
Qed.

(** X11: for a well-formed buffer with three or more channels the exposure
    score is an integer between 20 and 95; it is never 0, so the scoring
    engine's default of 50 is not used for it. *)
Theorem exposure_score_between_20_and_95 :
  forall info : PixelBuffer,
    wellFormed info -> (3 <= channels info)%Z ->
    let r := analyzeHistogram (Some info) in
    Notions.integerIn (score r) 20 95
    /\ Scoring.calculateExposureScore (Some r) = score r.
Proof.
  intros info Hwf Hc r. subst r. cbn [analyzeHistogram score].
  match goal with
  | |- Notions.integerIn ?s _ _ /\ _ =>
      assert (Hs : Notions.integerIn s 20 95)
  end.
  { destruct (luminance_histogram info Hwf Hc) as (qs & E & Hl & Hq & Hs).
    apply exposure_score_bounds.
    - rewrite analyzeExposure_deviation, E.
      destruct (mean_of_buckets (map fin qs)) as (m & -> & Hm).
      + apply Forall_map. eapply Forall_impl; [|exact Hq].
        intros q H0. now exists q.
      + apply Exists_map.
        assert (Hp : 0 < fold_right Qplus 0 qs) by (rewrite Hs; reflexivity).
        eapply Exists_impl; [|exact (sum_positive qs Hq Hp)].
        intros q H0. now exists q.
      + now rewrite length_map.
      + now apply assess_deviation.
    - unfold analyzeClipping. cbv zeta. cbn [c_shadows clipped].
      rewrite E, sumSlice_fin. apply round2_magnitude. now apply slice_nonneg.
    - unfold analyzeClipping. cbv zeta. cbn [c_highlights clipped].
      rewrite E, sumSlice_fin. apply round2_magnitude. now apply slice_nonneg. }
  split; [exact Hs|].
  unfold Scoring.calculateExposureScore. cbn [score].
  destruct Hs as (z & -> & Hz). apply ofZ_truthy. lia.
Qed.

Lemma exposure_score_between_20_and_95_witness :
  wellFormed Examples.gray180 /\ (3 <= channels Examples.gray180)%Z
  /\ Notions.integerIn (score (analyzeHistogram (Some Examples.gray180)))
                       20 95.
Proof.
  assert (Hc : (3 <= channels Examples.gray180)%Z) by (cbn; lia).
  split; [exact gray180_wellFormed|]. split; [exact Hc|].
  exact (proj1 (exposure_score_between_20_and_95 Examples.gray180
                  gray180_wellFormed Hc)).
Defined.

(** X12: a histogram without any counted pixel has a NaN mean; every
    comparison then fails, the assessment falls through to 'slightly-over'
    and the exposure score is NaN. *)
Theorem unfilled_histogram_is_slightly_over :
  forall h : Histograms,
    (forall i, (i < 256)%nat -> at_ (luminance h) i = fin 0) ->
    let e := analyzeExposure h in
    meanBrightness e = NaN /\ assessment e = "slightly-over"
    /\ deviation e = NaN
    /\ forall (c : Clipping) (d : DynamicRange),
         calculateExposureScore e c d = NaN.
Proof.
  intros h H e.
  assert (Em : meanBrightnessOf (luminance h) = NaN).
  { unfold meanBrightnessOf.
    match goal with
    | |- context [fold_left ?f (seq 0 256) ?init] =>
        assert (E : fold_left f (seq 0 256) init = (fin 0, fin 0))
    end.
    { apply fold_left_id. intros i Hi. apply in_seq in Hi.
      rewrite (H i) by lia. rewrite ofZ_fin, mul_fin, !add_fin.
      apply (f_equal2 pair); apply fin_eq; ring. }
    rewrite E. reflexivity. }
  assert (Ed : deviation e = NaN).
  { subst e. rewrite analyzeExposure_deviation, Em. reflexivity. }
  split; [|split; [|split; [exact Ed|]]].
  - subst e. unfold analyzeExposure. cbv zeta. rewrite Em. reflexivity.
  - subst e. rewrite analyzeExposure_assessment, Em. reflexivity.
  - intros c d. unfold calculateExposureScore. cbv zeta. rewrite Ed.
    repeat match goal with
           | |- context [if ?b then _ else _] => destruct b
           | |- context [match zones e with _ => _ end] => destruct (zones e)
           end; reflexivity.
Qed.

(** The histogram of a buffer of one channel counts nothing: the green and
    blue samples are missing and the luminance is NaN. *)
Lemma grayPixel_unfilled (i : nat) :
  (i < 256)%nat ->
  at_ (luminance (computeHistogram Samples.grayPixel)) i = fin 0.
Proof.
  intro H.
  assert (E : luminance (computeHistogram Samples.grayPixel)
              = repeat (fin 0) 256) by (vm_compute; reflexivity).
  rewrite E. unfold at_. apply (repeat_spec 256). apply nth_In.
  now rewrite repeat_length.
Qed.

Lemma unfilled_histogram_is_slightly_over_witness :
  (forall i, (i < 256)%nat ->
             at_ (luminance (computeHistogram Samples.grayPixel)) i = fin 0)
  /\ assessment (analyzeExposure (computeHistogram Samples.grayPixel))
     = "slightly-over".
Proof.
  split; [exact grayPixel_unfilled|].
  exact (proj1 (proj2 (unfilled_histogram_is_slightly_over
                         (computeHistogram Samples.grayPixel)
                         grayPixel_unfilled))).
Defined.

End HistogramEngine.

Section Clipping.
Import JS Histogram.

Lemma highlights_reason (a : Scoring.Analyses) :
  ge (Scoring.highlightsClipped (Scoring.histogram a)) (fin 25) = true ->
  In "blown-highlights" (Scoring.reasons (Scoring.checkAutoReject a)).
Proof.
  intro H. unfold Scoring.checkAutoReject. cbv zeta.
  change (Config.highlightClip Config.autoReject) with (fin 25). rewrite H.
  repeat match goal with
         | |- context [if ?c then _ else _] => destruct c
         end; cbn [Scoring.reasons app In]; tauto.
Qed.

Lemma critical_severity (p : num) :
  Spec.atLeast p 30 ->
  getSeverity p = "critical" /\ ge (round2 p) (fin 25) = true.
Proof.
  intro H. destruct p as [q| | |]; cbn [Spec.atLeast] in H; try contradiction.
  - split.
    + unfold getSeverity.
      repeat match goal with
             | |- context [if lt (Fin q) (fin ?t) then _ else _] =>
                 let L := fresh "L" in
                 destruct (lt (Fin q) (fin t)) eqn:L;
                 [apply lt_Fin_iff in L; exfalso; lra|]
             end.
      reflexivity.
    + unfold round2.
      value_of (div (round (mul (Fin q) (fin 100))) (fin 100)) v E.
      apply ge_Fin_iff. rewrite E.
      apply Qle_shift_div_l; [reflexivity|].
      change (25 * 100) with (inject_Z 2500). rewrite <- Zle_Qle.
      apply round_floor_ge. change (inject_Z 2500) with 2500. lra.
  - split; reflexivity.
Qed.

Lemma critical_means_thirty (p : num) :
  getSeverity p = "critical" -> round2 p <> NaN -> Spec.atLeast p 30.
Proof.
  intros S N. destruct p as [q| | |]; cbn [Spec.atLeast].
  - unfold getSeverity in S.
    destruct (lt (Fin q) (fin 30)) eqn:L.
    + repeat match type of S with
             | context [if ?c then _ else _] => destruct c
             end; discriminate S.
    + apply not_true_iff_false in L. rewrite lt_Fin_iff in L. lra.
  - exact I.
  - discriminate S.
  - now apply N.
Qed.

(** X13: when the highlight clipping is reported as 'critical' (30 percent
    or more of the luminance in the top six buckets) and the clipped
    percentage is a number, that percentage is at least 30 and the image is
    auto-rejected for blown highlights, but the issues list, which only looks
    for 'moderate' and 'severe', reports no clipping issue. *)
Theorem critical_clipping_is_rejected_but_not_listed :
  forall (h : Histograms) (hr : HistogramResult) (a : Scoring.Analyses)
         (scores : Scoring.Scores),
    Scoring.histogram a = Some hr ->
    clipping hr = analyzeClipping h ->
    severity (c_highlights (clipping hr)) = Some "critical" ->
    clipped (c_highlights (clipping hr)) <> NaN ->
    Spec.atLeast (clipped (c_highlights (clipping hr))) 30
    /\ In "blown-highlights" (Scoring.reasons (Scoring.checkAutoReject a))
    /\ forall i, In i (Scoring.generateIssuesList scores a) ->
                 Scoring.i_type i <> "clipping".
Proof.
  intros h hr a scores Ea Ec S1 N.
  assert (Hs : Spec.atLeast (sumSlice (luminance h) 250 256) 30).
  { rewrite Ec in S1, N. unfold analyzeClipping in S1, N. cbv zeta in S1, N.
    cbn [c_highlights severity clipped] in S1, N. injection S1 as S1.
    now apply critical_means_thirty. }
  destruct (critical_severity _ Hs) as [Sev Clip].
  assert (Ecl : clipped (c_highlights (clipping hr))
                = round2 (sumSlice (luminance h) 250 256)).
  { rewrite Ec. reflexivity. }
  split; [|split].
  - rewrite Ecl. revert Hs. generalize (sumSlice (luminance h) 250 256).
    intros p Hp. destruct p as [q| | |]; cbn [Spec.atLeast] in Hp;
      try contradiction; [|exact I].
    unfold round2.
    value_of (div (round (mul (Fin q) (fin 100))) (fin 100)) v E.
    cbn [Spec.atLeast]. rewrite E.
    apply Qle_shift_div_l; [reflexivity|].
    change (30 * 100) with (inject_Z 3000). rewrite <- Zle_Qle.
    apply round_floor_ge. change (inject_Z 3000) with 3000. lra.
  - apply highlights_reason. rewrite Ea. cbn [Scoring.highlightsClipped].
    rewrite Ecl. exact Clip.
  - intros i Hi. unfold Scoring.generateIssuesList in Hi. cbv zeta in Hi.
    rewrite Ea in Hi. unfold Scoring.severityIs in Hi. rewrite S1 in Hi.
    cbn [String.eqb Ascii.eqb Bool.eqb orb] in Hi.
    repeat match type of Hi with
           | context [if ?c then _ else _] => destruct c
           | context [match ?c with Some _ => _ | None => _ end] => destruct c
           end;
      cbn [app In] in Hi;
      repeat (destruct Hi as [<-|Hi]; [cbn; discriminate|]);
      contradiction.
Qed.

Lemma critical_clipping_is_rejected_but_not_listed_witness :
  let h := computeHistogram Samples.whitePixel in
  let hr := analyzeHistogram (Some Samples.whitePixel) in
  let a := Scoring.mkAnalyses None (Some hr) None None in
  severity (c_highlights (clipping hr)) = Some "critical"
  /\ clipped (c_highlights (clipping hr)) <> NaN
  /\ In "blown-highlights" (Scoring.reasons (Scoring.checkAutoReject a))
  /\ forall i, In i (Scoring.generateIssuesList Examples.ninety a) ->
               Scoring.i_type i <> "clipping".
Proof.
  intros h hr a.
  assert (S : severity (c_highlights (clipping hr)) = Some "critical")
    by (vm_compute; reflexivity).
  assert (N : clipped (c_highlights (clipping hr)) <> NaN)
    by (vm_compute; discriminate).
  split; [exact S|]. split; [exact N|].
  exact (proj2 (critical_clipping_is_rejected_but_not_listed h hr a
                  Examples.ninety eq_refl eq_refl S N)).
Defined.

(** X14: when a single luminance bucket is in use, the dynamic range is 0
    percent and 'very-limited', and since 0 is falsy the scoring engine
    replaces it by the default sub-score of 60. *)
Theorem single_tone_gets_default_dynamic_range :
  forall (h : Histograms) (hr : HistogramResult) (l : nat),
    (l < 256)%nat ->
    (forall i, (i < 256)%nat ->
               gt (at_ (luminance h) i) (fin 0.1) = true <-> i = l) ->
    dynamicRange hr = analyzeDynamicRange h ->
    percentage (dynamicRange hr) = fin 0
    /\ dr_assessment (dynamicRange hr) = "very-limited"
    /\ Scoring.dynamicRangeScore (Some hr) = fin 60.
Proof.
  intros h hr l Hl Hu Ed.
  assert (E : dynamicRange hr
              = mkDynamicRange (ofZ (Z.of_nat l)) (ofZ (Z.of_nat l))
                  (fin 0) (fin 0) "very-limited").
  { rewrite Ed. unfold analyzeDynamicRange. cbv zeta.
    set (used := fun i => gt (at_ (luminance h) i) (fin 0.1)).
    assert (E1 : find used (seq 0 256) = Some l).
    { destruct (find used (seq 0 256)) as [i|] eqn:F.
      - apply find_some in F. destruct F as [Hi Ui]. apply in_seq in Hi.
        f_equal. apply Hu; [lia | exact Ui].
      - assert (U := find_none _ _ F l ltac:(apply in_seq; lia)).
        assert (Ul : used l = true) by (apply Hu; [exact Hl | reflexivity]).
        congruence. }
    assert (E2 : find used (rev (seq 0 256)) = Some l).
    { destruct (find used (rev (seq 0 256))) as [i|] eqn:F.
      - apply find_some in F. destruct F as [Hi Ui].
        apply in_rev, in_seq in Hi. f_equal. apply Hu; [lia | exact Ui].
      - assert (U := find_none _ _ F l
                       ltac:(apply -> in_rev; apply in_seq; lia)).
        assert (Ul : used l = true) by (apply Hu; [exact Hl | reflexivity]).
        congruence. }
    rewrite E1, E2.
    assert (E0 : sub (ofZ (Z.of_nat l)) (ofZ (Z.of_nat l)) = fin 0)
      by (rewrite ofZ_fin, sub_fin; apply fin_eq; ring).
    rewrite E0. reflexivity. }
  rewrite E. cbn [percentage dr_assessment]. split; [reflexivity|].
  split; [reflexivity|].
  unfold Scoring.dynamicRangeScore. rewrite E. reflexivity.
Qed.

(** The histogram of the one-pixel frame of value 180 uses bucket 180
    only. *)
Lemma gray180_single_tone (i : nat) :
  (i < 256)%nat ->
  gt (at_ (luminance (computeHistogram Examples.gray180)) i) (fin 0.1) = true
  <-> i = 180%nat.
Proof.
  intro H.
  assert (E : luminance (computeHistogram Examples.gray180)
              = (repeat (fin 0) 180 ++ fin 100 :: repeat (fin 0) 75)%list)
    by (vm_compute; reflexivity).
  rewrite E. unfold at_.
  destruct (Nat.lt_trichotomy i 180) as [L|[->|G]].
  - rewrite app_nth1 by (rewrite repeat_length; exact L).
    rewrite (repeat_spec 180 (fin 0) (nth i (repeat (fin 0) 180) NaN))
      by (apply nth_In; now rewrite repeat_length).
    split; [intro X; vm_compute in X; discriminate X | lia].
  - split; [reflexivity | intros _; vm_compute; reflexivity].
  - rewrite app_nth2 by (rewrite repeat_length; lia). rewrite repeat_length.
    destruct (i - 180)%nat as [|m] eqn:Em; [lia|]. cbn [nth].
    rewrite (repeat_spec 75 (fin 0) (nth m (repeat (fin 0) 75) NaN))
      by (apply nth_In; rewrite repeat_length; lia).
    split; [intro X; vm_compute in X; discriminate X | lia].
Qed.

Lemma single_tone_gets_default_dynamic_range_witness :
  (180 < 256)%nat
  /\ percentage (dynamicRange (analyzeHistogram (Some Examples.gray180)))
     = fin 0
  /\ Scoring.dynamicRangeScore (Some (analyzeHistogram (Some Examples.gray180)))
     = fin 60.
Proof.
  assert (H : (180 < 256)%nat) by lia.
  split; [exact H|].
  destruct (single_tone_gets_default_dynamic_range
              (computeHistogram Examples.gray180)
              (analyzeHistogram (Some Examples.gray180)) 180 H
              gray180_single_tone eq_refl) as (H1 & _ & H2).
  split; [exact H1 | exact H2].
Defined.

End Clipping.

Section CompositionScore.
Import JS Composition.

(** X15: whatever the analyses, the composition score is an integer between
    57 and 98 and its assessment is never 'weak' (nor 'unknown'): the base of
    65 can lose 8 points at most. *)
Theorem composition_score_between_57_and_98 :
  forall (ruleOfThirds : RuleOfThirds) (balance : Balance) (horizon : Horizon)
         (symmetry : Symmetry),
    let s := calculateCompositionScore ruleOfThirds balance horizon symmetry in
    Notions.integerIn (sc_score s) 57 98
    /\ sc_assessment s <> "weak" /\ sc_assessment s <> "unknown".
Proof.
  intros r b h s. unfold calculateCompositionScore.
  destruct (gt (alignment r) (fin 60)); destruct (gt (alignment r) (fin 30));
    destruct ((bl_type b =? "balanced") || (bl_type b =? "symmetrical"))%bool;
    destruct (bl_type b =? "dynamic")%string;
    destruct (detected h);
    destruct (negb (isLevel h) && gt (absTilt h) (fin 4))%bool;
    destruct (hasQuality h "upper-third" || hasQuality h "lower-third")%bool;
    destruct (sy_type s =? "horizontally-symmetric")%string;
    cbn [sc_score sc_assessment];
    (split; [eexists; split; [vm_compute; reflexivity | lia]
            | split; vm_compute; discriminate]).
Qed.

End CompositionScore.

Section Symmetry.
Import JS Composition.

(** X16: a well-formed grayscale frame that equals its mirror image has a
    horizontal symmetry of 100 and is called 'horizontally-symmetric'. *)
Theorem mirror_image_is_horizontally_symmetric :
  forall b : PixelBuffer,
    wellFormed b -> channels b = 1%Z -> Notions.mirrored b ->
    let s := analyzeSymmetry (data b) (width b) (height b) in
    sy_horizontal s = fin 100 /\ sy_type s = "horizontally-symmetric".
Proof.
  intros b (Hw & Hh & _ & Hlen & Hd) Hc Hm s. subst s.
  rewrite Hc, Z.mul_1_r in Hlen. unfold Notions.mirrored in Hm.
  set (w := width b) in *. set (h := height b) in *. set (d := data b) in *.
  unfold analyzeSymmetry.
  set (ly1 := range 0 h). set (lx1 := range 0 ((w + 1) / 2)).
  assert (Hdiv_w : (0 < (w + 1) / 2 <= w)%Z)
    by (split; [apply Z.div_str_pos; lia | apply Z.div_le_upper_bound; lia]).
  match goal with
  | |- context [fold_left ?f ly1 ?init] =>
      assert (E1 : fold_left f ly1 init
                   = (fin 0, fin (inject_Z (Z.of_nat
                                   (List.length ly1 * List.length lx1)))))
  end.
  { refine (nested_inv
              (fun k a => a = (fin 0, fin (inject_Z (Z.of_nat k)))) ly1 lx1
              _ _ _ _).
    - reflexivity.
    - intros k a x y Hx Hy ->. apply in_range in Hx, Hy. cbv zeta.
      rewrite <- (Hm x y) by lia.
      destruct (get_pixel d (y * w + x) Hd ltac:(nia)) as (v & -> & _).
      rewrite sub_fin, abs_fin, !add_fin, count_step.
      apply (f_equal2 pair); [|reflexivity]. apply fin_eq.
      assert (Ez : inject_Z v - inject_Z v == 0) by ring.
      rewrite Ez. reflexivity. }
  rewrite E1.
  destruct (fold_left _ (range 0 ((h + 1) / 2)) _) as [vd vc].
  cbn [sy_horizontal sy_type].
  set (c1 := inject_Z (Z.of_nat (List.length ly1 * List.length lx1))).
  assert (H1 : ~ c1 == 0).
  { apply count_nonzero. subst ly1 lx1. rewrite !range_length. nia. }
  assert (Eh : sub (fin 1) (div (fin 0) (mul (fin c1) (fin 255))) = fin 1).
  { rewrite mul_fin, div_fin, sub_fin.
    - apply fin_eq. field. exact H1.
    - intro Hz. apply Qmult_integral in Hz. destruct Hz as [Hz|Hz];
        [contradiction | discriminate Hz]. }
  rewrite Eh. split; reflexivity.
Qed.

Lemma mirroredFrame_wellFormed : wellFormed Samples.mirroredFrame.
Proof.
  unfold wellFormed, Samples.mirroredFrame; cbn.
  repeat split; try lia. repeat constructor; lia.
Qed.

Lemma mirroredFrame_mirrored : Notions.mirrored Samples.mirroredFrame.
Proof.
  intros x y Hx Hy. cbn [Samples.mirroredFrame width height data] in *.
  assert (Ex : (x = 0 \/ x = 1 \/ x = 2)%Z) by lia.
  assert (Ey : (y = 0 \/ y = 1)%Z) by lia.
  destruct Ex as [->|[->| ->]]; destruct Ey as [->| ->]; reflexivity.
Qed.

Lemma mirror_image_is_horizontally_symmetric_witness :
  wellFormed Samples.mirroredFrame /\ channels Samples.mirroredFrame = 1%Z
  /\ Notions.mirrored Samples.mirroredFrame
  /\ sy_type (analyzeSymmetry (data Samples.mirroredFrame)
                              (width Samples.mirroredFrame)
                              (height Samples.mirroredFrame))
     = "horizontally-symmetric".
Proof.
  split; [exact mirroredFrame_wellFormed|]. split; [reflexivity|].
  split; [exact mirroredFrame_mirrored|].
  exact (proj2 (mirror_image_is_horizontally_symmetric Samples.mirroredFrame
                  mirroredFrame_wellFormed eq_refl mirroredFrame_mirrored)).
Defined.

End Symmetry.

Section InterestPoints.
Import JS Composition.

Lemma firstn_sorted {A : Type} (R : A -> A -> Prop) (n : nat) (l : list A) :
  StronglySorted R l -> StronglySorted R (firstn n l).
Proof.
  intro H. revert n. induction H as [|x l Hs IH Hx]; intros [|n];
    cbn [firstn]; try constructor.
  - apply IH.
  - apply (Forall_split _ n l Hx).
Qed.

Lemma contrast_finiteOrNaN (d : list Z) (w idx : Z) :
  Notions.finiteOrNaN
    (add (abs (sub (get d idx) (get d (idx + 1))))
         (abs (sub (get d idx) (get d (idx + w))))).
Proof.
  assert (A : forall a, Notions.finiteOrNaN a -> Notions.finiteOrNaN (abs a))
    by (intros [q| | |]; cbn; tauto).
  apply finiteOrNaN_add; apply A; apply finiteOrNaN_sub;
    apply get_finiteOrNaN.
Qed.

Lemma gt_finite (a b : num) :
  Notions.finiteOrNaN a -> gt a b = true -> Notions.finite a.
Proof.
  destruct a as [q| | |]; cbn; try tauto; intros _ H;
    [now exists q | destruct b; discriminate H].
Qed.

(** The points kept by the block search. *)
Lemma interest_points_found (t : Q) (d : list Z) (w h : Z) :
  let points :=
    fold_left (fun points by_ =>
      fold_left (fun points bx =>
        let '(maxContrast, maxX, maxY) :=
          fold_left (fun acc y =>
            fold_left (fun '(maxContrast, maxX, maxY) x =>
              let idx := (y * w + x)%Z in
              let contrast :=
                add (abs (sub (get d idx) (get d (idx + 1))))
                    (abs (sub (get d idx) (get d (idx + w)))) in
              if gt contrast maxContrast then (contrast, x, y)
              else (maxContrast, maxX, maxY))
              (range bx (Z.min (bx + blockSize) (w - 1))) acc)
            (range by_ (Z.min (by_ + blockSize) (h - 1)))
            (fin 0, bx, by_) in
        if gt maxContrast (fin t)
        then (points ++ [mkPoint maxX maxY maxContrast])%list
        else points)
        (rangeStep 0 w blockSize) points)
      (rangeStep 0 h blockSize) [] in
  Forall (fun p => (exists q, strength p = Fin q /\ t < q)
                   /\ (0 <= p_x p < w)%Z /\ (0 <= p_y p < h)%Z) points.
Proof.
  cbv zeta.
  set (Pt := fun p => (exists q, strength p = Fin q /\ t < q)
                      /\ (0 <= p_x p < w)%Z /\ (0 <= p_y p < h)%Z).
  refine (nested_inv (fun _ points => Forall Pt points)
            (rangeStep 0 h blockSize) (rangeStep 0 w blockSize) _ _ _ _).
  - constructor.
  - intros _ points bx by_ Hbx Hby Hp.
    apply in_rangeStep_bounds in Hbx, Hby; try reflexivity.
    set (Jp := fun (_ : nat) (a : num * Z * Z) =>
                 let '(mc, mx, my) := a in
                 Notions.finite mc /\ (bx <= mx < w)%Z /\ (by_ <= my < h)%Z).
    match goal with
    | |- context [fold_left ?f ?ly ?init] =>
        assert (J : Jp (List.length ly
                        * List.length
                            (range bx (Z.min (bx + blockSize) (w - 1))))%nat
                       (fold_left f ly init))
    end.
    { refine (nested_inv Jp _ _ _ _ _ _).
      - split; [now exists (Qred 0) | lia].
      - intros k [[mc mx] my] x y Hx Hy (Hmc & Hmx & Hmy).
        apply in_range in Hx, Hy. cbv zeta.
        destruct (gt _ mc) eqn:G.
        + split; [|lia].
          eapply gt_finite; [apply contrast_finiteOrNaN | exact G].
        + exact (conj Hmc (conj Hmx Hmy)). }
    destruct (fold_left _ _ _) as [[mc mx] my].
    destruct J as ((q & ->) & Hmx & Hmy).
    destruct (gt (Fin q) (fin t)) eqn:G; [|exact Hp].
    apply Forall_app. split; [exact Hp|]. constructor; [|constructor].
    split; [|cbn [p_x p_y]; lia].
    exists q. split; [reflexivity | now apply gt_Fin_iff].
Qed.

(** X17: the rule-of-thirds search returns at most ten interest points, each
    inside the image and with a contrast above the threshold of 50, the
    strongest first. *)
Theorem interest_points_are_strong_and_inside :
  forall (d : list Z) (w h : Z),
    let points := findInterestPoints d w h in
    (List.length points <= 10)%nat
    /\ Forall (fun p => Spec.above (strength p) 50
                        /\ (0 <= p_x p < w)%Z /\ (0 <= p_y p < h)%Z) points
    /\ StronglySorted (fun a b => ge (strength a) (strength b) = true) points.
Proof.
  intros d w h points. subst points.
  unfold findInterestPoints, findInterestPointsWith. cbv zeta.
  assert (F := interest_points_found 50 d w h). cbv zeta in F.
  set (found := fold_left _ (rangeStep 0 h blockSize) []) in *.
  split; [apply firstn_le_length|]. split.
  - apply (Forall_split _ 10). apply sortBy_Forall.
    eapply Forall_impl; [|exact F].
    intros p ((q & E & Hq) & Hx & Hy). rewrite E. cbn [Spec.above]. tauto.
  - apply firstn_sorted. apply sortBy_descending.
    eapply Forall_impl; [|exact F].
    intros p ((q & E & _) & _). now exists q.
Qed.

End InterestPoints.

Section Thirds.
Import JS Composition.

Lemma sqrt_fin_pos (x : Q) :
  0 < x -> exists r, sqrt (fin x) = fin r /\ 0 < r.
Proof.
  intro H. unfold fin at 1. cbn [sqrt]. unfold Qsgn.
  assert (Hr : 0 < Qred x) by now rewrite Qred_correct.
  destruct (0 ?= Qred x)%Q eqn:E.
  - apply Qeq_alt in E. rewrite <- E in Hr. exfalso. revert Hr. apply Qlt_irrefl.
  - eexists. split; [reflexivity|].
    unfold Qlt. cbn [Qnum Qden Z.mul]. rewrite Z.mul_1_r.
    apply Z.sqrt_pos.
    assert (Hn : (0 < Qnum (Qred (Qred x)))%Z).
    { assert (Hrr : 0 < Qred (Qred x)) by now rewrite Qred_correct.
      unfold Qlt in Hrr. cbn [Qnum Qden Z.mul] in Hrr. lia. }
    assert (Hs : (0 < sqrt_scale)%Z) by reflexivity.
    pose proof (Pos2Z.is_pos (Qden (Qred (Qred x)))).
    repeat apply Z.mul_pos_pos; assumption.
  - apply Qgt_alt in E. exfalso. apply (Qlt_irrefl 0).
    now apply (Qlt_trans _ (Qred x)).
Qed.

Lemma round_integer (a : num) (lo hi : Z) :
  Spec.within a (inject_Z lo) (inject_Z hi) ->
  Notions.integerIn (round a) lo hi.
Proof.
  intro W. assert (W' := round_within a lo hi W).
  destruct W as (x & -> & _). cbn [round] in *.
  assert (Hq : inject_Z lo <= inject_Z (Qfloor (x + (1 # 2))) <= inject_Z hi)
    by (destruct W' as (q & E & Hq); injection E as <-; exact Hq).
  rewrite <- !Zle_Qle in Hq. eexists. split; [reflexivity | exact Hq].
Qed.

(** The distance from an interest point to a power point of the frame. *)
Lemma distance_nonneg (x y : Z) (px py : num) :
  Notions.finite px -> Notions.finite py ->
  exists r,
    sqrt (add (mul (sub (ofZ x) px) (sub (ofZ x) px))
              (mul (sub (ofZ y) py) (sub (ofZ y) py))) = fin r /\ 0 <= r.
Proof.
  intros (a & ->) (b & ->).
  value_of (sub (ofZ x) (Fin a)) u Eu. value_of (sub (ofZ y) (Fin b)) v Ev.
  cbn [mul]. rewrite add_fin. apply sqrt_fin_nonneg. nra.
Qed.

Lemma thirds_finite (n : Z) :
  Notions.finite (div (ofZ n) (fin 3))
  /\ Notions.finite (div (mul (ofZ n) (fin 2)) (fin 3))
  /\ Notions.finite (div (ofZ n) (fin 6)).
Proof.
  split; [|split].
  - value_of (div (ofZ n) (fin 3)) v E. now exists v.
  - value_of (div (mul (ofZ n) (fin 2)) (fin 3)) v E. now exists v.
  - value_of (div (ofZ n) (fin 6)) v E. now exists v.
Qed.

(** X18: for a frame of positive width and height the rule-of-thirds
    alignment is an integer between 0 and 100. *)
Theorem thirds_alignment_is_a_percentage :
  forall (d : list Z) (w h : Z),
    (0 < w)%Z -> (0 < h)%Z ->
    Notions.integerIn (alignment (analyzeRuleOfThirds d w h)) 0 100.
Proof.
  intros d w h Hw Hh. unfold analyzeRuleOfThirds. cbv zeta.
  destruct (thirds_finite w) as (W1 & W2 & W6).
  destruct (thirds_finite h) as (H1 & H2 & H6).
  match goal with
  | |- context [fold_left ?f (findInterestPoints d w h) ?init] =>
      assert (Inv : (fun a : option string * num =>
                       snd a = PInf \/ exists r, snd a = fin r /\ 0 <= r)
                      (fold_left f (findInterestPoints d w h) init))
  end.
  { apply fold_left_preserves; [now left|].
    intros a p _ Ha. destruct a as [n md]. cbn [fold_left snd] in *.
    repeat (match goal with
            | |- context [sqrt (add (mul (sub (ofZ ?x) ?px) _)
                                    (mul (sub (ofZ ?y) ?py) _))] =>
                let r := fresh "r" in
                let E := fresh "E" in
                let Hr := fresh "Hr" in
                destruct (distance_nonneg x y px py) as (r & E & Hr);
                [assumption | assumption | rewrite E; clear E]
            end;
            match goal with
            | |- context [if lt (fin ?r) ?m then _ else _] =>
                destruct (lt (fin r) m)
            end; cbv beta iota).
    all: cbn [snd]; first [exact Ha | right; eauto]. }
  destruct (fold_left _ (findInterestPoints d w h) _) as [nearest md].
  cbn [snd] in Inv. cbn [alignment].
  destruct W6 as (a & Ea), H6 as (b & Eb). rewrite Ea, Eb.
  assert (Ha : 0 < a).
  { assert (D : Spec.denotes (div (ofZ w) (fin 6)) (inject_Z w / 6)) by denote.
    destruct D as (a' & Ea' & Eq). rewrite Ea in Ea'. injection Ea' as <-.
    rewrite Eq. apply Qlt_shift_div_l; [reflexivity|]. rewrite Qmult_0_l.
    change 0 with (inject_Z 0). rewrite <- Zlt_Qlt. exact Hw. }
  cbn [mul]. rewrite add_fin.
  destruct (sqrt_fin_pos (a * a + b * b)) as (m & -> & Hm); [nra|].
  apply round_integer.
  destruct Inv as [->|(r & -> & Hr)].
  - rewrite div_PInf_fin by lra. exists (Qred 0).
    split; [reflexivity|]. split; discriminate.
  - assert (Hm0 : ~ m == 0) by lra.
    value_of (mul (max (fin 0) (sub (fin 1) (div (fin r) (fin m)))) (fin 100))
             v E.
    exists v. split; [reflexivity|]. rewrite E.
    assert (0 <= r / m) by (apply Qle_shift_div_l; lra).
    assert (0 <= Qmax 0 (1 - r / m) <= 1).
    { split; [apply Q.le_max_l | apply Q.max_lub; lra]. }
    change (inject_Z 0) with 0. change (inject_Z 100) with 100.
    revert H0. generalize (Qmax 0 (1 - r / m)). intros. lra.
Qed.

Lemma thirds_alignment_is_a_percentage_witness :
  (0 < width Examples.stepEdge)%Z /\ (0 < height Examples.stepEdge)%Z
  /\ Notions.integerIn
       (alignment (analyzeRuleOfThirds (data Examples.stepEdge)
                                       (width Examples.stepEdge)
                                       (height Examples.stepEdge))) 0 100.
Proof.
  assert (Hw : (0 < width Examples.stepEdge)%Z) by (cbn; lia).
  assert (Hh : (0 < height Examples.stepEdge)%Z) by (cbn; lia).
  split; [exact Hw|]. split; [exact Hh|].
  exact (thirds_alignment_is_a_percentage _ _ _ Hw Hh).
Defined.

End Thirds.

Section Noise.
Import JS Scoring.

Lemma le_Fin_bool (q t : Q) : le (Fin q) (fin t) = Qle_bool q t.
Proof.
  destruct (Qle_bool q t) eqn:E.
  - apply le_Fin_iff. now apply Qle_bool_iff.
  - destruct (le (Fin q) (fin t)) eqn:L; [|reflexivity].
    apply le_Fin_iff in L. apply Qle_bool_iff in L. congruence.
Qed.

Lemma gt_Fin_bool (q t : Q) : gt (Fin q) (fin t) = negb (Qle_bool q t).
Proof.
  destruct (Qle_bool q t) eqn:E; cbn [negb].
  - destruct (gt (Fin q) (fin t)) eqn:G; [|reflexivity].
    apply gt_Fin_iff in G. apply Qle_bool_iff in E. exfalso. lra.
  - apply gt_Fin_iff. apply not_true_iff_false in E.
    rewrite Qle_bool_iff in E. lra.
Qed.

Lemma truthy_pos (q : Q) : 0 < q -> truthy (Fin q) = true.
Proof.
  intro H. cbn [truthy]. destruct (Qeq_bool q 0) eqn:E; [|reflexivity].
  apply Qeq_bool_iff in E. rewrite E in H. exfalso. revert H. apply Qlt_irrefl.
Qed.

Ltac split_on i :=
  repeat match goal with
         | |- context [if Qle_bool i ?t then _ else _] =>
             let E := fresh "E" in
             destruct (Qle_bool i t) eqn:E;
             [apply Qle_bool_iff in E
             |apply not_true_iff_false in E; rewrite Qle_bool_iff in E];
             cbn [negb andb]
         | |- context [negb (Qle_bool i ?t)] =>
             let E := fresh "E" in
             destruct (Qle_bool i t) eqn:E;
             [apply Qle_bool_iff in E
             |apply not_true_iff_false in E; rewrite Qle_bool_iff in E];
             cbn [negb andb]
         end.

(** X19: with the same histogram, a higher ISO never gives a better noise
    score. *)
Theorem noise_score_decreases_with_iso :
  forall (h : option Histogram.HistogramResult) (c1 c2 : bool) (i1 i2 : Q),
    0 < i1 -> i1 <= i2 ->
    ge (calculateNoiseScore (Some (mkExif (Some (Fin i1)) c1)) h)
       (calculateNoiseScore (Some (mkExif (Some (Fin i2)) c2)) h) = true.
Proof.
  intros h c1 c2 i1 i2 H1 H12. unfold calculateNoiseScore. cbn [iso].
  rewrite !truthy_pos by lra. cbn [negb].
  rewrite !le_Fin_bool, !gt_Fin_bool.
  destruct (gt (shadowZone h) (fin 30)); cbn [andb];
    split_on i1; split_on i2; first [reflexivity | exfalso; lra].
Qed.

Lemma noise_score_decreases_with_iso_witness :
  0 < 100 /\ 100 <= 6400
  /\ ge (calculateNoiseScore (Some (mkExif (Some (Fin 100)) false)) None)
        (calculateNoiseScore (Some (mkExif (Some (Fin 6400)) false)) None)
     = true.
Proof.
  assert (H1 : 0 < 100) by reflexivity.
  assert (H2 : 100 <= 6400) by discriminate.
  split; [exact H1|]. split; [exact H2|].
  exact (noise_score_decreases_with_iso None false false 100 6400 H1 H2).
Defined.

End Noise.

Section Issues.
Import JS Scoring.

Ltac intro_lets :=
  repeat match goal with
         | |- context C [let x := ?v in @?b x] =>
             let y := fresh x in
             pose (y := v);
             let g := context C [b y] in
             change g; cbv beta
         end.

Lemma countOf_app (s : string) (l : list Issue) (i : Issue) :
  Spec.countOf s (l ++ [i])
  = (Spec.countOf s l + (if String.eqb (i_severity i) s then 1 else 0))%Z.
Proof.
  unfold Spec.countOf. rewrite filter_app, length_app. cbn [filter].
  destruct (i_severity i =? s); cbn [List.length]; lia.
Qed.

(* One stage of generateIssuesList: the list is left alone, or one issue of
   type [t] and of weight at most [w] is appended. *)
Lemma issue_stage (l l' : list Issue) (T : list string) (t : string)
      (B w : Z) :
  (l' = l
   \/ exists i, l' = (l ++ [i])%list /\ i_type i = t
                /\ (i_severity i = "high" /\ (15 <= w)%Z
                    \/ i_severity i = "medium" /\ (5 <= w)%Z
                    \/ i_severity i = "low")) ->
  (0 <= w)%Z ->
  map i_type l = T
  /\ Forall (fun i => i_severity i = "high" \/ i_severity i = "medium"
                      \/ i_severity i = "low") l
  /\ (15 * Spec.countOf "high" l + 5 * Spec.countOf "medium" l <= B)%Z ->
  exists b : bool,
    map i_type l' = (T ++ (if b then [t] else []))%list
    /\ Forall (fun i => i_severity i = "high" \/ i_severity i = "medium"
                        \/ i_severity i = "low") l'
    /\ (15 * Spec.countOf "high" l' + 5 * Spec.countOf "medium" l'
        <= B + w)%Z.
Proof.
  intros [->|(i & -> & Ht & Hs)] Hw (HT & HF & HB).
  - exists false. rewrite app_nil_r. repeat split; [assumption.. | lia].
  - exists true. rewrite map_app, HT. cbn [map]. rewrite Ht.
    split; [reflexivity|]. split.
    + apply Forall_app. split; [assumption|]. constructor; [|constructor].
      tauto.
    + rewrite !countOf_app.
      destruct Hs as [[-> ?]|[[-> ?]| ->]];
        match goal with
        | |- context [if ?x =? ?y then _ else _] =>
            let b := eval vm_compute in (x =? y) in
            change (x =? y) with b
        end;
        match goal with
        | |- context [if ?x =? ?y then _ else _] =>
            let b := eval vm_compute in (x =? y) in
            change (x =? y) with b
        end; cbv iota; lia.
Qed.

Ltac stage x t w H :=
  eapply (issue_stage _ x _ t _ w) in H;
  [ | match goal with
      | |- ?x = _ \/ _ => subst x
      end; cbv zeta;
      repeat match goal with
             | |- context [match ?c with _ => _ end] => destruct c
             end;
      first [ left; reflexivity
            | right; eexists; split; [reflexivity|];
              split; [reflexivity|]; cbn [i_severity];
              first [ left; split; [reflexivity | lia]
                    | right; left; split; [reflexivity | lia]
                    | right; right; reflexivity ] ]
    | lia ].

(** X20: the issues list holds at most one issue per type, in the order
    sharpness, exposure, clipping, composition, noise; every severity is
    'high', 'medium' or 'low', and the high and medium issues together take
    at most 0.40 off the keeper probability. *)
Theorem issues_are_one_per_type :
  forall (scores : Scores) (a : Analyses),
    let l := generateIssuesList scores a in
    (exists s e c k n : bool,
        map i_type l
        = ((if s then ["sharpness"] else [])
           ++ (if e then ["exposure"] else [])
           ++ (if c then ["clipping"] else [])
           ++ (if k then ["composition"] else [])
           ++ (if n then ["noise"] else []))%list)
    /\ Forall (fun i => i_severity i = "high" \/ i_severity i = "medium"
                        \/ i_severity i = "low") l
    /\ (15 * Spec.countOf "high" l + 5 * Spec.countOf "medium" l <= 40)%Z.
Proof.
  intros scores a l.
  assert (H : forall l', l' = generateIssuesList scores a ->
     exists s e c k n : bool,
        map i_type l'
        = ((((([] ++ (if s then ["sharpness"] else []))
           ++ (if e then ["exposure"] else []))
           ++ (if c then ["clipping"] else []))
           ++ (if k then ["composition"] else []))
           ++ (if n then ["noise"] else []))%list
        /\ Forall (fun i => i_severity i = "high" \/ i_severity i = "medium"
                        \/ i_severity i = "low") l'
        /\ (15 * Spec.countOf "high" l' + 5 * Spec.countOf "medium" l'
            <= 0 + 15 + 5 + 15 + 5 + 0)%Z).
  { cbv beta delta [generateIssuesList]. intro_lets. intros l' El.
    assert (H0 : map i_type issues0 = []
                 /\ Forall (fun i => i_severity i = "high"
                                     \/ i_severity i = "medium"
                                     \/ i_severity i = "low") issues0
                 /\ (15 * Spec.countOf "high" issues0
                     + 5 * Spec.countOf "medium" issues0 <= 0)%Z).
    { subst issues0. repeat split; [constructor | cbn; lia]. }
    clearbody issues0.
    stage issues1 "sharpness" 15%Z H0. destruct H0 as [s H0]. clearbody issues1.
    stage issues2 "exposure" 5%Z H0. destruct H0 as [e H0]. clearbody issues2.
    stage issues3 "clipping" 15%Z H0. destruct H0 as [c H0]. clearbody issues3.
    stage issues4 "composition" 5%Z H0. destruct H0 as [k H0]. clearbody issues4.
    stage issues5 "noise" 0%Z H0. destruct H0 as [n H0].
    subst l'. exists s, e, c, k, n. exact H0. }
  destruct (H l eq_refl) as (s & e & c & k & n & HT & HF & HB).
  split; [|split; [exact HF | exact HB]].
  exists s, e, c, k, n. rewrite HT. cbn [app]. now rewrite <- !app_assoc.
Qed.
End Issues.

(* ================================================================= *)
(** ** The order of the numbers that are not NaN *)

Section Order.
Import JS.

Ltac order_facts :=
  repeat match goal with
         | E : (_ ?= _)%Q = Eq |- _ => apply Qeq_alt in E
         | E : (_ ?= _)%Q = Gt |- _ => apply Qgt_alt in E
         | E : (_ ?= _)%Q = Lt |- _ => apply Qlt_alt in E
         end.

Lemma cmp_refl (a : num) : a <> NaN -> cmp a a = Some Eq.
Proof.
  destruct a; cbn [cmp]; try congruence.
  intros _. f_equal. apply Qeq_alt. reflexivity.
Qed.

Lemma cmp_antisym (a b : num) :
  cmp b a = option_map CompOpp (cmp a b).
Proof.
  destruct a, b; cbn [cmp option_map CompOpp]; try reflexivity.
  f_equal. symmetry. apply Qcompare_antisym.
Qed.

Lemma gt_lt (a b : num) : gt a b = lt b a.
Proof.
  unfold gt, lt. rewrite (cmp_antisym a b).
  destruct (cmp a b) as [[]|]; reflexivity.
Qed.

Lemma ge_le (a b : num) : ge a b = le b a.
Proof.
  unfold ge, le. rewrite (cmp_antisym a b).
  destruct (cmp a b) as [[]|]; reflexivity.
Qed.

Lemma ge_refl (a : num) : a <> NaN -> ge a a = true.
Proof. intro H. unfold ge. now rewrite cmp_refl. Qed.

Lemma not_gt_ge (a b : num) :
  a <> NaN -> b <> NaN -> gt a b = false -> ge b a = true.
Proof.
  intros Ha Hb. rewrite ge_le. unfold gt, le.
  destruct a, b; cbn [cmp]; try congruence.
  destruct (q ?= q0)%Q; congruence.
Qed.

Lemma gt_ge (a b : num) : gt a b = true -> ge a b = true.
Proof. unfold gt, ge. destruct (cmp a b) as [[]|]; congruence. Qed.

Lemma ge_trans (a b c : num) :
  ge a b = true -> ge b c = true -> ge a c = true.
Proof.
  unfold ge. destruct a, b, c; cbn [cmp]; try congruence.
  destruct (q ?= q0)%Q eqn:E1; destruct (q0 ?= q1)%Q eqn:E2; try congruence;
    intros _ _;
    order_facts;
    assert (H : q1 <= q) by lra;
    rewrite Qle_alt in H; rewrite <- (Qcompare_antisym q1 q);
    destruct (q1 ?= q)%Q; cbn [CompOpp]; congruence.
Qed.

Lemma gt_ge_trans (a b c : num) :
  gt a b = true -> ge b c = true -> gt a c = true.
Proof.
  unfold gt, ge. destruct a, b, c; cbn [cmp]; try congruence.
  destruct (q ?= q0)%Q eqn:E1; destruct (q0 ?= q1)%Q eqn:E2; try congruence;
    intros _ _;
    order_facts;
    assert (H : q1 < q) by lra;
    rewrite Qlt_alt in H; rewrite <- (Qcompare_antisym q1 q), H;
    reflexivity.
Qed.

Lemma ge_gt_trans (a b c : num) :
  ge a b = true -> gt b c = true -> gt a c = true.
Proof.
  unfold gt, ge. destruct a, b, c; cbn [cmp]; try congruence.
  destruct (q ?= q0)%Q eqn:E1; destruct (q0 ?= q1)%Q eqn:E2; try congruence;
    intros _ _;
    order_facts;
    assert (H : q1 < q) by lra;
    rewrite Qlt_alt in H; rewrite <- (Qcompare_antisym q1 q), H;
    reflexivity.
Qed.

End Order.

(* ================================================================= *)
(** ** Comparing two images and picking the best of a group *)

Section Compare.
Import JS Scoring.

Lemma gt_Fin_Fin (p q : Q) : gt (Fin p) (Fin q) = true <-> q < p.
Proof.
  unfold gt. cbn [cmp]. rewrite Qlt_alt, <- (Qcompare_antisym p q).
  destruct (p ?= q)%Q; cbn [CompOpp]; split; congruence.
Qed.

Lemma sub_positive (a b : num) : gt (sub a b) (fin 0) = gt a b.
Proof.
  apply eq_true_iff_eq.
  destruct a as [p| | |], b as [q| | |];
    try (split; intro H; (discriminate H || exact H || reflexivity)).
  rewrite gt_sub_Fin, gt_Fin_Fin. reflexivity.
Qed.

Lemma sub_negative (a b : num) : lt (sub a b) (fin 0) = lt a b.
Proof.
  apply eq_true_iff_eq.
  destruct a as [p| | |], b as [q| | |];
    try (split; intro H; (discriminate H || exact H || reflexivity)).
  value_of (sub (Fin p) (Fin q)) v E. rewrite lt_Fin_iff, E.
  rewrite <- gt_lt, gt_Fin_Fin. split; intro; lra.
Qed.

Lemma abs_sub_sym (a b : num) : abs (sub a b) = abs (sub b a).
Proof.
  destruct a as [p| | |], b as [q| | |]; try reflexivity.
  unfold sub, neg. unfold add, fin, abs, fin. f_equal.
  apply Qred_complete. rewrite !Qred_correct.
  setoid_replace (q + - p) with (- (p + - q)) by ring.
  now rewrite Qabs_opp.
Qed.

(** X21: the winner is 'A' exactly when A's overall score is the larger, 'B'
    when it is the smaller and 'tie' otherwise (so also when a score is
    NaN); swapping the arguments swaps 'A' and 'B' and keeps the score
    difference. *)
Theorem comparison_is_antisymmetric :
  forall a b : ScoreResult,
    let c := compareImages a b in
    let c' := compareImages b a in
    (winner c = "A" <-> gt (overall a) (overall b) = true)
    /\ (winner c = "B" <-> lt (overall a) (overall b) = true)
    /\ (winner c = "A" <-> winner c' = "B")
    /\ (winner c = "tie" <-> winner c' = "tie")
    /\ scoreDiff c = scoreDiff c'.
Proof.
  intros a b c c'. subst c c'. unfold compareImages. cbv zeta.
  cbn [winner scoreDiff].
  rewrite !sub_positive, !sub_negative, (abs_sub_sym (overall a) (overall b)).
  rewrite (gt_lt (overall b) (overall a)), <- (gt_lt (overall a) (overall b)).
  assert (X : gt (overall a) (overall b) = true ->
              lt (overall a) (overall b) = false).
  { unfold gt, lt. destruct (cmp _ _) as [[]|]; congruence. }
  destruct (gt (overall a) (overall b)) eqn:G;
    [rewrite (X eq_refl) | destruct (lt (overall a) (overall b)) eqn:L];
    repeat split; intros; congruence.
Qed.

Lemma fold_left_seq_inv {S : Type} (P : nat -> S -> Prop)
  (f : S -> nat -> S) (n a : nat) (st : S) :
  P a st ->
  (forall i st, (a <= i < a + n)%nat -> P i st -> P (Datatypes.S i) (f st i)) ->
  P (a + n)%nat (fold_left f (seq a n) st).
Proof.
  revert a st. induction n as [|n IH]; intros a st H0 Hs.
  - now rewrite Nat.add_0_r.
  - cbn [seq fold_left]. rewrite Nat.add_succ_r.
    apply (IH (Datatypes.S a)).
    + apply Hs; [lia | exact H0].
    + intros i st' Hi. apply Hs. lia.
Qed.

Lemma overallOrZero_not_NaN (img : AnalyzedImage) : overallOrZero img <> NaN.
Proof. apply orElse_not_NaN. Qed.

(** X22: of a group of images the first one with the highest overall score is
    the best (an image without scoring counts as 0): no image of the group
    scores higher, and every image before it scores strictly lower. *)
Theorem best_in_group_is_first_maximum :
  forall (first : AnalyzedImage) (rest : list AnalyzedImage),
    let images := first :: rest in
    exists b : BestInGroup,
      findBestInGroup images = Some b
      /\ nth_error images (best_index b) = Some (best b)
      /\ (forall img, In img images ->
            ge (overallOrZero (best b)) (overallOrZero img) = true)
      /\ (forall j img, (j < best_index b)%nat ->
            nth_error images j = Some img ->
            gt (overallOrZero (best b)) (overallOrZero img) = true).
Proof.
  intros first rest images.
  destruct rest as [|second rest].
  { exists (mkBest first 0 None). subst images.
    split; [reflexivity|]. split; [reflexivity|]. split.
    - intros img [<-|[]]. apply ge_refl, overallOrZero_not_NaN.
    - intros j img Hj. cbn [best_index] in Hj. lia. }
  subst images. unfold findBestInGroup.
  set (images := first :: second :: rest).
  set (score := fun i => overallOrZero (nth i images first)).
  set (P := fun (i : nat) (st : nat * num) =>
              (fst st < i)%nat /\ snd st = score (fst st)
              /\ (forall j, (j < i)%nat -> ge (snd st) (score j) = true)
              /\ (forall j, (j < fst st)%nat ->
                    gt (snd st) (score j) = true)).
  match goal with
  | |- context [fold_left ?f (seq 1 ?n) ?st] =>
      assert (H : P (1 + n)%nat (fold_left f (seq 1 n) st));
      [apply fold_left_seq_inv | destruct (fold_left f (seq 1 n) st) as [bi bs]]
  end.
  { subst P. cbn [fst snd]. repeat split; [lia | | lia].
    intros j Hj. replace j with 0%nat by lia.
    apply ge_refl, overallOrZero_not_NaN. }
  { intros i [bi bs] Hi (Hb & Es & Hall & Hbefore). cbn [fst snd] in *.
    fold (score i). destruct (gt (score i) bs) eqn:G; subst P; cbn [fst snd].
    - repeat split; [lia | |].
      + intros j Hj. destruct (Nat.eq_dec j i) as [->|Hne].
        * apply ge_refl, overallOrZero_not_NaN.
        * apply gt_ge. apply (gt_ge_trans _ bs); [exact G|].
          apply Hall. lia.
      + intros j Hj. apply (gt_ge_trans _ bs); [exact G|]. now apply Hall.
    - repeat split; [lia | exact Es | | exact Hbefore].
      intros j Hj. destruct (Nat.eq_dec j i) as [->|Hne].
      + apply not_gt_ge; [apply overallOrZero_not_NaN | | exact G].
        rewrite Es. apply overallOrZero_not_NaN.
      + apply Hall. lia. }
  destruct H as (Hb & Es & Hall & Hbefore). cbn [fst snd] in *.
  replace (1 + (List.length images - 1))%nat with (List.length images) in *
    by (subst images; cbn [List.length]; lia).
  eexists. split; [reflexivity|]. cbn [best best_index].
  split; [now apply nth_error_nth'|]. fold (score bi). rewrite <- Es. split.
  - intros img Hin. destruct (In_nth _ _ first Hin) as (j & Hj & <-).
    now apply Hall.
  - intros j img Hj E. apply (nth_error_nth _ _ first) in E. subst img.
    now apply Hbefore.
Qed.

End Compare.

(* ================================================================= *)
(** ** Strongest and weakest aspect *)

Section Strongest.
Import JS Scoring.

Lemma sorted_last {A : Type} (R : A -> A -> Prop) (l : list A) (y : A) :
  StronglySorted R (l ++ [y]) -> Forall (fun x => R x y) l.
Proof.
  induction l as [|x l IH]; intro H; [constructor|].
  cbn [app] in H. apply StronglySorted_inv in H. destruct H as [Hs Hx].
  constructor; [|now apply IH].
  rewrite Forall_forall in Hx. apply Hx. apply in_or_app. right. now left.
Qed.

(** The entries that are not [null], as [classifyImage] filters them. *)
Lemma present_lookup (scores : Scores) (k : string) (v : num) :
  In (k, v)
     (flat_map (fun e : string * option num =>
                  match snd e with
                  | Some v => [(fst e, v)]
                  | None => []
                  end) (entries scores))
  <-> lookup scores k = Some v.
Proof.
  unfold lookup, entries. cbn [flat_map fst snd app find].
  split.
  - destruct (s_horizonLevel scores) as [hl|]; cbn [app In];
      intros H; repeat destruct H as [H|H]; try contradiction;
      injection H as <- <-; reflexivity.
  - repeat match goal with
           | |- context [if ?x =? k then _ else _] =>
               let E := fresh "E" in
               destruct (x =? k) eqn:E;
               [apply String.eqb_eq in E; subst k|]
           end; intro H; try discriminate H.
    all: try (injection H as <-); try rewrite H; cbn [app In]; tauto.
Qed.

(** X23: when every sub-score that is there is finite, the strongest aspect
    names a highest sub-score and the weakest a lowest one. *)
Theorem strongest_and_weakest_are_extremes :
  forall (score : num) (scores : Scores) (a : Analyses),
    (forall k v, lookup scores k = Some v -> Notions.finite v) ->
    exists (ks kw : string) (vs vw : num),
      strongest (classifyImage score scores a) = Some ks
      /\ weakest (classifyImage score scores a) = Some kw
      /\ lookup scores ks = Some vs
      /\ lookup scores kw = Some vw
      /\ forall k v, lookup scores k = Some v ->
                     ge vs v = true /\ le vw v = true.
Proof.
  intros score scores a Hf. unfold classifyImage. cbv zeta.
  cbn [strongest weakest].
  set (present := flat_map _ (entries scores)).
  assert (Hp : forall k v, In (k, v) present <-> lookup scores k = Some v)
    by apply present_lookup.
  assert (Hfin : Forall (fun e => Notions.finite (snd e)) present).
  { apply Forall_forall. intros [k v] Hin. apply (Hf k). now apply Hp. }
  assert (Hs := sortBy_descending (@snd string num) present Hfin).
  assert (Hperm := sortBy_perm (fun a b : string * num => sub (snd b) (snd a))
                               present).
  set (sorted := sortBy _ present) in *.
  assert (Hne : sorted <> []).
  { intro E. rewrite E in Hperm. apply Permutation_nil in Hperm.
    assert (X : In ("sharpness", s_sharpness scores) present)
      by (apply Hp; reflexivity).
    rewrite Hperm in X. exact X. }
  assert (Hnan : forall e, In e sorted -> snd e <> NaN).
  { intros e He. apply (Permutation_in _ Hperm) in He.
    rewrite Forall_forall in Hfin. destruct (Hfin e He) as (q & ->).
    discriminate. }
  destruct (exists_last Hne) as (init & [kw vw] & El).
  destruct sorted as [|[ks vs] tl] eqn:Es; [congruence|].
  exists ks, kw, vs, vw. cbn [hd_error option_map fst].
  rewrite El, rev_app_distr. cbn [rev app hd_error option_map fst].
  split; [reflexivity|]. split; [reflexivity|].
  split; [apply Hp, (Permutation_in _ Hperm); now left|].
  split; [apply Hp, (Permutation_in _ Hperm); rewrite El; apply in_or_app;
          right; now left|].
  intros k v Hk. apply Hp in Hk.
  apply (Permutation_in _ (Permutation_sym Hperm)) in Hk. split.
  - destruct Hk as [E|Hk].
    + injection E as -> ->. apply ge_refl.
      apply (Hnan (k, v)). now left.
    + apply StronglySorted_inv in Hs. destruct Hs as [_ Hall].
      rewrite Forall_forall in Hall. apply (Hall (k, v) Hk).
  - rewrite <- ge_le. rewrite El in Hk, Hs. apply in_app_or in Hk.
    destruct Hk as [Hk|[E|[]]].
    + apply sorted_last in Hs. rewrite Forall_forall in Hs.
      apply (Hs (k, v) Hk).
    + injection E as -> ->. apply ge_refl. apply (Hnan (k, v)).
      rewrite El. apply in_or_app. right. now left.
Qed.

Lemma mixed_finite (k : string) (v : num) :
  lookup Samples.mixed k = Some v -> Notions.finite v.
Proof.
  intro H. apply lookup_cases in H.
  cbn [Samples.mixed s_sharpness s_exposure s_focusAccuracy s_composition
       s_noise s_dynamicRange s_horizonLevel] in H.
  destruct H as [->|[->|[->|[->|[->|[->|H]]]]]];
    try (eexists; reflexivity). discriminate H.
Qed.

Lemma strongest_and_weakest_are_extremes_witness :
  (forall k v, lookup Samples.mixed k = Some v -> Notions.finite v)
  /\ exists (ks kw : string) (vs vw : num),
       strongest (classifyImage (fin 70) Samples.mixed Examples.steady)
       = Some ks
       /\ weakest (classifyImage (fin 70) Samples.mixed Examples.steady)
          = Some kw
       /\ lookup Samples.mixed ks = Some vs
       /\ lookup Samples.mixed kw = Some vw
       /\ forall k v, lookup Samples.mixed k = Some v ->
                      ge vs v = true /\ le vw v = true.
Proof.
  split; [exact mixed_finite|].
  exact (strongest_and_weakest_are_extremes (fin 70) Samples.mixed
           Examples.steady mixed_finite).
Defined.

End Strongest.

(* ================================================================= *)
(** ** Sessions and burst groups *)

Section Timeline.
Import JS Scoring Analyzer.

Lemma adjacent_nil {A : Type} (R : A -> A -> Prop) : Notions.adjacent R [].
Proof. intros pre a b post E. destruct pre; discriminate E. Qed.

Lemma adjacent_single {A : Type} (R : A -> A -> Prop) (x : A) :
  Notions.adjacent R [x].
Proof.
  intros pre a b post E. destruct pre as [|? [|? ?]]; discriminate E.
Qed.

Lemma adjacent_snoc {A : Type} (R : A -> A -> Prop) (l : list A) (x : A) :
  Notions.adjacent R l ->
  (forall l' y, l = (l' ++ [y])%list -> R y x) ->
  Notions.adjacent R (l ++ [x]).
Proof.
  intros Hl Hx pre a b post E.
  destruct (@exists_last _ (a :: b :: post)) as (m & z & Em); [discriminate|].
  rewrite Em, app_assoc in E. apply app_inj_tail in E. destruct E as [E ->].
  destruct m as [|a' [|b' m]].
  - discriminate Em.
  - injection Em as -> -> Em. apply (Hx pre). exact E.
  - cbn [app] in Em. injection Em as -> -> Em.
    apply (Hl pre a' b' m). exact E.
Qed.

Lemma lastTime_snoc (l : list AnalyzedImage) (x : AnalyzedImage) :
  lastTime (l ++ [x]) = timeOf x.
Proof. unfold lastTime. now rewrite rev_app_distr. Qed.

Lemma firstTime_app (l : list AnalyzedImage) (x : AnalyzedImage) :
  l <> [] -> firstTime (l ++ [x]) = firstTime l.
Proof. destruct l; [congruence | reflexivity]. Qed.

Section Sessions.
Variable gapMs : num.

Let close (a b : AnalyzedImage) : Prop :=
  le (sub (timeOf b) (timeOf a)) gapMs = true.
Let apart (s s' : Session) : Prop :=
  le (sub (startTime s') (endTime s)) gapMs = false.
Let good (s : Session) : Prop :=
  s_images s <> [] /\ count s = List.length (s_images s)
  /\ startTime s = firstTime (s_images s)
  /\ endTime s = lastTime (s_images s)
  /\ Notions.adjacent close (s_images s).

Let step : list Session * list AnalyzedImage -> AnalyzedImage
           -> list Session * list AnalyzedImage :=
  fun '(sessions, currentSession) current =>
    let currentTime := timeOf current in
    match currentSession with
    | [] => (sessions, [current])
    | _ :: _ =>
        if le (sub currentTime (lastTime currentSession)) gapMs
        then (sessions, (currentSession ++ [current])%list)
        else
          ((sessions ++
            [createSessionSummary currentSession
               (List.length sessions + 1)])%list,
           [current])
    end.

Let Inv (p : list AnalyzedImage) (st : list Session * list AnalyzedImage)
  : Prop :=
  (List.concat (map s_images (fst st)) ++ snd st)%list = p
  /\ map s_index (fst st) = seq 1 (List.length (fst st))
  /\ Forall good (fst st)
  /\ Notions.adjacent apart (fst st)
  /\ Notions.adjacent close (snd st)
  /\ (snd st = [] -> fst st = [])
  /\ (forall pre s, fst st = (pre ++ [s])%list ->
        le (sub (firstTime (snd st)) (endTime s)) gapMs = false).

Lemma summary_good (images : list AnalyzedImage) (index : nat) :
  images <> [] -> Notions.adjacent close images ->
  good (createSessionSummary images index).
Proof.
  intros Hne Hadj. unfold good, createSessionSummary.
  cbn [s_images count startTime endTime]. repeat split; assumption.
Qed.

(* Closing the current session keeps the invariants of the list. *)
Lemma close_session (sessions : list Session)
  (current : list AnalyzedImage) :
  current <> [] ->
  map s_index sessions = seq 1 (List.length sessions) ->
  Forall good sessions ->
  Notions.adjacent apart sessions ->
  Notions.adjacent close current ->
  (forall pre s, sessions = (pre ++ [s])%list ->
     le (sub (firstTime current) (endTime s)) gapMs = false) ->
  let sessions' :=
    (sessions ++ [createSessionSummary current (List.length sessions + 1)])%list
  in
  List.concat (map s_images sessions')
  = (List.concat (map s_images sessions) ++ current)%list
  /\ map s_index sessions' = seq 1 (List.length sessions')
  /\ Forall good sessions'
  /\ Notions.adjacent apart sessions'.
Proof.
  intros Hne Hi Hg Ha Hc Hl sessions'. subst sessions'.
  split; [|split; [|split]].
  - rewrite map_app, concat_app. cbn [map List.concat s_images createSessionSummary].
    now rewrite app_nil_r.
  - rewrite map_app, length_app, Hi. cbn [map List.length s_index
                                          createSessionSummary].
    rewrite seq_app. cbn [seq]. now rewrite Nat.add_comm.
  - apply Forall_app. split; [exact Hg|].
    constructor; [now apply summary_good | constructor].
  - apply adjacent_snoc; [exact Ha|]. intros pre s E. unfold apart.
    cbn [startTime createSessionSummary]. now apply (Hl pre).
Qed.

Lemma sessions_inv (p : list AnalyzedImage) :
  Inv p (fold_left step p ([], [])).
Proof.
  induction p as [|x p IH] using rev_ind.
  - unfold Inv. cbn [fold_left fst snd map List.concat app List.length seq].
    repeat split; try reflexivity; try constructor;
      try apply adjacent_nil.
  - rewrite fold_left_app. cbn [fold_left].
    destruct (fold_left step p ([], [])) as [sessions current].
    destruct IH as (I1 & I2 & I3 & I4 & I5 & I6 & I7). cbn [fst snd] in *.
    unfold step. cbv zeta. destruct current as [|c cs].
    + rewrite (I6 eq_refl) in *. unfold Inv. cbn [fst snd].
      cbn [map List.concat app] in *. subst p.
      repeat split; try reflexivity; try constructor;
        try apply adjacent_nil; try apply adjacent_single; try discriminate.
      intros pre s E; destruct pre; discriminate E.
    + destruct (le (sub (timeOf x) (lastTime (c :: cs))) gapMs) eqn:L;
        unfold Inv; cbn [fst snd].
      * split; [now rewrite app_assoc, I1|].
        split; [exact I2|]. split; [exact I3|]. split; [exact I4|].
        split; [|split; [intro E; destruct cs; discriminate E|]].
        -- apply adjacent_snoc; [exact I5|]. intros l' y E. unfold close.
           rewrite E, lastTime_snoc in L. exact L.
        -- intros pre s E. rewrite firstTime_app by discriminate.
           now apply (I7 pre).
      * destruct (close_session sessions (c :: cs))
          as (C1 & C2 & C3 & C4); try assumption; [discriminate|].
        split; [now rewrite C1, I1|].
        split; [exact C2|]. split; [exact C3|]. split; [exact C4|].
        split; [apply adjacent_single|]. split; [discriminate|].
        intros pre s E. apply app_inj_tail in E. destruct E as [_ <-].
        cbn [endTime createSessionSummary firstTime]. exact L.
Qed.

End Sessions.

(** X24: the sessions split the successful, timestamped images in time
    order: joined together they are the sorted list, they are numbered from
    1, none is empty, neighbours inside a session are at most the gap apart
    and a session starts more than the gap after the one before ends. *)
Theorem sessions_partition_the_timeline :
  forall (analyzedImages : list AnalyzedImage) (gapMinutes : num),
    let sessions := detectSessions analyzedImages gapMinutes in
    let gapMs := mul (mul gapMinutes (fin 60)) (fin 1000) in
    List.concat (map s_images sessions) = sortedByTime analyzedImages
    /\ map s_index sessions = seq 1 (List.length sessions)
    /\ Forall (fun s =>
                 s_images s <> [] /\ count s = List.length (s_images s)
                 /\ startTime s = firstTime (s_images s)
                 /\ endTime s = lastTime (s_images s)
                 /\ Notions.adjacent
                      (fun a b => le (sub (timeOf b) (timeOf a)) gapMs = true)
                      (s_images s))
              sessions
    /\ Notions.adjacent
         (fun s s' => le (sub (startTime s') (endTime s)) gapMs = false)
         sessions.
Proof.
  intros imgs gapMinutes sessions gapMs. subst sessions.
  unfold detectSessions. cbv zeta. fold gapMs.
  assert (H := sessions_inv gapMs (sortedByTime imgs)).
  cbv zeta in H.
  match type of H with
  | context [fold_left ?f ?l ?st] =>
      change (fold_left _ l st) with (fold_left f l st);
      destruct (fold_left f l st) as [sessions current]
  end.
  destruct H as (I1 & I2 & I3 & I4 & I5 & I6 & I7). cbn [fst snd] in *.
  destruct current as [|c cs]; cbn [List.length Nat.ltb Nat.leb].
  - rewrite app_nil_r in I1. repeat split; assumption.
  - destruct (close_session gapMs sessions (c :: cs))
      as (C1 & C2 & C3 & C4); try assumption; [discriminate|].
    rewrite C1, I1. repeat split; assumption.
Qed.

Section Bursts.
Variable maxIntervalMs : num.

Let close (a b : AnalyzedImage) : Prop :=
  le (sub (timeOf b) (timeOf a)) maxIntervalMs = true.

(* A group closed by the image [next], inside the images seen so far. *)
Let closed (p : list AnalyzedImage) (g : BurstGroup) : Prop :=
  bg_size g = List.length (bg_images g)
  /\ (2 <= List.length (bg_images g))%nat
  /\ Notions.adjacent close (bg_images g)
  /\ exists pre next post,
       p = (pre ++ bg_images g ++ next :: post)%list
       /\ timeSpan g = sub (timeOf next) (firstTime (bg_images g))
       /\ le (sub (timeOf next) (lastTime (bg_images g))) maxIntervalMs
          = false
       /\ (forall pre' y, pre = (pre' ++ [y])%list ->
             le (sub (firstTime (bg_images g)) (timeOf y)) maxIntervalMs
             = false).

(* A group of the result, inside the sorted images. *)
Let placed (sorted : list AnalyzedImage) (g : BurstGroup) : Prop :=
  bg_size g = List.length (bg_images g)
  /\ (2 <= List.length (bg_images g))%nat
  /\ Notions.adjacent close (bg_images g)
  /\ exists pre post,
       sorted = (pre ++ bg_images g ++ post)%list
       /\ timeSpan g
          = sub (match post with
                 | [] => lastTime (bg_images g)
                 | next :: _ => timeOf next
                 end) (firstTime (bg_images g))
       /\ (forall next post', post = next :: post' ->
             le (sub (timeOf next) (lastTime (bg_images g))) maxIntervalMs
             = false)
       /\ (forall pre' y, pre = (pre' ++ [y])%list ->
             le (sub (firstTime (bg_images g)) (timeOf y)) maxIntervalMs
             = false).

Let step : list BurstGroup * list AnalyzedImage -> AnalyzedImage
           -> list BurstGroup * list AnalyzedImage :=
  fun '(groups, currentGroup) current =>
    let currentTime := timeOf current in
    match currentGroup with
    | [] => (groups, [current])
    | _ :: _ =>
        let interval := sub currentTime (lastTime currentGroup) in
        if le interval maxIntervalMs
        then (groups, (currentGroup ++ [current])%list)
        else
          ((if (2 <=? List.length currentGroup)%nat
            then (groups ++
                  [mkBurstGroup currentGroup (List.length currentGroup)
                     (sub currentTime (firstTime currentGroup))])%list
            else groups),
           [current])
    end.

Let Inv (p : list AnalyzedImage)
  (st : list BurstGroup * list AnalyzedImage) : Prop :=
  Forall (closed p) (fst st)
  /\ (exists pre,
         p = (pre ++ snd st)%list
         /\ (snd st <> [] ->
             forall pre' y, pre = (pre' ++ [y])%list ->
               le (sub (firstTime (snd st)) (timeOf y)) maxIntervalMs
               = false))
  /\ Notions.adjacent close (snd st)
  /\ (snd st = [] -> p = []).

Lemma closed_later (p : list AnalyzedImage) (x : AnalyzedImage)
  (g : BurstGroup) : closed p g -> closed (p ++ [x]) g.
Proof.
  intros (Hs & H2 & Ha & pre & next & post & E & Ht & Hn & Hp).
  repeat split; try assumption.
  exists pre, next, (post ++ [x])%list. repeat split; try assumption.
  rewrite E, <- !app_assoc. reflexivity.
Qed.

Lemma closed_placed (sorted : list AnalyzedImage) (g : BurstGroup) :
  closed sorted g -> placed sorted g.
Proof.
  intros (Hs & H2 & Ha & pre & next & post & E & Ht & Hn & Hp).
  repeat split; try assumption.
  exists pre, (next :: post). repeat split; try assumption.
  intros n post' X. injection X as <- <-. exact Hn.
Qed.

Lemma bursts_inv (p : list AnalyzedImage) :
  Inv p (fold_left step p ([], [])).
Proof.
  induction p as [|x p IH] using rev_ind.
  - unfold Inv. cbn [fold_left fst snd]. repeat split.
    + constructor.
    + exists []. split; [reflexivity | congruence].
    + apply adjacent_nil.
  - rewrite fold_left_app. cbn [fold_left].
    destruct (fold_left step p ([], [])) as [groups current].
    destruct IH as (J1 & (pre & J2 & J2') & J3 & J4). cbn [fst snd] in *.
    assert (M : Forall (closed (p ++ [x])) groups).
    { revert J1. apply Forall_impl. intro g. apply closed_later. }
    unfold step. cbv zeta. destruct current as [|c cs].
    + rewrite (J4 eq_refl). unfold Inv. cbn [fst snd app].
      rewrite (J4 eq_refl) in M.
      repeat split; [exact M | | apply adjacent_single | discriminate].
      exists []. split; [reflexivity|].
      intros _ pre' y E. destruct pre'; discriminate E.
    + destruct (le (sub (timeOf x) (lastTime (c :: cs))) maxIntervalMs) eqn:L;
        unfold Inv; cbn [fst snd].
      * split; [exact M|]. split; [|split].
        -- exists pre. split; [now rewrite J2, app_assoc|].
           intros _ pre' y E. rewrite firstTime_app by discriminate.
           apply (J2' ltac:(discriminate) pre' y E).
        -- apply adjacent_snoc; [exact J3|]. intros l' y E. unfold close.
           rewrite E, lastTime_snoc in L. exact L.
        -- intro E. destruct cs; discriminate E.
      * split; [|split; [|split]].
        -- destruct (2 <=? List.length (c :: cs))%nat eqn:T; [|exact M].
           apply Forall_app. split; [exact M|].
           constructor; [|constructor].
           unfold closed. cbn [bg_size bg_images timeSpan].
           split; [reflexivity|]. split; [now apply Nat.leb_le|].
           split; [exact J3|].
           exists pre, x, []. split; [now rewrite J2, <- app_assoc|].
           split; [reflexivity|]. split; [exact L|].
           apply J2'. discriminate.
        -- exists p. split; [reflexivity|].
           intros _ pre' y E. cbn [firstTime].
           destruct (@exists_last _ (c :: cs)) as (m & z & Em);
             [discriminate|].
           rewrite Em, lastTime_snoc in L.
           rewrite Em, E, app_assoc in J2. apply app_inj_tail in J2.
           destruct J2 as [_ ->]. exact L.
        -- apply adjacent_single.
        -- discriminate.
Qed.

Lemma burst_groups_placed (analyzedImages : list AnalyzedImage) :
  Forall (placed (sortedByTime analyzedImages))
         (detectBurstGroups analyzedImages maxIntervalMs).
Proof.
  unfold detectBurstGroups. cbv zeta.
  assert (H := bursts_inv (sortedByTime analyzedImages)).
  match type of H with
  | context [fold_left ?f ?l ?st] =>
      change (fold_left _ l st) with (fold_left f l st);
      destruct (fold_left f l st) as [groups current]
  end.
  destruct H as (J1 & (pre & J2 & J2') & J3 & J4). cbn [fst snd] in *.
  assert (M : Forall (placed (sortedByTime analyzedImages)) groups).
  { revert J1. apply Forall_impl. intro g. apply closed_placed. }
  destruct (2 <=? List.length current)%nat eqn:T; [|exact M].
  apply Forall_app. split; [exact M|]. constructor; [|constructor].
  unfold placed. cbn [bg_size bg_images timeSpan].
  split; [reflexivity|]. split; [now apply Nat.leb_le|].
  split; [exact J3|].
  exists pre, []. split; [now rewrite app_nil_r|].
  split; [reflexivity|]. split; [intros n post' X; discriminate X|].
  apply J2'. intro E. rewrite E in T. discriminate T.
Qed.

End Bursts.

(** X25: every burst group is a maximal run of at least two images of the
    time-ordered list: neighbours inside the group are at most the interval
    apart, and the image before and the image after the group, if there is
    one, are farther away. *)
Theorem burst_groups_are_maximal_runs :
  forall (analyzedImages : list AnalyzedImage) (maxIntervalMs : num),
    Forall (fun g =>
              bg_size g = List.length (bg_images g)
              /\ (2 <= bg_size g)%nat
              /\ Notions.adjacent
                   (fun a b =>
                      le (sub (timeOf b) (timeOf a)) maxIntervalMs = true)
                   (bg_images g)
              /\ exists pre post,
                   sortedByTime analyzedImages
                   = (pre ++ bg_images g ++ post)%list
                   /\ (forall next post', post = next :: post' ->
                         le (sub (timeOf next) (lastTime (bg_images g)))
                            maxIntervalMs = false)
                   /\ (forall pre' y, pre = (pre' ++ [y])%list ->
                         le (sub (firstTime (bg_images g)) (timeOf y))
                            maxIntervalMs = false))
           (detectBurstGroups analyzedImages maxIntervalMs).
Proof.
  intros imgs m. generalize (burst_groups_placed m imgs).
  apply Forall_impl. intros g (Hs & H2 & Ha & pre & post & E & _ & Hn & Hp).
  split; [exact Hs|]. split; [now rewrite Hs|]. split; [exact Ha|].
  exists pre, post. repeat split; assumption.
Qed.

(** X26: the time span of a burst group runs from its first image to the image
    that follows the group in the time-ordered list, which is not part of the
    group; only a group that ends the list is measured to its own last
    image. *)
Theorem burst_time_span_runs_to_the_next_image :
  forall (analyzedImages : list AnalyzedImage) (maxIntervalMs : num),
    Forall (fun g =>
              exists pre post,
                sortedByTime analyzedImages
                = (pre ++ bg_images g ++ post)%list
                /\ timeSpan g
                   = sub (match post with
                          | [] => lastTime (bg_images g)
                          | next :: _ => timeOf next
                          end) (firstTime (bg_images g)))
           (detectBurstGroups analyzedImages maxIntervalMs).
Proof.
  intros imgs m. generalize (burst_groups_placed m imgs).
  apply Forall_impl. intros g (_ & _ & _ & pre & post & E & Ht & _).
  exists pre, post. split; assumption.
Qed.

End Timeline.

(* ================================================================= *)
(** ** Statistics of a report *)

Section Statistics.
Import JS Scoring Report.

Lemma bump_length (hist : list num) (k : num) :
  List.length (Histogram.bump hist k) = List.length hist.
Proof.
  unfold Histogram.bump. destruct k as [q| | |]; try reflexivity.
  cbv zeta.
  destruct (Qeq_bool _ _ && (0 <=? Qfloor q)%Z
            && (Qfloor q <? Z.of_nat (List.length hist))%Z) eqn:E;
    [|reflexivity].
  apply andb_prop in E. destruct E as [E E3]. apply andb_prop in E.
  destruct E as [_ E2]. apply Z.leb_le in E2. apply Z.ltb_lt in E3.
  rewrite length_app. cbn [List.length]. rewrite length_firstn, length_skipn.
  lia.
Qed.

Lemma bump_nth (hist : list num) (z : Z) (i : nat) :
  (0 <= z < Z.of_nat (List.length hist))%Z ->
  nth i (Histogram.bump hist (ofZ z)) NaN
  = if (i =? Z.to_nat z)%nat then add (nth i hist NaN) (fin 1)
    else nth i hist NaN.
Proof.
  intro H. rewrite ofZ_fin, bump_valid by exact H.
  set (n := Z.to_nat z). assert (Hn : (n < List.length hist)%nat) by lia.
  assert (Lf : List.length (firstn n hist) = n)
    by (rewrite length_firstn; lia).
  destruct (Nat.eqb_spec i n) as [->|Hne].
  - rewrite app_nth2 by lia. rewrite Lf, Nat.sub_diag. reflexivity.
  - destruct (Nat.lt_ge_cases i n) as [L|G].
    + rewrite app_nth1 by lia. rewrite <- (firstn_skipn n hist) at 2.
      rewrite app_nth1 by lia. reflexivity.
    + rewrite app_nth2 by lia. rewrite Lf.
      destruct (i - n)%nat as [|m] eqn:Em; [lia|]. cbn [nth].
      rewrite <- (firstn_skipn (S n) hist) at 2.
      rewrite app_nth2 by (rewrite length_firstn; lia).
      rewrite length_firstn. f_equal. lia.
Qed.

Lemma floor_ge (q : Q) (n : Z) :
  inject_Z (10 * n) <= q <-> (n <= Qfloor (q / 10))%Z.
Proof.
  rewrite inject_Z_mult. change (inject_Z 10) with 10. split; intro H.
  - rewrite <- (Qfloor_Z n). apply Qfloor_resp_le.
    apply Qle_shift_div_l; [reflexivity | lra].
  - assert (F := Qfloor_le (q / 10)). rewrite Zle_Qle in H.
    assert (X : inject_Z n <= q / 10) by lra.
    apply (Qmult_le_r _ _ 10) in X; [|reflexivity].
    setoid_replace (q / 10 * 10) with q in X by field. lra.
Qed.

Lemma lt_Fin_Fin (p q : Q) : lt (Fin p) (Fin q) = true <-> p < q.
Proof. rewrite <- gt_lt. apply gt_Fin_Fin. Qed.

(* Where a score is counted: in the band [j], or nowhere. *)
Lemma band_index (s : num) :
  (exists j : nat,
      (j < 10)%nat
      /\ min (fin 9) (floor (div s (fin 10))) = ofZ (Z.of_nat j)
      /\ forall k, (k < 10)%nat -> Notions.inBand k s = (k =? j)%nat)
  \/ ((forall hist, Histogram.bump hist (min (fin 9) (floor (div s (fin 10))))
                    = hist)
      /\ forall k, (k < 10)%nat -> Notions.inBand k s = false).
Proof.
  destruct s as [q| | |].
  - set (z := Qfloor (q / 10)).
    assert (E : floor (div (Fin q) (fin 10)) = ofZ z).
    { change (div (Fin q) (fin 10)) with (fin (q / 10)).
      unfold fin. cbn [floor].
      now rewrite (Qfloor_comp _ _ (Qred_correct (q / 10))). }
    rewrite E.
    assert (M : min (fin 9) (ofZ z) = ofZ (Z.min 9 z)).
    { unfold min, ofZ. change (fin 9) with (Fin (inject_Z 9)). cbn [cmp].
      destruct (Z.min_spec 9 z) as [[L ->]|[L ->]].
      - replace (inject_Z 9 ?= inject_Z z)%Q with Datatypes.Lt; [reflexivity|].
        symmetry. apply (proj1 (Qlt_alt _ _)). unfold Qlt. cbn [Qnum Qden inject_Z]. lia.
      - destruct (inject_Z 9 ?= inject_Z z)%Q eqn:C; try reflexivity.
        + apply (proj2 (Qeq_alt _ _)) in C. unfold Qeq in C.
          cbn [Qnum Qden inject_Z] in C. do 2 f_equal. lia.
        + apply (proj2 (Qlt_alt _ _)) in C. unfold Qlt in C. cbn [Qnum Qden inject_Z] in C.
          lia. }
    rewrite M.
    assert (Hge : forall n, ge (Fin q) (ofZ (10 * n)) = true <-> (n <= z)%Z).
    { intro n. unfold ofZ. rewrite ge_Fin_Fin. apply floor_ge. }
    assert (Hlt : forall n, lt (Fin q) (ofZ (10 * n + 10)) = true
                            <-> (z <= n)%Z).
    { intro n. unfold ofZ. rewrite lt_Fin_Fin.
      replace (10 * n + 10)%Z with (10 * (n + 1))%Z by lia.
      assert (X := floor_ge q (n + 1)). fold z in X. split; intro H.
      - destruct (Z_le_gt_dec z n) as [L|G]; [exact L|].
        exfalso. assert (Y : inject_Z (10 * (n + 1)) <= q) by (apply X; lia).
        lra.
      - apply Qnot_le_lt. intro Y. apply X in Y. lia. }
    destruct (Z_lt_ge_dec z 0) as [Neg|Pos].
    + right. split.
      * intro hist. rewrite Z.min_r by lia. unfold Histogram.bump, ofZ.
        rewrite Qfloor_Z. cbv zeta.
        replace (0 <=? z)%Z with false by (symmetry; apply Z.leb_gt; lia).
        now rewrite andb_false_r.
      * intros k Hk. unfold Notions.inBand.
        destruct (k =? 9)%nat.
        -- apply not_true_iff_false. change (fin 90) with (ofZ (10 * 9)).
           rewrite Hge. lia.
        -- apply andb_false_iff. left. apply not_true_iff_false.
           rewrite Hge. lia.
    + left. exists (Z.to_nat (Z.min 9 z)). split; [lia|].
      split; [f_equal; lia|].
      intros k Hk. unfold Notions.inBand.
      destruct (Nat.eqb_spec k 9) as [->|N9].
      * change (fin 90) with (ofZ (10 * 9)). apply eq_true_iff_eq.
        rewrite Hge, Nat.eqb_eq. lia.
      * apply eq_true_iff_eq. rewrite andb_true_iff, Hge, Hlt, Nat.eqb_eq.
        lia.
  - left. exists 9%nat. split; [lia|]. split; [reflexivity|].
    intros k Hk. unfold Notions.inBand.
    destruct (Nat.eqb_spec k 9) as [->|N9]; [reflexivity|].
    now rewrite andb_false_r.
  - right. split; [reflexivity|]. intros k Hk. unfold Notions.inBand.
    destruct (k =? 9)%nat; reflexivity.
  - right. split; [reflexivity|]. intros k Hk. unfold Notions.inBand.
    destruct (k =? 9)%nat; reflexivity.
Qed.

Lemma buckets_count (scores : list num) (buckets : list num)
  (cnt : nat -> nat) :
  List.length buckets = 10%nat ->
  (forall k, (k < 10)%nat -> nth k buckets NaN = ofZ (Z.of_nat (cnt k))) ->
  let buckets' :=
    fold_left (fun buckets score =>
                 Histogram.bump buckets
                   (min (fin 9) (floor (div score (fin 10)))))
              scores buckets in
  List.length buckets' = 10%nat
  /\ forall k, (k < 10)%nat ->
       nth k buckets' NaN
       = ofZ (Z.of_nat (cnt k + List.length
                                  (filter (Notions.inBand k) scores))).
Proof.
  revert buckets cnt. induction scores as [|s scores IH];
    intros buckets cnt Hl Hc; cbv zeta.
  - cbn [fold_left filter List.length]. split; [exact Hl|].
    intros k Hk. rewrite Nat.add_0_r. now apply Hc.
  - cbn [fold_left filter].
    destruct (IH (Histogram.bump buckets
                    (min (fin 9) (floor (div s (fin 10)))))
                 (fun k => (cnt k + if Notions.inBand k s then 1 else 0)%nat))
      as [L N].
    + now rewrite bump_length.
    + intros k Hk.
      destruct (band_index s) as [(j & Hj & -> & B)|[-> B]].
      * rewrite bump_nth by lia. rewrite (B k Hk), Nat2Z.id.
        destruct (k =? j)%nat.
        -- rewrite (Hc k Hk), ofZ_fin, add_fin, Nat.add_1_r.
           rewrite count_step. symmetry. apply ofZ_fin.
        -- rewrite Nat.add_0_r. now apply Hc.
      * rewrite (B k Hk), Nat.add_0_r. now apply Hc.
    + split; [exact L|]. intros k Hk. rewrite (N k Hk). do 2 f_equal.
      destruct (Notions.inBand k s); cbn [List.length]; lia.
Qed.

(** X27: the score histogram of a report has ten buckets and bucket k holds
    the number of results whose overall score lies in the k-th ten-point
    band; a score of 100 (and anything above 90) is counted in the last
    bucket, a negative score in none. *)
Theorem score_histogram_counts_by_band :
  forall results : list AnalyzedImage,
    let data := sh_data (scoreHistogram (calculateStatistics results)) in
    List.length data = 10%nat
    /\ forall k, (k < 10)%nat ->
         nth k data NaN
         = ofZ (Z.of_nat
                  (List.length
                     (filter (fun r => Notions.inBand k (overallOrZero r))
                             results))).
Proof.
  intros results data. subst data. unfold calculateStatistics. cbv zeta.
  destruct (fold_left _ results _) as [[[[[[bc br] ss] es] fs] cs] ci].
  cbn [scoreHistogram sh_data].
  destruct (buckets_count (map overallOrZero results) (repeat (fin 0) 10)
                          (fun _ => 0%nat)) as [L N].
  - reflexivity.
  - intros k Hk. do 10 (destruct k as [|k]; [reflexivity|]). lia.
  - split; [exact L|]. intros k Hk. rewrite (N k Hk). cbn [Nat.add].
    do 3 f_equal. clear. induction results as [|r results IH]; [reflexivity|].
    cbn [map filter]. destruct (Notions.inBand k (overallOrZero r));
      cbn [List.length]; now rewrite IH.
Qed.

Lemma fold_left_proj {S T B : Type} (proj : S -> T) (f : S -> B -> S)
  (g : T -> B -> T) :
  (forall st x, proj (f st x) = g (proj st) x) ->
  forall l st, proj (fold_left f l st) = fold_left g l (proj st).
Proof.
  intros H l. induction l as [|x l IH]; intro st; [reflexivity|].
  cbn [fold_left]. now rewrite IH, H.
Qed.

Lemma countUp_find (counts : list (string * num)) (key c : string) :
  find (fun e => fst e =? c) (countUp counts key)
  = if key =? c
    then Some (c, match find (fun e => fst e =? c) counts with
                  | Some (_, v) => add (orElse v (fin 0)) (fin 1)
                  | None => add (fin 0) (fin 1)
                  end)
    else find (fun e => fst e =? c) counts.
Proof.
  induction counts as [|[k v] counts IH]; cbn [countUp find fst].
  - destruct (String.eqb_spec key c) as [->|N]; reflexivity.
  - destruct (String.eqb_spec k key) as [->|Nk]; cbn [find fst].
    + destruct (String.eqb_spec key c) as [->|N]; reflexivity.
    + destruct (String.eqb_spec k c) as [->|Nc].
      * destruct (String.eqb_spec key c) as [->|N]; [congruence|reflexivity].
      * exact IH.
Qed.

Lemma truthy_ofZ (z : Z) : (z <> 0)%Z -> truthy (ofZ z) = true.
Proof.
  intro H. unfold ofZ, truthy.
  destruct (Qeq_bool (inject_Z z) 0) eqn:E; [|reflexivity].
  apply Qeq_bool_iff in E. exfalso. apply H.
  apply (proj1 (inject_Z_injective z 0)). exact E.
Qed.

Lemma category_counts (c : string) (results : list AnalyzedImage) :
  forall (counts : list (string * num)) (n : nat),
    find (fun e => fst e =? c) counts
    = (if (n =? 0)%nat then None else Some (c, ofZ (Z.of_nat n))) ->
    find (fun e => fst e =? c)
         (fold_left (fun counts r => countUp counts (categoryOrUnknown r))
                    results counts)
    = (let m := (n + List.length
                       (filter (fun r => (categoryOrUnknown r =? c)%string)
                               results))%nat
       in if (m =? 0)%nat then None else Some (c, ofZ (Z.of_nat m))).
Proof.
  induction results as [|r results IH]; intros counts n H; cbv zeta.
  - cbn [fold_left filter List.length]. now rewrite Nat.add_0_r.
  - cbn [fold_left filter].
    destruct (categoryOrUnknown r =? c) eqn:E.
    + rewrite (IH _ (S n)).
      * cbv zeta. cbn [List.length]. now rewrite Nat.add_succ_r.
      * rewrite countUp_find, E, H. cbn [Nat.eqb].
        destruct n as [|n]; cbn [Nat.eqb].
        -- reflexivity.
        -- do 2 f_equal. unfold orElse.
           replace (truthy (ofZ (Z.of_nat (S n)))) with true.
           ++ rewrite ofZ_fin, add_fin, count_step. symmetry. apply ofZ_fin.
           ++ symmetry. apply truthy_ofZ. lia.
    + apply IH. now rewrite countUp_find, E.
Qed.

(** X28: the category table of a report holds, for every category that
    occurs, the number of results of that category ('unknown' for a result
    without one), and no entry for a category that does not occur. *)
Theorem category_table_counts_results :
  forall (results : list AnalyzedImage) (c : string),
    let n := List.length
               (filter (fun r => categoryOrUnknown r =? c) results) in
    find (fun e => fst e =? c) (byCategory (calculateStatistics results))
    = if (n =? 0)%nat then None else Some (c, ofZ (Z.of_nat n)).
Proof.
  intros results c n. subst n. unfold calculateStatistics. cbv zeta.
  match goal with
  | |- context [fold_left ?f results ?init] =>
      assert (P := fold_left_proj
                     (fun st : list (string * num) * list (Z * num) * num
                               * num * num * num * list (string * num) =>
                        fst (fst (fst (fst (fst (fst st))))))
                     f
                     (fun counts r => countUp counts (categoryOrUnknown r))
                     ltac:(intros [[[[[[bc br] ss] es] fs] cs] ci] x;
                           reflexivity)
                     results init);
      destruct (fold_left f results init) as [[[[[[bc br] ss] es] fs] cs] ci]
  end.
  cbn [byCategory fst] in *. rewrite P.
  apply (category_counts c results [] 0). reflexivity.
Qed.

End Statistics.

(* ================================================================= *)
(** ** Quick analysis *)

Section Quick.
Import JS Scoring Analyzer.

(** X29: whatever the decoders return, the quick analysis gives an integer
    score between 0 and 100 and a rating between 1 and 5, and its category is
    'reject' or the one that goes with the rating. *)
Theorem quick_analysis_score_and_rating :
  forall (exif : Exif) (rgb gray : option PixelBuffer)
         (rand : Sharpness.Random),
    let r := quickAnalyze exif rgb gray rand in
    Notions.integerIn (q_score r) 0 100
    /\ (1 <= q_rating r <= 5)%Z
    /\ (q_category r = "reject"
        \/ (q_rating r = 5%Z /\ q_category r = "select")
        \/ (q_rating r = 4%Z /\ q_category r = "good")
        \/ (q_rating r = 3%Z /\ q_category r = "review")
        \/ (q_rating r = 2%Z /\ q_category r = "maybe")).
Proof.
  intros exif rgb gray rand r. subst r. unfold quickAnalyze. cbv zeta.
  cbn [q_score q_rating q_category]. unfold calculateScores. cbv zeta.
  cbn [overall rating classification].
  set (a := mkAnalyses _ _ _ _).
  set (o := mkOptions "general" None).
  assert (Ha : Spec.wfAnalyses a) by apply analyzeHistogram_wf.
  assert (Hw : Spec.wfWeights (actualWeightsOf o))
    by (apply builtin_weights_wf; reflexivity).
  assert (W := overall_within a (actualWeightsOf o) Ha Hw).
  split; [|split].
  - now apply (round_integer _ 0 100).
  - apply calculateStarRating_range.
  - rewrite classifyImage_category.
    destruct (shouldReject (checkAutoReject a)); [now left|].
    destruct W as (q & -> & _). rewrite calculateStarRating_Fin.
    unfold Spec.ratingOf, Spec.categoryOf.
    repeat match goal with
           | |- context [if ?b then _ else _] => destruct b
           end; tauto.
Qed.

End Quick.
